(** * Directory synchronisation engine of [Python/file-sync.py]

    A shallow embedding of the [FileSync] class: the exclusion predicate,
    the content fingerprint, [copy_file], the delete helpers, the three
    sync policies (mirror, backup, two-way), and the loading and saving
    of the exclusion list, over an explicit model of the file system.

    Modelling conventions.
    - A path is the list of its components, root first; [[]] is the file
      system root.  Paths are absolute and resolved, as [FileSync.__init__]
      makes them with [Path.resolve()].
    - The file system is a finite map from paths to nodes.  A regular
      file carries its bytes, its modification time (an integer number of
      ticks standing for [st_mtime]) and whether it may be opened for
      reading and for writing.  Directories carry no attributes: every
      directory can be listed, entered and written.  (Python's walk
      passes over a directory it may not list without raising or counting
      anything; what is stated of the files a run reaches is stated of
      trees that can be walked.)  There are no symbolic links.
    - Strings are sequences of bytes; text is in UTF-8, which is how
      Python reads and writes the exclusion list and the log.
    - [self.stats] and the lines of the log are fields of the [FileSync]
      record; every method takes the object and the file system and
      returns the updated pair.  [self.log] appends its lines to a file
      [sync-log-<time>.txt] in the working directory.  The model keeps
      the lines in the object and does not write that file.  What is
      stated of a single path is therefore stated of the paths whose name
      is not one the log file can have ([is_log_file_name]), and what is
      stated of the number of files is stated of the runs that end with
      no such file in the trees ([no_log_file]).
    - [Path.rglob] is taken as a snapshot at the start of each loop, which
      is what Python observes as long as neither root lies inside the
      other.
    - The operating system and the interpreter can make a run fail in
      ways the model does not have: a log line that cannot be written (a
      name that does not encode in UTF-8), a walk that gives up on a tree
      deeper than the recursion limit, a deletion or a copy refused in a
      directory that may not be written.  A real run in which this
      happens does not return, or counts the failure under [errors].
      What a run achieves is therefore stated of the runs that return
      with the [errors] counter where it was; what a run never does is
      stated of every run. *)

From Stdlib Require Import ZArith String Ascii List Bool Lia Sorted.
From stdpp Require Import gmap strings list fin_maps sorting.

Open Scope string_scope.
Open Scope list_scope.

(** ** Strings as Python uses them *)

(** [s.startswith(pre)] *)
Fixpoint startswith (s pre : string) {struct pre} : bool :=
  match pre with
  | EmptyString => true
  | String c pre' =>
      match s with
      | EmptyString => false
      | String d s' => if Ascii.eqb c d then startswith s' pre' else false
      end
  end.

(** [s.endswith(suf)]: [suf] is [s] itself or a suffix of the tail of [s]. *)
Fixpoint endswith (s suf : string) : bool :=
  String.eqb s suf ||
  match s with
  | EmptyString => false
  | String _ s' => endswith s' suf
  end.

(** ASCII part of [str.isspace]: tab, newline, vertical tab, form feed,
    carriage return, the four separators 28..31 and the blank. *)
Definition isspace (c : ascii) : bool :=
  let n := nat_of_ascii c in
  ((9 <=? n)%nat && (n <=? 13)%nat) || ((28 <=? n)%nat && (n <=? 32)%nat).

(** The rest of [str.isspace], in UTF-8.  Two bytes: U+0085 and U+00A0. *)
Definition isspace2 (a b : ascii) : bool :=
  (nat_of_ascii a =? 194)%nat
  && ((nat_of_ascii b =? 133)%nat || (nat_of_ascii b =? 160)%nat).

(** Three bytes: U+1680, U+2000 to U+200A, U+2028, U+2029, U+202F, U+205F
    and U+3000. *)
Definition isspace3 (a b c : ascii) : bool :=
  let x := nat_of_ascii a in
  let y := nat_of_ascii b in
  let z := nat_of_ascii c in
  ((x =? 225) && (y =? 154) && (z =? 128))%nat
  || ((x =? 226) && (y =? 128)
      && (((128 <=? z) && (z <=? 138)) || (z =? 168) || (z =? 169) || (z =? 175)))%nat
  || ((x =? 226) && (y =? 129) && (z =? 159))%nat
  || ((x =? 227) && (y =? 128) && (z =? 128))%nat.

(** [s.lstrip()]: drops the white characters the text starts with. *)
Fixpoint lstrip (s : string) : string :=
  match s with
  | EmptyString => EmptyString
  | String a s1 =>
      if isspace a then lstrip s1
      else
        match s1 with
        | EmptyString => s
        | String b s2 =>
            if isspace2 a b then lstrip s2
            else
              match s2 with
              | EmptyString => s
              | String c s3 => if isspace3 a b c then lstrip s3 else s
              end
        end
  end.

(** The same from the other end: [r] is the text read backwards. *)
Fixpoint rstrip_rev (r : list ascii) : list ascii :=
  match r with
  | [] => []
  | c :: r1 =>
      if isspace c then rstrip_rev r1
      else
        match r1 with
        | [] => r
        | b :: r2 =>
            if isspace2 b c then rstrip_rev r2
            else
              match r2 with
              | [] => r
              | a :: r3 => if isspace3 a b c then rstrip_rev r3 else r
              end
        end
  end.

(** [s.rstrip()]: drops the white characters the text ends with. *)
Definition rstrip (s : string) : string :=
  string_of_list_ascii (rev (rstrip_rev (rev (list_ascii_of_string s)))).

(** [s.strip()] *)
Definition strip (s : string) : string := rstrip (lstrip s).

(** Whether the bytes are well-formed UTF-8, which is when Python can
    write the text to a file opened with [encoding="utf-8"]: a file name
    that is not comes out of [os.fsdecode] with lone surrogates in it,
    and writing those raises [UnicodeEncodeError]. *)
Definition utf8_tail (c : ascii) : bool :=
  ((128 <=? nat_of_ascii c) && (nat_of_ascii c <=? 191))%nat.

Fixpoint utf8_valid (s : string) : bool :=
  match s with
  | EmptyString => true
  | String a s1 =>
      let x := nat_of_ascii a in
      if (x <? 128)%nat then utf8_valid s1
      else if ((194 <=? x) && (x <=? 223))%nat then
        match s1 with
        | String b s2 => utf8_tail b && utf8_valid s2
        | _ => false
        end
      else if ((224 <=? x) && (x <=? 239))%nat then
        match s1 with
        | String b (String c s3) =>
            let y := nat_of_ascii b in
            (if (x =? 224)%nat then ((160 <=? y) && (y <=? 191))%nat
             else if (x =? 237)%nat then ((128 <=? y) && (y <=? 159))%nat
             else utf8_tail b)
            && utf8_tail c && utf8_valid s3
        | _ => false
        end
      else if ((240 <=? x) && (x <=? 244))%nat then
        match s1 with
        | String b (String c (String d s4)) =>
            let y := nat_of_ascii b in
            (if (x =? 240)%nat then ((144 <=? y) && (y <=? 191))%nat
             else if (x =? 244)%nat then ((128 <=? y) && (y <=? 143))%nat
             else utf8_tail b)
            && utf8_tail c && utf8_tail d && utf8_valid s4
        | _ => false
        end
      else false
  end.

(** Splits at every character satisfying [sep]; [acc] is the current
    field, reversed. *)
Fixpoint split_on (sep : ascii -> bool) (acc : list ascii) (s : string)
  : list string :=
  match s with
  | EmptyString => [string_of_list_ascii (rev acc)]
  | String c s' =>
      if sep c then string_of_list_ascii (rev acc) :: split_on sep [] s'
      else split_on sep (c :: acc) s'
  end.

(** ** MD5, as [hashlib.md5] computes it (RFC 1321) *)

Module MD5.

Local Open Scope Z_scope.

Definition mask32 : Z := 4294967295.
Definition wrap32 (x : Z) : Z := Z.land x mask32.
Definition add32 (x y : Z) : Z := wrap32 (x + y).
Definition not32 (x : Z) : Z := Z.lxor x mask32.
Definition rotl32 (x : Z) (n : Z) : Z :=
  Z.lor (wrap32 (Z.shiftl x n)) (Z.shiftr x (32 - n)).

(** The sine table, [K i = floor (2^32 * |sin (i + 1)|)]. *)
Definition K : list Z :=
  [ 3614090360; 3905402710;  606105819; 3250441966;
    4118548399; 1200080426; 2821735955; 4249261313;
    1770035416; 2336552879; 4294925233; 2304563134;
    1804603682; 4254626195; 2792965006; 1236535329;
    4129170786; 3225465664;  643717713; 3921069994;
    3593408605;   38016083; 3634488961; 3889429448;
     568446438; 3275163606; 4107603335; 1163531501;
    2850285829; 4243563512; 1735328473; 2368359562;
    4294588738; 2272392833; 1839030562; 4259657740;
    2763975236; 1272893353; 4139469664; 3200236656;
     681279174; 3936430074; 3572445317;   76029189;
    3654602809; 3873151461;  530742520; 3299628645;
    4096336452; 1126891415; 2878612391; 4237533241;
    1700485571; 2399980690; 4293915773; 2240044497;
    1873313359; 4264355552; 2734768916; 1309151649;
    4149444226; 3174756917;  718787259; 3951481745 ].

(** Per-round left rotations. *)
Definition S : list Z :=
  [ 7; 12; 17; 22; 7; 12; 17; 22; 7; 12; 17; 22; 7; 12; 17; 22;
    5;  9; 14; 20; 5;  9; 14; 20; 5;  9; 14; 20; 5;  9; 14; 20;
    4; 11; 16; 23; 4; 11; 16; 23; 4; 11; 16; 23; 4; 11; 16; 23;
    6; 10; 15; 21; 6; 10; 15; 21; 6; 10; 15; 21; 6; 10; 15; 21 ].

Definition nthZ (l : list Z) (i : nat) : Z := nth i l 0.

(** Little-endian encoding of [x] on [n] bytes, and decoding. *)
Fixpoint le_bytes (n : nat) (x : Z) : list Z :=
  match n with
  | O => []
  | Datatypes.S n' => Z.land x 255 :: le_bytes n' (Z.shiftr x 8)
  end.

Fixpoint le_word (bs : list Z) : Z :=
  match bs with
  | [] => 0
  | b :: bs' => b + 256 * le_word bs'
  end.

(** The sixteen 32-bit words of a 64-byte block. *)
Fixpoint words (n : nat) (bs : list Z) : list Z :=
  match n with
  | O => []
  | Datatypes.S n' => le_word (firstn 4 bs) :: words n' (skipn 4 bs)
  end.

Record regs := Regs { rA : Z; rB : Z; rC : Z; rD : Z }.

Definition init : regs :=
  Regs 1732584193 4023233417 2562383102 271733878.

(** One of the 64 operations on the working registers. *)
Definition step (M : list Z) (r : regs) (i : nat) : regs :=
  let '(Regs a b c d) := r in
  let '(f, g) :=
    if (i <? 16)%nat then
      (Z.lor (Z.land b c) (Z.land (not32 b) d), i)
    else if (i <? 32)%nat then
      (Z.lor (Z.land d b) (Z.land (not32 d) c), ((5 * i + 1) mod 16)%nat)
    else if (i <? 48)%nat then
      (Z.lxor (Z.lxor b c) d, ((3 * i + 5) mod 16)%nat)
    else
      (Z.lxor c (Z.lor b (not32 d)), ((7 * i) mod 16)%nat) in
  let f' := add32 (add32 (add32 f a) (nthZ K i)) (nthZ M g) in
  Regs d (add32 b (rotl32 f' (nthZ S i))) b c.

Definition block (r : regs) (bs : list Z) : regs :=
  let M := words 16 bs in
  let r' := fold_left (step M) (seq 0 64) r in
  Regs (add32 (rA r) (rA r')) (add32 (rB r) (rB r'))
       (add32 (rC r) (rC r')) (add32 (rD r) (rD r')).

Fixpoint blocks (n : nat) (r : regs) (bs : list Z) : regs :=
  match n with
  | O => r
  | Datatypes.S n' => blocks n' (block r (firstn 64 bs)) (skipn 64 bs)
  end.

(** Padding: a [0x80] byte, zeros up to 56 modulo 64, then the bit length
    on eight little-endian bytes. *)
Definition pad (msg : list Z) : list Z :=
  let len := Z.of_nat (length msg) in
  let zeros := Z.to_nat ((55 - len) mod 64) in
  msg ++ [128] ++ repeat 0 zeros ++ le_bytes 8 (Z.land (8 * len) (2 ^ 64 - 1)).

Definition digest_bytes (msg : list Z) : list Z :=
  let p := pad msg in
  let r := blocks (length p / 64) init p in
  le_bytes 4 (rA r) ++ le_bytes 4 (rB r) ++ le_bytes 4 (rC r) ++ le_bytes 4 (rD r).

Definition hex_digit (x : Z) : ascii :=
  if x <? 10 then ascii_of_N (Z.to_N (48 + x)) else ascii_of_N (Z.to_N (87 + x)).

Fixpoint hex (bs : list Z) : string :=
  match bs with
  | [] => EmptyString
  | b :: bs' => String (hex_digit (Z.shiftr b 4)) (String (hex_digit (Z.land b 15)) (hex bs'))
  end.

Definition bytes_of_string (s : string) : list Z :=
  map (fun c => Z.of_N (N_of_ascii c)) (list_ascii_of_string s).

(** [hashlib.md5(data).hexdigest()] *)
Definition hexdigest (data : string) : string := hex (digest_bytes (bytes_of_string data)).

End MD5.

(** ** Paths and the file system *)

Abbreviation path := (list string) (only parsing).

(** [Path.name]: the last component, empty for the root. *)
Definition name (p : path) : string := List.last p "".

(** [Path.parent]; the root is its own parent. *)
Definition parent (p : path) : path := removelast p.

(** [p.relative_to(root)], used only on paths below [root]. *)
Definition relative_to (p root : path) : path := drop (length root) p.

Record file_data := FileData {
  content : string;     (* the bytes of the file *)
  mtime : Z;            (* st_mtime *)
  readable : bool;      (* open(.., "rb") succeeds *)
  writable : bool       (* open(.., "wb") succeeds *)
}.

Inductive node :=
| File (f : file_data)
| Dir.

Global Instance file_data_eq_dec : EqDecision file_data.
Proof. solve_decision. Defined.

Global Instance node_eq_dec : EqDecision node.
Proof. solve_decision. Defined.

Abbreviation filesystem := (gmap (list string) node) (only parsing).

(** What [os.stat] finds at [p]; the root always exists. *)
Definition fs_node (fs : filesystem) (p : path) : option node :=
  match p with
  | [] => Some Dir
  | _ => fs !! p
  end.

(** [Path.exists], [Path.is_file], [Path.is_dir] *)
Definition Path_exists (fs : filesystem) (p : path) : bool :=
  match fs_node fs p with Some _ => true | None => false end.

Definition is_file (fs : filesystem) (p : path) : bool :=
  match fs_node fs p with Some (File _) => true | _ => false end.

Definition is_dir (fs : filesystem) (p : path) : bool :=
  match fs_node fs p with Some Dir => true | _ => false end.

(** [q] lies strictly below [root]. *)
Definition below (root q : path) : bool :=
  bool_decide (root `prefix_of` q) && negb (bool_decide (q = root)).

(** [root.rglob('*')]: every entry strictly below [root], files and
    directories alike, hidden ones included; nothing when [root] is not a
    directory.  Python leaves the order to the operating system; the model
    lists the entries in the order of the map.  The walk of Python can
    also end in an exception, on a tree deeper than the recursion limit
    or a path longer than the system takes; the loops stand outside any
    [try], so a run in which this happens does not return.  The model has
    no such walk. *)
Definition rglob (fs : filesystem) (root : path) : list path :=
  if is_dir fs root then List.filter (below root) (map_to_list fs).*1 else [].

(** [any(p.iterdir())] *)
Definition has_entries (fs : filesystem) (p : path) : bool :=
  existsb (fun q => negb (bool_decide (q = [])) && bool_decide (parent q = p))
          (map_to_list fs).*1.

(** Order on paths: component by component, strings by code point. *)
Fixpoint path_compare (p q : path) : comparison :=
  match p, q with
  | [], [] => Eq
  | [], _ :: _ => Lt
  | _ :: _, [] => Gt
  | a :: p', b :: q' =>
      match String.compare a b with
      | Eq => path_compare p' q'
      | c => c
      end
  end.

Definition path_ltb (p q : path) : bool :=
  match path_compare p q with Lt => true | _ => false end.

Fixpoint insert_desc (p : path) (l : list path) : list path :=
  match l with
  | [] => [p]
  | q :: l' => if path_ltb p q then q :: insert_desc p l' else p :: l
  end.

(** [sorted(l, reverse=True)] *)
Definition sorted_reverse (l : list path) : list path := foldr insert_desc [] l.

(** *** System calls *)

Inductive mkdir_result :=
| Created (fs : filesystem)
| FileExistsError
| FileNotFoundError
| NotADirectoryError.

(** [os.mkdir(p)] *)
Definition os_mkdir (fs : filesystem) (p : path) : mkdir_result :=
  match fs_node fs p with
  | Some _ => FileExistsError
  | None =>
      match fs_node fs (parent p) with
      | Some Dir => Created (<[p := Dir]> fs)
      | Some (File _) => NotADirectoryError
      | None => FileNotFoundError
      end
  end.

(** [Path.mkdir(parents=True, exist_ok=True)] on the path whose reversal
    is [rp]: try [os.mkdir]; on [FileNotFoundError] make the parent first
    and try again without [parents]; on any other [OSError] succeed only
    if the path is a directory already.  [None] stands for the exception
    that escapes. *)
Fixpoint Path_mkdir_rev (fs : filesystem) (rp : list string) : option filesystem :=
  let p := rev rp in
  match os_mkdir fs p with
  | Created fs' => Some fs'
  | FileNotFoundError =>
      match rp with
      | [] => None
      | _ :: rp' =>
          match Path_mkdir_rev fs rp' with
          | None => None
          | Some fs1 =>
              match os_mkdir fs1 p with
              | Created fs2 => Some fs2
              | FileNotFoundError => None
              | _ => if is_dir fs1 p then Some fs1 else None
              end
          end
      end
  | _ => if is_dir fs p then Some fs else None
  end.

Definition Path_mkdir (fs : filesystem) (p : path) : option filesystem :=
  Path_mkdir_rev fs (rev p).

(** [shutil.copy2(src, dst)]: when [dst] is a directory the file is copied
    into it under the base name of [src]; copying a file onto itself is
    [SameFileError]; [src] is opened for reading, then the destination for
    writing (created if absent, which needs its directory); [copystat]
    then carries the modification time and the permission bits over. *)
Definition copy2 (fs : filesystem) (src dst : path) : option filesystem :=
  let dst' := if is_dir fs dst then dst ++ [name src] else dst in
  if Path_exists fs src && bool_decide (src = dst') then None
  else
    match fs_node fs src with
    | Some (File f) =>
        if readable f then
          match fs_node fs dst' with
          | Some Dir => None
          | Some (File g) =>
              if writable g then Some (<[dst' := File f]> fs) else None
          | None =>
              if is_dir fs (parent dst') then Some (<[dst' := File f]> fs) else None
          end
        else None
    | _ => None
    end.

(** [Path.unlink()].  The system can refuse the removal in a directory
    that may not be written, which the model does not have: directories
    carry no attributes.  [delete_file] counts such a refusal under
    [errors]. *)
Definition unlink (fs : filesystem) (p : path) : option filesystem :=
  if is_file fs p then Some (delete p fs) else None.

(** [shutil.rmtree(p)]: removes the directory and all below it.  As with
    [unlink], the model has no refusal; [delete_directory] counts one
    under [errors]. *)
Definition rmtree (fs : filesystem) (p : path) : option filesystem :=
  if is_dir fs p then
    Some (filter (fun kv => ¬ p `prefix_of` kv.1) fs)
  else None.

(** ** The [FileSync] object *)

Record Stats := mkStats {
  copied : nat;
  updated : nat;
  deleted : nat;
  skipped : nat;
  errors : nat
}.

(** The lines [self.log] writes, without their time stamps and without the
    text of the exception. *)
Inductive log_entry :=
| LogInfo (msg : string)
| LogHashFailed (p : list string)
| LogSkipped (src : list string)
| LogUpdated (src dst : list string)
| LogCopied (src dst : list string)
| LogCopyFailed (src : list string)
| LogDeleted (p : list string)
| LogDeleteFailed (p : list string)
| LogDeletedDir (p : list string)
| LogDeleteDirFailed (p : list string).

Global Instance log_entry_eq_dec : EqDecision log_entry.
Proof. solve_decision. Defined.

Record FileSync := mkFileSync {
  source_dir : list string;
  target_dir : list string;
  mode : string;
  dry_run : bool;
  stats : Stats;
  excluded_files : gset (list string);
  excluded_dirs : gset (list string);
  log_file : list log_entry
}.

(** [FileSync.__init__] on resolved directories. *)
Definition FileSync_init (source target : path) (mode : string) (dry_run : bool)
  : FileSync :=
  mkFileSync source target mode dry_run (mkStats 0 0 0 0 0) ∅ ∅ [].

Definition with_stats (f : Stats -> Stats) (self : FileSync) : FileSync :=
  mkFileSync (source_dir self) (target_dir self) (mode self) (dry_run self)
             (f (stats self)) (excluded_files self) (excluded_dirs self)
             (log_file self).

Definition incr_copied (s : Stats) : Stats :=
  mkStats (S (copied s)) (updated s) (deleted s) (skipped s) (errors s).
Definition incr_updated (s : Stats) : Stats :=
  mkStats (copied s) (S (updated s)) (deleted s) (skipped s) (errors s).
Definition incr_deleted (s : Stats) : Stats :=
  mkStats (copied s) (updated s) (S (deleted s)) (skipped s) (errors s).
Definition incr_skipped (s : Stats) : Stats :=
  mkStats (copied s) (updated s) (deleted s) (S (skipped s)) (errors s).
Definition incr_errors (s : Stats) : Stats :=
  mkStats (copied s) (updated s) (deleted s) (skipped s) (S (errors s)).

(** [self.log(message)]: appends one line to the log file.  The model
    keeps the line in the object.  The write itself can fail, when the
    message names a path that does not encode in UTF-8 or the file cannot
    be opened; inside [copy_file] and the delete helpers the handler then
    counts an error and logs again, and an exception of that second write
    ends the run. *)
Definition log (e : log_entry) (self : FileSync) : FileSync :=
  mkFileSync (source_dir self) (target_dir self) (mode self) (dry_run self)
             (stats self) (excluded_files self) (excluded_dirs self)
             (log_file self ++ [e]).

(** The names [FileSync.__init__] gives to the file the lines go to:
    [sync-log-], the time of construction, [.txt].  The name is taken
    from the working directory, so the file can lie anywhere, inside
    the trees too; no rule of [should_exclude] names it. *)
Definition is_log_file_name (n : string) : bool :=
  startswith n "sync-log-" && endswith n ".txt".

(** Every name of the path encodes in UTF-8, so that a log line naming
    the path can be written. *)
Definition encodable (p : list string) : bool := forallb utf8_valid p.

(** No regular file below [root] has a name the log file can have. *)
Definition no_log_file (fs : gmap (list string) node) (root : list string) : bool :=
  forallb (fun q => negb (below root q && is_file fs q
                          && is_log_file_name (name q)))
          (map_to_list fs).*1.


(** [get_file_hash]: the file is read in chunks of 4096 bytes that are fed
    to the digest one after the other, which hashes their concatenation;
    any exception is logged and answered by [None]. *)
Definition get_file_hash (self : FileSync) (fs : filesystem) (file_path : path)
  : option string * FileSync :=
  match fs_node fs file_path with
  | Some (File f) =>
      if readable f then (Some (MD5.hexdigest (content f)), self)
      else (None, log (LogHashFailed file_path) self)
  | _ => (None, log (LogHashFailed file_path) self)
  end.

(** [should_exclude] *)
Definition should_exclude (self : FileSync) (p : path) : bool :=
  let path_name := name p in
  if startswith path_name "." || startswith path_name "~"
     || endswith path_name ".tmp" then true
  else if endswith path_name ".log" then true
  else if bool_decide (path_name ∈
            ["__pycache__"; ".git"; ".svn"; "node_modules"; ".vscode"; ".idea"])
       then true
  else if bool_decide (p ∈ excluded_files self)
          || bool_decide (p ∈ excluded_dirs self) then true
  else false.

(** [copy_file]: the whole body is inside [try]; any exception is counted
    under [errors]. *)
Definition copy_file (self : FileSync) (fs : filesystem)
    (source_file target_file : path) : FileSync * filesystem :=
  match Path_mkdir fs (parent target_file) with
  | None => (log (LogCopyFailed source_file) (with_stats incr_errors self), fs)
  | Some fs1 =>
      let '(same, self1) :=
        if Path_exists fs1 target_file then
          let '(source_hash, self') := get_file_hash self fs1 source_file in
          let '(target_hash, self'') := get_file_hash self' fs1 target_file in
          (bool_decide (source_hash = target_hash), self'')
        else (false, self) in
      if same then
        (log (LogSkipped source_file) (with_stats incr_skipped self1), fs1)
      else
        match (if dry_run self1 then Some fs1
               else copy2 fs1 source_file target_file) with
        | None =>
            (log (LogCopyFailed source_file) (with_stats incr_errors self1), fs1)
        | Some fs2 =>
            if Path_exists fs2 target_file then
              (log (LogUpdated source_file target_file)
                   (with_stats incr_updated self1), fs2)
            else
              (log (LogCopied source_file target_file)
                   (with_stats incr_copied self1), fs2)
        end
  end.

(** [delete_file] *)
Definition delete_file (self : FileSync) (fs : filesystem) (file_path : path)
  : FileSync * filesystem :=
  match (if dry_run self then Some fs else unlink fs file_path) with
  | Some fs' => (log (LogDeleted file_path) (with_stats incr_deleted self), fs')
  | None => (log (LogDeleteFailed file_path) (with_stats incr_errors self), fs)
  end.

(** [delete_directory] *)
Definition delete_directory (self : FileSync) (fs : filesystem) (dir_path : path)
  : FileSync * filesystem :=
  match (if dry_run self then Some fs else rmtree fs dir_path) with
  | Some fs' => (log (LogDeletedDir dir_path) (with_stats incr_deleted self), fs')
  | None => (log (LogDeleteDirFailed dir_path) (with_stats incr_errors self), fs)
  end.

(** How a method ends: it returns, or an exception escapes it. *)
Inductive outcome :=
| Returned (self : FileSync) (fs : filesystem)
| Raised (self : FileSync) (fs : filesystem).

Definition final_self (o : outcome) : FileSync :=
  match o with Returned s _ | Raised s _ => s end.

Definition final_fs (o : outcome) : filesystem :=
  match o with Returned _ fs | Raised _ fs => fs end.

(** Body of the first loop of [mirror_sync] and of the loop of
    [backup_sync]. *)
Definition push_entry (st : FileSync * filesystem) (source_file : path)
  : FileSync * filesystem :=
  let '(self, fs) := st in
  if should_exclude self source_file then st
  else if is_file fs source_file then
    let relative_path := relative_to source_file (source_dir self) in
    let target_file := target_dir self ++ relative_path in
    copy_file self fs source_file target_file
  else st.

(** Body of the second loop of [mirror_sync]. *)
Definition prune_entry (st : FileSync * filesystem) (target_file : path)
  : FileSync * filesystem :=
  let '(self, fs) := st in
  if should_exclude self target_file then st
  else if is_file fs target_file then
    let relative_path := relative_to target_file (target_dir self) in
    let source_file := source_dir self ++ relative_path in
    if negb (Path_exists fs source_file) then delete_file self fs target_file
    else st
  else st.

(** Body of the third loop of [mirror_sync]. *)
Definition reap_entry (st : FileSync * filesystem) (target_dir' : path)
  : FileSync * filesystem :=
  let '(self, fs) := st in
  if is_dir fs target_dir' && negb (has_entries fs target_dir') then
    let relative_path := relative_to target_dir' (target_dir self) in
    let source_dir' := source_dir self ++ relative_path in
    if negb (Path_exists fs source_dir') then delete_directory self fs target_dir'
    else st
  else st.

(** [mirror_sync] *)
Definition mirror_sync (self : FileSync) (fs : filesystem) : outcome :=
  let self := log (LogInfo "mirror sync started") self in
  match Path_mkdir fs (target_dir self) with
  | None => Raised self fs
  | Some fs =>
      let st1 := foldl push_entry (self, fs) (rglob fs (source_dir self)) in
      let st2 := foldl prune_entry st1 (rglob st1.2 (target_dir self)) in
      let st3 := foldl reap_entry st2
                       (sorted_reverse (rglob st2.2 (target_dir self))) in
      Returned st3.1 st3.2
  end.

(** [backup_sync] *)
Definition backup_sync (self : FileSync) (fs : filesystem) : outcome :=
  let self := log (LogInfo "backup sync started") self in
  match Path_mkdir fs (target_dir self) with
  | None => Raised self fs
  | Some fs =>
      let st := foldl push_entry (self, fs) (rglob fs (source_dir self)) in
      Returned st.1 st.2
  end.

(** *** Two-way sync *)

(** The value of [file_info['source']]. *)
Inductive side := FromSource | FromTarget.

Global Instance side_eq_dec : EqDecision side.
Proof. solve_decision. Defined.

Record file_info := FileInfo {
  info_path : list string;
  info_mtime : Z;
  info_size : nat;
  info_source : side
}.

(** [all_files]: a Python dict keeps its keys in insertion order, and an
    assignment to a key already present keeps the place of the key.  The
    key is the relative path (its string form determines it). *)
Fixpoint dict_get (d : list (list string * file_info)) (k : path)
  : option file_info :=
  match d with
  | [] => None
  | (k', v) :: d' => if decide (k = k') then Some v else dict_get d' k
  end.

Fixpoint dict_set (d : list (list string * file_info)) (k : path) (v : file_info)
  : list (list string * file_info) :=
  match d with
  | [] => [(k, v)]
  | (k', v') :: d' =>
      if decide (k = k') then (k, v) :: d' else (k', v') :: dict_set d' k v
  end.

(** [p.stat()] of a regular file: [st_mtime] and [st_size]. *)
Definition stat_file (fs : filesystem) (p : path) : Z * nat :=
  match fs_node fs p with
  | Some (File f) => (mtime f, String.length (content f))
  | _ => (0%Z, 0)
  end.

(** Body of the loop over the source tree. *)
Definition index_source (self : FileSync) (fs : filesystem)
    (all_files : list (list string * file_info)) (source_file : path)
  : list (list string * file_info) :=
  if should_exclude self source_file || negb (is_file fs source_file)
  then all_files
  else
    let relative_path := relative_to source_file (source_dir self) in
    let file_info :=
      FileInfo source_file (stat_file fs source_file).1
               (stat_file fs source_file).2 FromSource in
    dict_set all_files relative_path file_info.

(** Body of the loop over the target tree: an entry of the source is
    replaced only by a strictly newer file of the target. *)
Definition index_target (self : FileSync) (fs : filesystem)
    (all_files : list (list string * file_info)) (target_file : path)
  : list (list string * file_info) :=
  if should_exclude self target_file || negb (is_file fs target_file)
  then all_files
  else
    let relative_path := relative_to target_file (target_dir self) in
    let file_info :=
      FileInfo target_file (stat_file fs target_file).1
               (stat_file fs target_file).2 FromTarget in
    match dict_get all_files relative_path with
    | Some old =>
        if (info_mtime old <? info_mtime file_info)%Z
        then dict_set all_files relative_path file_info
        else all_files
    | None => dict_set all_files relative_path file_info
    end.

(** The dict [all_files] once both trees have been walked. *)
Definition collect_all_files (self : FileSync) (fs : filesystem)
  : list (list string * file_info) :=
  foldl (index_target self fs)
        (foldl (index_source self fs) [] (rglob fs (source_dir self)))
        (rglob fs (target_dir self)).

(** Body of the last loop: copy from the side the entry came from. *)
Definition settle_entry (st : FileSync * filesystem)
    (item : list string * file_info) : FileSync * filesystem :=
  let '(self, fs) := st in
  let '(relative_path, file_info) := item in
  let source_path := source_dir self ++ relative_path in
  let target_path := target_dir self ++ relative_path in
  match info_source file_info with
  | FromSource => copy_file self fs source_path target_path
  | FromTarget => copy_file self fs target_path source_path
  end.

(** [two_way_sync] *)
Definition two_way_sync (self : FileSync) (fs : filesystem) : outcome :=
  let self := log (LogInfo "two-way sync started") self in
  match Path_mkdir fs (source_dir self) with
  | None => Raised self fs
  | Some fs =>
      match Path_mkdir fs (target_dir self) with
      | None => Raised self fs
      | Some fs =>
          let st := foldl settle_entry (self, fs) (collect_all_files self fs) in
          Returned st.1 st.2
      end
  end.

(** [run_sync]: logs the banner, runs the policy named by [self.mode],
    logs the summary and returns [self.stats], here the [stats] field of
    the returned object.  An unknown mode raises [ValueError]. *)
Definition run_sync (self : FileSync) (fs : filesystem) : outcome :=
  let self := log (LogInfo "simulated run")
                (log (LogInfo "sync mode") (log (LogInfo "sync started") self)) in
  let o :=
    if String.eqb (mode self) "mirror" then mirror_sync self fs
    else if String.eqb (mode self) "backup" then backup_sync self fs
    else if String.eqb (mode self) "sync" then two_way_sync self fs
    else Raised self fs in
  match o with
  | Returned self fs => Returned (log (LogInfo "summary") self) fs
  | Raised _ _ => o
  end.

(** *** The exclusion list *)

(** [Path(s)] taken from the working directory [cwd]: the components of
    [s], empty ones and [.] dropped; [..] is kept for the operating system
    to follow. *)
Definition Path_of_string (cwd : path) (s : string) : path :=
  let parts :=
    List.filter (fun c => negb (String.eqb c "") && negb (String.eqb c "."))
                (split_on (Ascii.eqb "/") [] s) in
  if startswith s "/" then parts else cwd ++ parts.

(** Path resolution: walks the components from [cur]; every step needs
    the directory it starts from, and [..] goes to the parent. *)
Fixpoint walk (fs : filesystem) (cur : path) (parts : list string) : option path :=
  match parts with
  | [] => Some cur
  | c :: rest =>
      if is_dir fs cur then
        if String.eqb c ".." then walk fs (parent cur) rest
        else walk fs (cur ++ [c]) rest
      else None
  end.

Definition with_excluded_files (f : gset (list string) -> gset (list string))
    (self : FileSync) : FileSync :=
  mkFileSync (source_dir self) (target_dir self) (mode self) (dry_run self)
             (stats self) (f (excluded_files self)) (excluded_dirs self)
             (log_file self).

Definition with_excluded_dirs (f : gset (list string) -> gset (list string))
    (self : FileSync) : FileSync :=
  mkFileSync (source_dir self) (target_dir self) (mode self) (dry_run self)
             (stats self) (excluded_files self) (f (excluded_dirs self))
             (log_file self).

(** [add_exclusion(path)], called in working directory [cwd]; the path
    added is the resolved one. *)
Definition add_exclusion (cwd : path) (fs : filesystem) (self : FileSync)
    (path : string) : FileSync :=
  match walk fs [] (Path_of_string cwd path) with
  | Some path_obj =>
      if is_file fs path_obj then
        with_excluded_files (fun s => s ∪ {[path_obj]}) self
      else if is_dir fs path_obj then
        with_excluded_dirs (fun s => s ∪ {[path_obj]}) self
      else self
  | None => self
  end.

(** The lines of a text file: every newline and carriage return ends a
    line (what is left between the two of a CR LF pair is blank). *)
Definition file_lines (text : string) : list string :=
  split_on (fun c => Ascii.eqb c "010" || Ascii.eqb c "013") [] text.

(** Body of the loop of [load_exclusions_from_file]. *)
Definition load_line (cwd : path) (fs : filesystem) (self : FileSync)
    (line : string) : FileSync :=
  let line := strip line in
  if negb (String.eqb line "") && negb (startswith line "#")
  then add_exclusion cwd fs self line
  else self.

(** [open(file_path, 'r')] and reading the text; [None] stands for the
    exception. *)
Definition open_read (cwd : path) (fs : filesystem) (file_path : string)
  : option string :=
  match walk fs [] (Path_of_string cwd file_path) with
  | Some p =>
      match fs_node fs p with
      | Some (File f) => if readable f then Some (content f) else None
      | _ => None
      end
  | None => None
  end.

(** [load_exclusions_from_file(file_path)].  An exception inside the loop
    (a byte that does not decode, a path longer than the system takes)
    ends the loop and is logged: the code then passes fewer lines on to
    [add_exclusion] than the model does, never other ones. *)
Definition load_exclusions_from_file (cwd : path) (fs : filesystem)
    (self : FileSync) (file_path : string) : FileSync :=
  match open_read cwd fs file_path with
  | Some text => foldl (load_line cwd fs) self (file_lines text)
  | None => log (LogInfo "loading the exclusion list failed") self
  end.

(** Whether a file or a directory exists at the path the string names. *)
Definition exists_at (cwd : path) (fs : filesystem) (path : string) : bool :=
  match walk fs [] (Path_of_string cwd path) with
  | Some p => Path_exists fs p
  | None => false
  end.

(** ** The plan a run follows, as its log records it *)

(** The actions of a plan item. *)
Inductive action := Copy | Update | Delete | Skip.

Global Instance action_eq_dec : EqDecision action.
Proof. solve_decision. Defined.

(** The decision a log line records, with the path it is about; banner
    and failure lines record none. *)
Definition plan_item (e : log_entry) : option (action * list string) :=
  match e with
  | LogSkipped src => Some (Skip, src)
  | LogUpdated src _ => Some (Update, src)
  | LogCopied src _ => Some (Copy, src)
  | LogDeleted p => Some (Delete, p)
  | LogDeletedDir p => Some (Delete, p)
  | _ => None
  end.

Definition plan_of (self : FileSync) : list (action * list string) :=
  omap plan_item (log_file self).

(** Kind of a node: what deletion would take away. *)
Inductive kind := KFile | KDir.

Definition node_kind (n : node) : kind :=
  match n with File _ => KFile | Dir => KDir end.

(** ** The contract of the exclusion predicate, as the specification words it *)

Definition tooling_denylist : list string :=
  ["__pycache__"; ".git"; ".svn"; "node_modules"; ".vscode"; ".idea"].


(** ** The planner's rule for an entry present on both sides, as the
    specification words it *)


(** Settles a decidable goal about concrete data by evaluating its
    decision procedure. *)
Ltac decide_by_evaluation :=
  match goal with
  | |- ?G =>
      let d := constr:(_ : Decision G) in
      refine (@bool_decide_unpack G d _); vm_compute; exact I
  end.


(** A file system with a source tree and an exclusion file naming one
    existing file, one missing path, a comment and a blank line. *)
Definition fs_with_exclusion_file : gmap (list string) node :=
  list_to_map
    [ (["src"], Dir);
      (["src"; "a.txt"], File (FileData "alpha" 5 true true));
      (["cfg"], Dir);
      (["cfg"; "missing.lst"],
       File (FileData ("# stale entries" +:+ String "010"
                       ("/src/gone.txt" +:+ String "010"
                       (String "010" ("  ghost/dir  " +:+ String "010" ""))))
                      7 true true)) ].

(** Two trees holding [a.txt] with the same size and the same
    modification time but different bytes. *)
Definition fs_same_metadata : gmap (list string) node :=
  list_to_map
    [ (["src"], Dir); (["src"; "a.txt"], File (FileData "new!" 5 true true));
      (["dst"], Dir); (["dst"; "a.txt"], File (FileData "old!" 5 true true)) ].

(** Two trees holding [a.txt] with the same bytes, the target copy older
    and the source copy newer. *)
Definition fs_same_bytes : gmap (list string) node :=
  list_to_map
    [ (["src"], Dir); (["src"; "a.txt"], File (FileData "same bytes" 9 true true));
      (["dst"], Dir); (["dst"; "a.txt"], File (FileData "same bytes" 2 true true)) ].

(** Two trees holding [a.txt] with different bytes, neither copy readable. *)
Definition fs_unreadable_pair : gmap (list string) node :=
  list_to_map
    [ (["src"], Dir); (["src"; "a.txt"], File (FileData "new text" 9 false true));
      (["dst"], Dir); (["dst"; "a.txt"], File (FileData "old text" 2 false true)) ].

(** ** Backup never deletes *)

(** The paths the log records as deleted. *)
Definition deletions (self : FileSync) : list (list string) :=
  omap (fun e => match plan_item e with
                 | Some (Delete, p) => Some p
                 | _ => None
                 end) (log_file self).

(** Every entry of [fs] is still there in [fs'], a file as a file and a
    directory as a directory. *)
Definition preserved (fs fs' : gmap (list string) node) : Prop :=
  forall p n, fs !! p = Some n ->
              exists n', fs' !! p = Some n' /\ node_kind n' = node_kind n.

(** Nothing was deleted between two states of a run. *)
Definition nothing_deleted (st st' : FileSync * gmap (list string) node) : Prop :=
  deleted (stats st'.1) = deleted (stats st.1) /\
  deletions st'.1 = deletions st.1 /\
  preserved st.2 st'.2.

(** A source with a new file and a changed file, and a target holding an
    old copy and a file of its own below a directory of its own. *)
Definition fs_backup : gmap (list string) node :=
  list_to_map
    [ (["src"], Dir);
      (["src"; "new.txt"], File (FileData "fresh" 8 true true));
      (["src"; "a.txt"], File (FileData "second draft" 9 true true));
      (["dst"], Dir);
      (["dst"; "a.txt"], File (FileData "first draft" 2 true true));
      (["dst"; "keep"], Dir);
      (["dst"; "keep"; "old.txt"], File (FileData "only here" 1 true true)) ].

(** ** Two-way sync: the last loop *)



(** A source with two new files, one of them below a directory, and an
    empty target. *)
Definition fs_new_files : gmap (list string) node :=
  list_to_map
    [ (["src"], Dir);
      (["src"; "a.txt"], File (FileData "0123456789" 5 true true));
      (["src"; "sub"], Dir);
      (["src"; "sub"; "b.txt"], File (FileData "bravo" 6 true true));
      (["dst"], Dir) ].

(** A source holding [a.txt] (ten bytes) and [b.txt], and an empty target. *)
Definition fs_two_files : gmap (list string) node :=
  list_to_map
    [ (["src"], Dir);
      (["src"; "a.txt"], File (FileData "0123456789" 5 true true));
      (["src"; "b.txt"], File (FileData "bravo" 6 true true));
      (["dst"], Dir) ].

(** A source holding the file [a] and a target holding an empty directory
    of the same name. *)
Definition fs_file_against_dir : gmap (list string) node :=
  list_to_map
    [ (["src"], Dir);
      (["src"; "a"], File (FileData "payload" 5 true true));
      (["dst"], Dir);
      (["dst"; "a"], Dir) ].

(** ** Where a run writes *)

(** [q] lies on the line of [root]: it is [root], one of its ancestors or
    something below it. *)
Definition on_line (root q : list string) : Prop :=
  q `prefix_of` root \/ root `prefix_of` q.

(** The settings of the object, which no sync method changes. *)
Definition same_settings (self self' : FileSync) : Prop :=
  source_dir self' = source_dir self /\ target_dir self' = target_dir self /\
  mode self' = mode self /\ dry_run self' = dry_run self /\
  excluded_files self' = excluded_files self /\
  excluded_dirs self' = excluded_dirs self.

(** ** What a dry run changes *)

(** [fs'] is [fs] with some directories added: every path holds what it
    held, or held nothing and now holds a directory. *)
Definition dirs_added (fs fs' : gmap (list string) node) : Prop :=
  forall q, fs' !! q = fs !! q \/ (fs !! q = None /\ fs' !! q = Some Dir).

(** A target holding a stale file below a directory of its own. *)
Definition fs_stale_target : gmap (list string) node :=
  list_to_map
    [ (["src"], Dir);
      (["src"; "a.txt"], File (FileData "alpha" 5 true true));
      (["dst"], Dir);
      (["dst"; "old"], Dir);
      (["dst"; "old"; "stale.txt"], File (FileData "stale" 1 true true)) ].

(** ** The exclusion list grows only *)

(** Every exclusion of [self] is one of [self'], and what [self'] has in
    addition is a regular file of [fs] (for [excluded_files]) or a
    directory of [fs] (for [excluded_dirs]). *)
Definition exclusions_grown (fs : gmap (list string) node)
    (self self' : FileSync) : Prop :=
  excluded_files self ⊆ excluded_files self' /\
  excluded_dirs self ⊆ excluded_dirs self' /\
  (forall p, p ∈ excluded_files self' -> p ∈ excluded_files self \/ is_file fs p = true) /\
  (forall p, p ∈ excluded_dirs self' -> p ∈ excluded_dirs self \/ is_dir fs p = true) /\
  stats self' = stats self.

(** ** Counting *)


(** The source files a Backup or Mirror run has to deal with. *)
Definition eligible (self : FileSync) (fs : gmap (list string) node)
    (q : list string) : bool :=
  negb (should_exclude self q) && is_file fs q.

(** ** The counters and the log agree *)




(** ** The order of the third loop of Mirror *)

(** [p] is not above [q] in the order of paths. *)
Definition path_le (p q : list string) : Prop :=
  path_compare p q = Lt \/ path_compare p q = Eq.

(** ** Backup brings a file up to date *)

(** The file system is a tree: whatever exists below the root lies in a
    directory. *)
Definition tree_shaped (fs : gmap (list string) node) : Prop :=
  map_Forall (fun p _ => p = [] \/ is_dir fs (parent p) = true) fs.


(** What every iteration of the loop of Backup keeps: the settings, the
    source tree, and everything that exists. *)
Definition backup_inv (self : FileSync) (fs : gmap (list string) node)
    (st : FileSync * gmap (list string) node) : Prop :=
  same_settings self st.1 /\
  (forall k, st.2 !! (source_dir self ++ k) = fs !! (source_dir self ++ k)) /\
  preserved fs st.2.



(** ** Mirror brings a file up to date *)


(** ** Mirror spares what the exclusion rules name *)

(** The entries on the way down to [t] are as they are in [fsX]. *)
Definition chain_kept (fsX : gmap (list string) node) (t : list string)
    (st : FileSync * gmap (list string) node) : Prop :=
  forall q, q `prefix_of` t -> st.2 !! q = fsX !! q.

(** A source with one file, and a target holding a hidden file of its
    own below a directory of its own. *)
Definition fs_hidden_target : gmap (list string) node :=
  list_to_map
    [ (["src"], Dir);
      (["src"; "a.txt"], File (FileData "alpha" 5 true true));
      (["dst"], Dir);
      (["dst"; "old"], Dir);
      (["dst"; "old"; ".keep"], File (FileData "kept" 1 true true)) ].

(** ** Two-way sync: a file held by one side only *)



(** The two paths of the call of [copy_file] for an entry of the index. *)
Definition origin (src tgt : list string) (item : list string * file_info)
  : list string :=
  match info_source item.2 with
  | FromSource => src ++ item.1
  | FromTarget => tgt ++ item.1
  end.

Definition dest (src tgt : list string) (item : list string * file_info)
  : list string :=
  match info_source item.2 with
  | FromSource => tgt ++ item.1
  | FromTarget => src ++ item.1
  end.



(** An empty directory held by both sides, and a directory of the target
    alone that holds nothing but an empty directory. *)
Definition fs_nested_empty : gmap (list string) node :=
  list_to_map
    [ (["src"], Dir);
      (["src"; "e"], Dir);
      (["dst"], Dir);
      (["dst"; "e"], Dir);
      (["dst"; "a"], Dir);
      (["dst"; "a"; "b"], Dir) ].

(** ** Mirror is Backup followed by deletions *)

(** Two objects that differ in their logs only. *)
Definition same_run (s s' : FileSync) : Prop :=
  same_settings s s' /\ stats s' = stats s.

(** The three counters of [copy_file] that stand for a file dealt with
    without failure. *)
Definition transfers (s : Stats) : nat * nat * nat :=
  (copied s, updated s, skipped s).

(** ** Backup reaches a fixed point *)

(** The digest [get_file_hash] returns. *)
Definition file_hash (fs : gmap (list string) node) (p : list string)
  : option string :=
  match fs_node fs p with
  | Some (File f) => if readable f then Some (MD5.hexdigest (content f)) else None
  | _ => None
  end.

(** What [copy_file] does to the file system once the directories above
    the target are there: nothing when the digests agree, else the copy,
    which may fail. *)
Definition transfer (dry : bool) (fs1 : gmap (list string) node)
    (a b : list string) : gmap (list string) node :=
  if Path_exists fs1 b && bool_decide (file_hash fs1 a = file_hash fs1 b) then fs1
  else match (if dry then Some fs1 else copy2 fs1 a b) with
       | Some fs2 => fs2
       | None => fs1
       end.

(** What [copy_file] does to the file system. *)
Definition copy_fs (dry : bool) (fs : gmap (list string) node)
    (a b : list string) : gmap (list string) node :=
  match Path_mkdir fs (parent b) with
  | None => fs
  | Some fs1 => transfer dry fs1 a b
  end.

(** The file at the target of a call of [copy_file] needs no further
    call. *)
Definition settled (dry : bool) (fs : gmap (list string) node)
    (a b : list string) : Prop :=
  copy_fs dry fs a b = fs.

(** ** Saving the exclusion list *)

(** [str(path)] of an absolute path: a slash before every component, and
    a lone slash for the root. *)
Fixpoint slashed (p : list string) : string :=
  match p with
  | [] => EmptyString
  | c :: r => String "/" (c +:+ slashed r)
  end.

Definition str_of_path (p : list string) : string :=
  match p with
  | [] => "/"
  | _ => slashed p
  end.

(** One line for each path. *)
Fixpoint written_lines (ps : list (list string)) : string :=
  match ps with
  | [] => EmptyString
  | p :: r => str_of_path p +:+ String "010" (written_lines r)
  end.

(** The paths [f.write] gets through: the write of a path that does not
    encode in UTF-8 raises, and the paths after it are never written. *)
Fixpoint writable_prefix (ps : list (list string)) : list (list string) :=
  match ps with
  | [] => []
  | p :: r => if encodable p then p :: writable_prefix r else []
  end.

(** The text of the file: two comment lines, a blank line, the paths. *)
Definition exclusion_text (ps : list (list string)) : string :=
  "# 文件同步排除列表" +:+
  String "010" ("# 以#开头的行为注释" +:+
  String "010" (String "010" (written_lines ps))).

(** [open(file_path, 'w')] in working directory [cwd]: a directory cannot
    be opened for writing; an existing file must be writable, and keeps
    its permission bits; a missing file is created in its directory, which
    must exist, with the permission bits [mode_new] that the process gives
    to a new file.  The result is the path of the file and the permission
    bits it has once written. *)
Definition open_write (cwd : list string) (fs : gmap (list string) node)
    (file_path : string) (mode_new : bool * bool)
  : option (list string * (bool * bool)) :=
  match walk fs [] (Path_of_string cwd file_path) with
  | Some p =>
      match fs_node fs p with
      | Some Dir => None
      | Some (File g) => if writable g then Some (p, (readable g, true)) else None
      | None => if is_dir fs (parent p) then Some (p, mode_new) else None
      end
  | None => None
  end.

(** [save_exclusions_to_file(file_path)] at time [now].  Python does not
    say in which order it iterates over a set: [files] and [dirs] are the
    orders in which the run at hand goes through [excluded_files] and
    [excluded_dirs].  The file is truncated when it is opened; a write
    that fails ends the loop, the lines written so far stay in the file,
    and the exception is logged like the one of a failed [open]. *)
Definition save_exclusions_to_file (cwd : list string)
    (fs : gmap (list string) node) (self : FileSync) (file_path : string)
    (now : Z) (mode_new : bool * bool) (files dirs : list (list string))
  : FileSync * gmap (list string) node :=
  match open_write cwd fs file_path mode_new with
  | Some (p, (r, w)) =>
      let paths := files ++ dirs in
      (if forallb encodable paths then self
       else log (LogInfo "saving the exclusion list failed") self,
       <[p := File (FileData (exclusion_text (writable_prefix paths)) now r w)]> fs)
  | None => (log (LogInfo "saving the exclusion list failed") self, fs)
  end.

(** The characters of a name that survives the way through the file:
    the printable characters of ASCII but the slash (no blank, no control
    character, nothing above 126). *)
Definition plain_char (ch : ascii) : bool :=
  ((33 <=? nat_of_ascii ch) && (nat_of_ascii ch <=? 126))%nat
  && negb (Ascii.eqb ch "/").

(** Such a name: not empty, not [.] or [..], of plain characters, and no
    longer than the 255 bytes a file name may have. *)
Definition plain_name (c : string) : bool :=
  negb (String.eqb c "") && negb (String.eqb c ".") && negb (String.eqb c "..")
  && (String.length c <=? 255)%nat
  && forallb plain_char (list_ascii_of_string c).

(** A path the operating system takes as a whole: plain names, and a
    string shorter than the 4096 bytes a path may have. *)
Definition plain_path (p : list string) : Prop :=
  Forall (fun c => plain_name c = true) p /\
  (String.length (str_of_path p) < 4096)%nat.

(** What [add_exclusion] does with a path that resolves to itself. *)
Definition add_path (fs : gmap (list string) node) (self : FileSync)
    (p : list string) : FileSync :=
  if is_file fs p then with_excluded_files (fun s => s ∪ {[p]}) self
  else if is_dir fs p then with_excluded_dirs (fun s => s ∪ {[p]}) self
  else self.

(** An object that excludes the file [/src/a.txt] and the directory
    [/src]. *)
Definition excluding_two : FileSync :=
  with_excluded_files (fun s => s ∪ {[ ["src"; "a.txt"] ]})
    (with_excluded_dirs (fun s => s ∪ {[ ["src"] ]})
       (FileSync_init ["src"] ["dst"] "mirror" false)).

(** * Properties *)

(** The test vectors of RFC 1321, appendix A.5. *)
Example md5_empty : MD5.hexdigest "" = "d41d8cd98f00b204e9800998ecf8427e".
Proof. vm_compute. reflexivity. Qed.

Example md5_a : MD5.hexdigest "a" = "0cc175b9c0f1b6a831c399e269772661".
Proof. vm_compute. reflexivity. Qed.

Example md5_abc : MD5.hexdigest "abc" = "900150983cd24fb0d6963f7d28e17f72".
Proof. vm_compute. reflexivity. Qed.

Example md5_message_digest :
  MD5.hexdigest "message digest" = "f96b697d7cb7938d525a2f31aaf161d0".
Proof. vm_compute. reflexivity. Qed.

Example md5_two_blocks :
  MD5.hexdigest
    "12345678901234567890123456789012345678901234567890123456789012345678901234567890"
  = "57edf4a22be3c955ac49da2e2107b67a".
Proof. vm_compute. reflexivity. Qed.

(** ** Strings *)



(** ** The exclusion predicate *)

Lemma should_exclude_unfold self p :
  should_exclude self p =
    startswith (name p) "." || startswith (name p) "~"
    || endswith (name p) ".tmp" || endswith (name p) ".log"
    || bool_decide (name p ∈ tooling_denylist)
    || bool_decide (p ∈ excluded_files self)
    || bool_decide (p ∈ excluded_dirs self).
Proof.
  unfold should_exclude, tooling_denylist.
  repeat (match goal with |- context [if ?b then _ else _] => destruct b end;
          simpl; try reflexivity).
Qed.



(** ** The exclusion list *)

(** C10: a path string that names no existing file or directory leaves
    the object as it is when passed to [add_exclusion], so neither
    [excluded_files] nor [excluded_dirs] grows and [should_exclude]
    answers for every path as it did before.  This is so for every
    string the method is called with, the lines that
    [load_exclusions_from_file] passes on included. *)
Theorem add_exclusion_missing_path (cwd : list string)
    (fs : gmap (list string) node) (self : FileSync) (path : string) :
  exists_at cwd fs path = false ->
  add_exclusion cwd fs self path = self /\
  forall p, should_exclude (add_exclusion cwd fs self path) p
            = should_exclude self p.
Proof.
  intros H.
  assert (Hadd : add_exclusion cwd fs self path = self).
  { unfold exists_at, add_exclusion in *.
    destruct (walk fs [] (Path_of_string cwd path)) as [q|]; [|done].
    unfold Path_exists, is_file, is_dir in *.
    by destruct (fs_node fs q). }
  split; [exact Hadd | intros p; by rewrite Hadd].
Qed.

Lemma add_exclusion_missing_path_witness :
  exists_at ["cfg"] fs_with_exclusion_file "/src/gone.txt" = false /\
  add_exclusion ["cfg"] fs_with_exclusion_file
    (FileSync_init ["src"] ["dst"] "mirror" false) "/src/gone.txt"
  = FileSync_init ["src"] ["dst"] "mirror" false.
Proof.
  split; [vm_compute; reflexivity|].
  refine (proj1 (add_exclusion_missing_path ["cfg"] fs_with_exclusion_file
                   (FileSync_init ["src"] ["dst"] "mirror" false)
                   "/src/gone.txt" _)).
  vm_compute; reflexivity.
Defined.

(** ** File system calls *)

Lemma fs_node_file fs p f :
  fs_node fs p = Some (File f) -> p <> [] /\ fs !! p = Some (File f).
Proof. destruct p; [discriminate | done]. Qed.

Lemma fs_node_insert_eq fs p n : p <> [] -> fs_node (<[p := n]> fs) p = Some n.
Proof. destruct p; [done|]. intros _. apply lookup_insert_eq. Qed.

Lemma Path_mkdir_rev_existing fs rp :
  is_dir fs (rev rp) = true -> Path_mkdir_rev fs rp = Some fs.
Proof.
  unfold is_dir. intros H.
  destruct (fs_node fs (rev rp)) as [[]|] eqn:Hn; try discriminate.
  destruct rp; cbn [Path_mkdir_rev]; unfold os_mkdir, is_dir; by rewrite Hn.
Qed.

(** Making a directory that is there already changes nothing. *)
Lemma Path_mkdir_existing fs p : is_dir fs p = true -> Path_mkdir fs p = Some fs.
Proof.
  intros H. unfold Path_mkdir. apply Path_mkdir_rev_existing.
  by rewrite rev_involutive.
Qed.

(** ** [copy_file] on a pair of regular files *)

(** What [copy_file] does when both paths are readable regular files:
    the digests alone decide. *)
Lemma copy_file_pair self fs s t fsrc ftgt :
  fs_node fs s = Some (File fsrc) ->
  fs_node fs t = Some (File ftgt) ->
  is_dir fs (parent t) = true ->
  readable fsrc = true -> readable ftgt = true ->
  copy_file self fs s t =
    if bool_decide (MD5.hexdigest (content fsrc) = MD5.hexdigest (content ftgt))
    then (log (LogSkipped s) (with_stats incr_skipped self), fs)
    else if dry_run self
    then (log (LogUpdated s t) (with_stats incr_updated self), fs)
    else if writable ftgt
    then (log (LogUpdated s t) (with_stats incr_updated self), <[t := File fsrc]> fs)
    else (log (LogCopyFailed s) (with_stats incr_errors self), fs).
Proof.
  intros Hs Ht Hpar Hrs Hrt. unfold copy_file.
  rewrite (Path_mkdir_existing _ _ Hpar).
  unfold Path_exists at 1. rewrite Ht.
  unfold get_file_hash. rewrite Hs, Ht, Hrs, Hrt.
  case_bool_decide as Hd.
  - rewrite bool_decide_true; [done | congruence].
  - rewrite bool_decide_false; [|congruence].
    destruct (dry_run self) eqn:Hdry.
    + unfold Path_exists. by rewrite Ht.
    + unfold copy2, is_dir, Path_exists. rewrite Ht, Hs. cbn [andb].
      rewrite bool_decide_false; [|intros ->; congruence].
      rewrite Hrs, Ht. destruct (writable ftgt); [|done].
      destruct (fs_node_file _ _ _ Ht) as [Hne _].
      by rewrite fs_node_insert_eq.
Qed.




(** C4: when the files at one relative path hold the same bytes and both
    digests are computed, the decision is Skip and nothing is written,
    whatever the two modification times are.  This is so for the step of
    Mirror and Backup, and for the step of TwoWay in whichever direction
    the index points. *)
Theorem identical_bytes_are_skipped (self : FileSync)
    (fs : gmap (list string) node) (rel : list string) (fsrc ftgt : file_data) :
  let s := source_dir self ++ rel in
  let t := target_dir self ++ rel in
  fs_node fs s = Some (File fsrc) ->
  fs_node fs t = Some (File ftgt) ->
  is_dir fs (parent s) = true -> is_dir fs (parent t) = true ->
  readable fsrc = true -> readable ftgt = true ->
  content fsrc = content ftgt ->
  (should_exclude self s = false ->
     push_entry (self, fs) s
     = (log (LogSkipped s) (with_stats incr_skipped self), fs)) /\
  (forall info,
     settle_entry (self, fs) (rel, info)
     = match info_source info with
       | FromSource => (log (LogSkipped s) (with_stats incr_skipped self), fs)
       | FromTarget => (log (LogSkipped t) (with_stats incr_skipped self), fs)
       end).
Proof.
  intros s t Hs Ht Hps Hpt Hrs Hrt Hc.
  assert (Hst : copy_file self fs s t
                = (log (LogSkipped s) (with_stats incr_skipped self), fs)).
  { rewrite (copy_file_pair _ _ _ _ _ _ Hs Ht Hpt Hrs Hrt).
    rewrite bool_decide_true; [done | by rewrite Hc]. }
  assert (Hts : copy_file self fs t s
                = (log (LogSkipped t) (with_stats incr_skipped self), fs)).
  { rewrite (copy_file_pair _ _ _ _ _ _ Ht Hs Hps Hrt Hrs).
    rewrite bool_decide_true; [done | by rewrite Hc]. }
  split.
  - intros Hex. unfold push_entry. rewrite Hex.
    unfold is_file. rewrite Hs. subst s. unfold relative_to.
    by rewrite drop_app_length.
  - intros info. unfold settle_entry. by destruct (info_source info).
Qed.

Lemma identical_bytes_are_skipped_witness :
  push_entry (FileSync_init ["src"] ["dst"] "backup" false, fs_same_bytes)
             ["src"; "a.txt"]
  = (log (LogSkipped ["src"; "a.txt"])
         (with_stats incr_skipped (FileSync_init ["src"] ["dst"] "backup" false)),
     fs_same_bytes).
Proof.
  refine (proj1 (identical_bytes_are_skipped
                   (FileSync_init ["src"] ["dst"] "backup" false) fs_same_bytes
                   ["a.txt"]
                   (FileData "same bytes" 9 true true)
                   (FileData "same bytes" 2 true true)
                   _ _ _ _ _ _ _) _); vm_compute; reflexivity.
Defined.

(** C7, at the failing input: both digests fail, [None == None] holds,
    and the run logs the pair as identical and skips it. *)
Lemma both_digests_fail_is_skip :
  let o := run_sync (FileSync_init ["src"] ["dst"] "mirror" false)
                    fs_unreadable_pair in
  plan_of (final_self o) = [(Skip, ["src"; "a.txt"])] /\
  stats (final_self o) = mkStats 0 0 0 1 0 /\
  LogHashFailed ["src"; "a.txt"] ∈ log_file (final_self o) /\
  LogHashFailed ["dst"; "a.txt"] ∈ log_file (final_self o) /\
  final_fs o = fs_unreadable_pair.
Proof.
  cbv zeta. split; [vm_compute; reflexivity|]. split; [vm_compute; reflexivity|].
  split; [|split].
  - decide_by_evaluation.
  - decide_by_evaluation.
  - decide_by_evaluation.
Qed.

Lemma preserved_refl fs : preserved fs fs.
Proof. intros p n H. by exists n. Qed.

Lemma preserved_trans fs1 fs2 fs3 :
  preserved fs1 fs2 -> preserved fs2 fs3 -> preserved fs1 fs3.
Proof.
  intros H12 H23 p n H. destruct (H12 p n H) as (n2 & H2 & K2).
  destruct (H23 p n2 H2) as (n3 & H3 & K3). exists n3. split; [done | congruence].
Qed.

Lemma preserved_insert fs p n :
  (forall n0, fs !! p = Some n0 -> node_kind n0 = node_kind n) ->
  preserved fs (<[p := n]> fs).
Proof.
  intros Hk q m Hq. destruct (decide (p = q)) as [->|Hne].
  - exists n. rewrite lookup_insert_eq. split; [done|]. symmetry. by apply Hk.
  - exists m. by rewrite lookup_insert_ne.
Qed.

Lemma fs_node_None fs p : fs_node fs p = None -> fs !! p = None.
Proof. destruct p; [discriminate | done]. Qed.

Lemma os_mkdir_preserved fs p fs' : os_mkdir fs p = Created fs' -> preserved fs fs'.
Proof.
  unfold os_mkdir. destruct (fs_node fs p) eqn:Hp; [discriminate|].
  destruct (fs_node fs (parent p)) as [[]|]; try discriminate.
  intros [= <-]. apply preserved_insert. intros n0 H.
  apply fs_node_None in Hp. congruence.
Qed.

Lemma Path_mkdir_rev_preserved rp : forall fs fs',
  Path_mkdir_rev fs rp = Some fs' -> preserved fs fs'.
Proof.
  induction rp as [|c rp IH]; intros fs fs'; cbn [Path_mkdir_rev].
  - destruct (os_mkdir fs (rev [])) eqn:Hm; try discriminate;
      first [ intros [= <-]; by eapply os_mkdir_preserved
            | destruct (is_dir fs (rev [])); [|discriminate];
              intros [= <-]; apply preserved_refl ].
  - destruct (os_mkdir fs (rev (c :: rp))) eqn:Hm.
    + intros [= <-]. by eapply os_mkdir_preserved.
    + destruct (is_dir fs (rev (c :: rp))); [|discriminate].
      intros [= <-]. apply preserved_refl.
    + destruct (Path_mkdir_rev fs rp) as [fs1|] eqn:H1; [|discriminate].
      specialize (IH _ _ H1).
      destruct (os_mkdir fs1 (rev (c :: rp))) eqn:Hm1; try discriminate.
      * intros [= <-]. eapply preserved_trans; [exact IH|].
        by eapply os_mkdir_preserved.
      * destruct (is_dir fs1 (rev (c :: rp))); [|discriminate]. by intros [= <-].
      * destruct (is_dir fs1 (rev (c :: rp))); [|discriminate]. by intros [= <-].
    + destruct (is_dir fs (rev (c :: rp))); [|discriminate].
      intros [= <-]. apply preserved_refl.
Qed.

Lemma Path_mkdir_preserved fs p fs' : Path_mkdir fs p = Some fs' -> preserved fs fs'.
Proof. apply Path_mkdir_rev_preserved. Qed.

Lemma copy2_preserved fs s t fs' : copy2 fs s t = Some fs' -> preserved fs fs'.
Proof.
  unfold copy2.
  set (dst := if is_dir fs t then t ++ [name s] else t).
  destruct (Path_exists fs s && bool_decide (s = dst)); [discriminate|].
  destruct (fs_node fs s) as [[f|]|]; try discriminate.
  destruct (readable f); [|discriminate].
  destruct (fs_node fs dst) as [[g|]|] eqn:Hd; try discriminate.
  - destruct (writable g); [|discriminate]. intros [= <-].
    apply preserved_insert. intros n0 H.
    apply fs_node_file in Hd as [_ Hd]. by replace n0 with (File g) by congruence.
  - destruct (is_dir fs (parent dst)); [|discriminate]. intros [= <-].
    apply preserved_insert. intros n0 H. apply fs_node_None in Hd. congruence.
Qed.

Lemma deletions_log e self :
  deletions (log e self)
  = deletions self ++ match plan_item e with
                      | Some (Delete, p) => [p]
                      | _ => []
                      end.
Proof.
  unfold deletions, log. cbn [log_file]. rewrite omap_app. f_equal.
  destruct (plan_item e) as [[[] ?]|] eqn:He; cbn; by rewrite He.
Qed.

Lemma get_file_hash_self self fs p :
  (get_file_hash self fs p).2 = self \/
  (get_file_hash self fs p).2 = log (LogHashFailed p) self.
Proof.
  unfold get_file_hash. destruct (fs_node fs p) as [[f|]|]; auto.
  destruct (readable f); auto.
Qed.

Lemma get_file_hash_keeps self fs p :
  let self' := (get_file_hash self fs p).2 in
  stats self' = stats self /\ deletions self' = deletions self /\
  dry_run self' = dry_run self /\ source_dir self' = source_dir self /\
  target_dir self' = target_dir self /\
  excluded_files self' = excluded_files self /\
  excluded_dirs self' = excluded_dirs self.
Proof.
  cbv zeta. destruct (get_file_hash_self self fs p) as [-> | ->]; [done|].
  rewrite deletions_log. cbn. by rewrite app_nil_r.
Qed.

Lemma copy_file_nothing_deleted self fs s t :
  nothing_deleted (self, fs) (copy_file self fs s t).
Proof.
  unfold copy_file, nothing_deleted.
  destruct (Path_mkdir fs (parent t)) as [fs1|] eqn:Hmk; cbn [fst snd].
  { pose proof (Path_mkdir_preserved _ _ _ Hmk) as Hp1.
    destruct (Path_exists fs1 t).
    - destruct (get_file_hash self fs1 s) as [h1 self1] eqn:H1.
      destruct (get_file_hash self1 fs1 t) as [h2 self2] eqn:H2.
      pose proof (get_file_hash_keeps self fs1 s) as K1. rewrite H1 in K1.
      pose proof (get_file_hash_keeps self1 fs1 t) as K2. rewrite H2 in K2.
      cbn in K1, K2. destruct K1 as (S1 & D1 & _), K2 as (S2 & D2 & _).
      assert (Hst : stats self2 = stats self) by congruence.
      assert (Hde : deletions self2 = deletions self) by congruence.
      destruct (bool_decide (h1 = h2)); cbn [fst snd].
      + rewrite deletions_log, app_nil_r. cbn. by rewrite Hst.
      + destruct (if dry_run self2 then Some fs1 else copy2 fs1 s t)
          as [fs2|] eqn:Hc; cbn [fst snd].
        * assert (preserved fs1 fs2) as Hp2.
          { destruct (dry_run self2); [injection Hc as <-; apply preserved_refl|].
            by eapply copy2_preserved. }
          destruct (Path_exists fs2 t); cbn [fst snd];
            rewrite deletions_log, app_nil_r; cbn; rewrite Hst;
            (split; [done|]; split; [done|]; by eapply preserved_trans).
        * rewrite deletions_log, app_nil_r. cbn. by rewrite Hst.
    - destruct (if dry_run self then Some fs1 else copy2 fs1 s t)
        as [fs2|] eqn:Hc; cbn [fst snd].
      + assert (preserved fs1 fs2) as Hp2.
        { destruct (dry_run self); [injection Hc as <-; apply preserved_refl|].
          by eapply copy2_preserved. }
        destruct (Path_exists fs2 t); cbn [fst snd];
          rewrite deletions_log, app_nil_r; cbn;
          (split; [done|]; split; [done|]; by eapply preserved_trans).
      + rewrite deletions_log, app_nil_r. by cbn. }
  rewrite deletions_log, app_nil_r. cbn. split; [done|]. split; [done|].
  apply preserved_refl.
Qed.

Lemma nothing_deleted_refl st : nothing_deleted st st.
Proof. split; [done|]. split; [done|]. apply preserved_refl. Qed.

Lemma nothing_deleted_trans st1 st2 st3 :
  nothing_deleted st1 st2 -> nothing_deleted st2 st3 -> nothing_deleted st1 st3.
Proof.
  intros (A1 & B1 & C1) (A2 & B2 & C2). split; [congruence|].
  split; [congruence|]. by eapply preserved_trans.
Qed.

Lemma push_entry_nothing_deleted st p : nothing_deleted st (push_entry st p).
Proof.
  destruct st as [self fs]. unfold push_entry.
  destruct (should_exclude self p); [apply nothing_deleted_refl|].
  destruct (is_file fs p); [|apply nothing_deleted_refl].
  apply copy_file_nothing_deleted.
Qed.

Lemma push_loop_nothing_deleted l : forall st,
  nothing_deleted st (foldl push_entry st l).
Proof.
  induction l as [|p l IH]; intros st; cbn [foldl].
  - apply nothing_deleted_refl.
  - eapply nothing_deleted_trans; [apply push_entry_nothing_deleted | apply IH].
Qed.

(** C5: a Backup run deletes nothing.  After any number of iterations of
    its loop, and so at its end, the [deleted] counter has the value it
    had at the start (zero for a fresh object), the log records no
    deletion that it did not record before, and every file and directory
    of the file system is still there, a file as a file and a directory
    as a directory. *)
Theorem backup_never_deletes (self : FileSync) (fs : gmap (list string) node) :
  (forall entries,
     nothing_deleted (self, fs) (foldl push_entry (self, fs) entries)) /\
  (let o := backup_sync self fs in
   deleted (stats (final_self o)) = deleted (stats self) /\
   deletions (final_self o) = deletions self /\
   forall p n, fs !! p = Some n ->
     exists n', final_fs o !! p = Some n' /\ node_kind n' = node_kind n) /\
  (forall source target dry,
     let o := backup_sync (FileSync_init source target "backup" dry) fs in
     deleted (stats (final_self o)) = 0 /\ deletions (final_self o) = []).
Proof.
  assert (H : forall self0,
    nothing_deleted (self0, fs)
      (final_self (backup_sync self0 fs), final_fs (backup_sync self0 fs))).
  { intros self0. unfold backup_sync.
    set (self1 := log (LogInfo "backup sync started") self0).
    assert (H0 : nothing_deleted (self0, fs) (self1, fs)).
    { split; [done|]. split; [|apply preserved_refl].
      subst self1. cbn [fst]. by rewrite deletions_log, app_nil_r. }
    destruct (Path_mkdir fs (target_dir self1)) as [fs1|] eqn:Hmk;
      cbn [final_self final_fs]; [|done].
    eapply nothing_deleted_trans; [exact H0|].
    apply (nothing_deleted_trans _ (self1, fs1)).
    - split; [done|]. split; [done|]. by eapply Path_mkdir_preserved.
    - destruct (foldl push_entry (self1, fs1) (rglob fs1 (source_dir self1)))
        as [self2 fs2] eqn:Hf. cbn [fst snd]. rewrite <- Hf.
      apply push_loop_nothing_deleted. }
  split; [intros entries; apply push_loop_nothing_deleted|]. split.
  - destruct (H self) as (A & B & C). done.
  - intros source target dry. destruct (H (FileSync_init source target "backup" dry))
      as (A & B & _). done.
Qed.

Lemma backup_never_deletes_witness :
  exists n',
    final_fs (backup_sync (FileSync_init ["src"] ["dst"] "backup" false) fs_backup)
      !! ["dst"; "keep"; "old.txt"] = Some n' /\
    node_kind n' = KFile.
Proof.
  refine (proj2 (proj2 (proj1 (proj2
            (backup_never_deletes
               (FileSync_init ["src"] ["dst"] "backup" false) fs_backup))))
          ["dst"; "keep"; "old.txt"]
          (File (FileData "only here" 1 true true)) _).
  vm_compute. reflexivity.
Defined.

(** ** Two-way sync: the index *)



Lemma below_spec root q :
  below root q = true <-> exists rel, rel <> [] /\ q = root ++ rel.
Proof.
  unfold below. rewrite andb_true_iff, negb_true_iff,
    bool_decide_eq_true, bool_decide_eq_false. split.
  - intros [[rel ->] Hne]. exists rel. split; [|done].
    intros ->. by rewrite app_nil_r in Hne.
  - intros (rel & Hne & ->). split; [by exists rel|].
    intros H. apply Hne. rewrite <- (app_nil_r root) in H at 2.
    by apply app_inv_head in H.
Qed.

Lemma elem_of_rglob fs root q :
  q ∈ rglob fs root <->
  is_dir fs root = true /\ is_Some (fs !! q) /\ below root q = true.
Proof.
  unfold rglob. destruct (is_dir fs root).
  - rewrite list_elem_of_In, filter_In, <- list_elem_of_In, list_elem_of_fmap.
    split.
    + intros [([q' n] & -> & Hin) Hb]. apply elem_of_map_to_list in Hin.
      split; [done|]. split; [by exists n | done].
    + intros (_ & [n Hn] & Hb). split; [|done]. exists (q, n).
      split; [done|]. by apply elem_of_map_to_list.
  - split; [by intros ?%elem_of_nil | by intros [? _]].
Qed.

Lemma relative_to_app root rel : relative_to (root ++ rel) root = rel.
Proof. unfold relative_to. apply drop_app_length. Qed.



Lemma rglob_below fs root : Forall (fun q => below root q = true) (rglob fs root).
Proof. apply Forall_forall. intros q Hq. by apply elem_of_rglob in Hq as (_ & _ & ?). Qed.


(** ** What a call of [copy_file] may write *)

Lemma os_mkdir_subseteq fs p fs' : os_mkdir fs p = Created fs' -> fs ⊆ fs'.
Proof.
  unfold os_mkdir. destruct (fs_node fs p) eqn:Hp; [discriminate|].
  destruct (fs_node fs (parent p)) as [[]|]; try discriminate.
  intros [= <-]. apply insert_subseteq. by apply fs_node_None.
Qed.

Lemma Path_mkdir_rev_subseteq rp : forall fs fs',
  Path_mkdir_rev fs rp = Some fs' -> fs ⊆ fs'.
Proof.
  induction rp as [|c rp IH]; intros fs fs'; cbn [Path_mkdir_rev].
  - destruct (os_mkdir fs (rev [])) eqn:Hm; try discriminate;
      first [ intros [= <-]; by eapply os_mkdir_subseteq
            | destruct (is_dir fs (rev [])); [|discriminate];
              by intros [= <-] ].
  - destruct (os_mkdir fs (rev (c :: rp))) eqn:Hm.
    + intros [= <-]. by eapply os_mkdir_subseteq.
    + destruct (is_dir fs (rev (c :: rp))); [|discriminate]. by intros [= <-].
    + destruct (Path_mkdir_rev fs rp) as [fs1|] eqn:H1; [|discriminate].
      specialize (IH _ _ H1).
      destruct (os_mkdir fs1 (rev (c :: rp))) eqn:Hm1; try discriminate.
      * intros [= <-]. etrans; [exact IH|]. by eapply os_mkdir_subseteq.
      * destruct (is_dir fs1 (rev (c :: rp))); [|discriminate]. by intros [= <-].
      * destruct (is_dir fs1 (rev (c :: rp))); [|discriminate]. by intros [= <-].
    + destruct (is_dir fs (rev (c :: rp))); [|discriminate]. by intros [= <-].
Qed.

(** [Path.mkdir] only adds entries. *)
Lemma Path_mkdir_subseteq fs p fs' : Path_mkdir fs p = Some fs' -> fs ⊆ fs'.
Proof. apply Path_mkdir_rev_subseteq. Qed.

(** [copy2] writes one entry: the destination, or the base name of the
    source below it. *)
Lemma copy2_writes fs a b fs' :
  copy2 fs a b = Some fs' ->
  exists f, fs' = <[b := File f]> fs \/ fs' = <[b ++ [name a] := File f]> fs.
Proof.
  unfold copy2. destruct (is_dir fs b).
  - destruct (Path_exists fs a && bool_decide (a = b ++ [name a])); [discriminate|].
    destruct (fs_node fs a) as [[f|]|]; try discriminate.
    destruct (readable f); [|discriminate].
    destruct (fs_node fs (b ++ [name a])) as [[g|]|]; try discriminate.
    + destruct (writable g); [|discriminate]. intros [= <-]. exists f. by right.
    + destruct (is_dir fs (parent (b ++ [name a]))); [|discriminate].
      intros [= <-]. exists f. by right.
  - destruct (Path_exists fs a && bool_decide (a = b)); [discriminate|].
    destruct (fs_node fs a) as [[f|]|]; try discriminate.
    destruct (readable f); [|discriminate].
    destruct (fs_node fs b) as [[g|]|]; try discriminate.
    + destruct (writable g); [|discriminate]. intros [= <-]. exists f. by left.
    + destruct (is_dir fs (parent b)); [|discriminate].
      intros [= <-]. exists f. by left.
Qed.

(** An existing entry other than the destination and the base name of the
    source below it is left as it is. *)
Lemma copy_file_frame self fs a b q n :
  fs !! q = Some n -> q <> b -> q <> b ++ [name a] ->
  (copy_file self fs a b).2 !! q = Some n.
Proof.
  intros Hq Hb Hba. unfold copy_file.
  destruct (Path_mkdir fs (parent b)) as [fs1|] eqn:Hmk; cbn [snd]; [|done].
  pose proof (Path_mkdir_subseteq _ _ _ Hmk) as Hsub.
  assert (Hq1 : fs1 !! q = Some n) by (by eapply lookup_weaken).
  assert (Hcopy : forall (d : bool) (fs2 : gmap (list string) node),
            (if d then Some fs1 else copy2 fs1 a b) = Some fs2 ->
            fs2 !! q = Some n).
  { intros [] fs2 Hc; [by injection Hc as <-|].
    apply copy2_writes in Hc as (f & [-> | ->]); by rewrite lookup_insert_ne. }
  destruct (Path_exists fs1 b).
  - destruct (get_file_hash self fs1 a) as [h1 self1].
    destruct (get_file_hash self1 fs1 b) as [h2 self2].
    destruct (bool_decide (h1 = h2)); cbn [snd]; [done|].
    destruct (if dry_run self2 then Some fs1 else copy2 fs1 a b)
      as [fs2|] eqn:Hc; cbn [snd]; [|done].
    specialize (Hcopy _ _ Hc). by destruct (Path_exists fs2 b).
  - destruct (if dry_run self then Some fs1 else copy2 fs1 a b)
      as [fs2|] eqn:Hc; cbn [snd]; [|done].
    specialize (Hcopy _ _ Hc). by destruct (Path_exists fs2 b).
Qed.

(** [copy_file] changes the counters and the log only. *)
Lemma copy_file_config self fs a b :
  let self' := (copy_file self fs a b).1 in
  source_dir self' = source_dir self /\ target_dir self' = target_dir self /\
  dry_run self' = dry_run self.
Proof.
  cbv zeta. unfold copy_file.
  destruct (Path_mkdir fs (parent b)) as [fs1|]; cbn [fst]; [|done].
  destruct (Path_exists fs1 b).
  - pose proof (get_file_hash_keeps self fs1 a) as K1.
    destruct (get_file_hash self fs1 a) as [h1 self1].
    pose proof (get_file_hash_keeps self1 fs1 b) as K2.
    destruct (get_file_hash self1 fs1 b) as [h2 self2].
    cbn in K1, K2.
    destruct K1 as (_ & _ & D1 & S1 & T1 & _), K2 as (_ & _ & D2 & S2 & T2 & _).
    assert (source_dir self2 = source_dir self /\
            target_dir self2 = target_dir self /\
            dry_run self2 = dry_run self) as HH
      by (repeat split; congruence).
    destruct (bool_decide (h1 = h2)); cbn [fst]; [done|].
    destruct (if dry_run self2 then Some fs1 else copy2 fs1 a b) as [fs2|];
      cbn [fst]; [|done].
    by destruct (Path_exists fs2 b).
  - destruct (if dry_run self then Some fs1 else copy2 fs1 a b) as [fs2|];
      cbn [fst]; [|done].
    by destruct (Path_exists fs2 b).
Qed.








Lemma settle_entry_config st item :
  source_dir (settle_entry st item).1 = source_dir st.1 /\
  target_dir (settle_entry st item).1 = target_dir st.1 /\
  dry_run (settle_entry st item).1 = dry_run st.1.
Proof.
  destruct st as [self fs], item as [k info]. unfold settle_entry. cbn [fst].
  destruct (info_source info); apply copy_file_config.
Qed.





Lemma is_file_not_dir fs p : is_file fs p = true -> is_dir fs p = true -> False.
Proof. unfold is_file, is_dir. by destruct (fs_node fs p) as [[]|]. Qed.


Lemma is_dir_preserved fs fs' p :
  preserved fs fs' -> is_dir fs p = true -> is_dir fs' p = true.
Proof.
  intros Hp. unfold is_dir. destruct p as [|c p]; [done|]. cbn [fs_node].
  destruct (fs !! (c :: p)) as [[]|] eqn:E; try discriminate. intros _.
  destruct (Hp _ _ E) as (n' & -> & Hk). by destruct n'.
Qed.

Lemma fs_node_lookup (fs : gmap (list string) node) p :
  p <> [] -> fs_node fs p = fs !! p.
Proof. by destruct p. Qed.


(** C1, at the failing input: over the same starting trees the dry run
    counts the two new files under [copied] and the real run counts them
    under [updated], and the dry run leaves a new directory behind in the
    target. *)
Lemma dry_run_differs_from_real_run :
  let dry := run_sync (FileSync_init ["src"] ["dst"] "mirror" true) fs_new_files in
  let real := run_sync (FileSync_init ["src"] ["dst"] "mirror" false) fs_new_files in
  stats (final_self dry) = mkStats 2 0 0 0 0 /\
  stats (final_self real) = mkStats 0 2 0 0 0 /\
  fs_new_files !! ["dst"; "sub"] = None /\
  final_fs dry !! ["dst"; "sub"] = Some Dir.
Proof. cbv zeta. repeat split; vm_compute; reflexivity. Qed.

(** C2, at the failing input: the Mirror run creates both files in the
    target and records each as an Update; [copied] stays at zero. *)
Lemma mirror_counts_new_files_as_updated :
  let o := run_sync (FileSync_init ["src"] ["dst"] "mirror" false) fs_two_files in
  stats (final_self o) = mkStats 0 2 0 0 0 /\
  Permutation (plan_of (final_self o))
              [(Update, ["src"; "a.txt"]); (Update, ["src"; "b.txt"])] /\
  final_fs o !! ["dst"; "a.txt"] = Some (File (FileData "0123456789" 5 true true)) /\
  final_fs o !! ["dst"; "b.txt"] = Some (File (FileData "bravo" 6 true true)).
Proof.
  cbv zeta. split; [vm_compute; reflexivity|]. split; [decide_by_evaluation|].
  split; vm_compute; reflexivity.
Qed.

(** C9, at the failing input: [shutil.copy2] copies the file into the
    directory of the same name, the second loop deletes that copy again
    because the source has no [a/a], and the run ends in the state it
    started from; the second Mirror run therefore repeats the Update and
    the Delete instead of skipping. *)
Lemma mirror_twice_repeats_update_and_delete :
  let first := run_sync (FileSync_init ["src"] ["dst"] "mirror" false)
                        fs_file_against_dir in
  let second := run_sync (FileSync_init ["src"] ["dst"] "mirror" false)
                         (final_fs first) in
  final_fs first = fs_file_against_dir /\
  stats (final_self second) = mkStats 0 1 1 0 0 /\
  plan_of (final_self second)
    = [(Update, ["src"; "a"]); (Delete, ["dst"; "a"; "a"])].
Proof.
  cbv zeta. split; [decide_by_evaluation|]. split; vm_compute; reflexivity.
Qed.



Lemma parent_prefix p : parent p `prefix_of` p.
Proof.
  unfold parent. destruct (decide (p = [])) as [->|Hne]; [done|].
  destruct (exists_last Hne) as (l & x & ->).
  rewrite removelast_last. by exists [x].
Qed.

Lemma os_mkdir_outside fs p fs' q :
  os_mkdir fs p = Created fs' -> q <> p -> fs' !! q = fs !! q.
Proof.
  unfold os_mkdir. destruct (fs_node fs p); [discriminate|].
  destruct (fs_node fs (parent p)) as [[]|]; try discriminate.
  intros [= <-] Hne. by rewrite lookup_insert_ne.
Qed.

Lemma prefix_snoc_rev (q : list string) rp c :
  ~ q `prefix_of` rev (c :: rp) -> ~ q `prefix_of` rev rp /\ q <> rev (c :: rp).
Proof.
  cbn [rev]. intros H. split.
  - intros Hp. apply H. by apply prefix_app_r.
  - intros ->. by apply H.
Qed.

Lemma Path_mkdir_rev_outside rp : forall fs fs' q,
  Path_mkdir_rev fs rp = Some fs' -> ~ q `prefix_of` rev rp ->
  fs' !! q = fs !! q.
Proof.
  induction rp as [|c rp IH]; intros fs fs' q; cbn [Path_mkdir_rev].
  - destruct (os_mkdir fs (rev [])) eqn:Hm; try discriminate;
      first [ intros [= <-] Hq; eapply os_mkdir_outside; [exact Hm|];
              intros ->; by apply Hq
            | destruct (is_dir fs (rev [])); [|discriminate];
              by intros [= <-] ].
  - intros H Hq. destruct (prefix_snoc_rev _ _ _ Hq) as [Hq1 Hq2].
    destruct (os_mkdir fs (rev (c :: rp))) eqn:Hm.
    + injection H as <-. by eapply os_mkdir_outside.
    + destruct (is_dir fs (rev (c :: rp))); [|discriminate]. by injection H as <-.
    + destruct (Path_mkdir_rev fs rp) as [fs1|] eqn:H1; [|discriminate].
      rewrite <- (IH _ _ q H1 Hq1).
      destruct (os_mkdir fs1 (rev (c :: rp))) eqn:Hm1; try discriminate.
      * injection H as <-. by eapply os_mkdir_outside.
      * destruct (is_dir fs1 (rev (c :: rp))); [|discriminate]. by injection H as <-.
      * destruct (is_dir fs1 (rev (c :: rp))); [|discriminate]. by injection H as <-.
    + destruct (is_dir fs (rev (c :: rp))); [|discriminate]. by injection H as <-.
Qed.

(** [Path.mkdir] touches the path and its ancestors only. *)
Lemma Path_mkdir_outside fs p fs' q :
  Path_mkdir fs p = Some fs' -> ~ q `prefix_of` p -> fs' !! q = fs !! q.
Proof.
  unfold Path_mkdir. intros H Hq. eapply Path_mkdir_rev_outside; [exact H|].
  by rewrite rev_involutive.
Qed.

(** [copy_file] touches the destination, its ancestors and the base name
    of the source below it, and nothing else. *)
Lemma copy_file_outside self fs a b q :
  ~ q `prefix_of` b -> q <> b ++ [name a] ->
  (copy_file self fs a b).2 !! q = fs !! q.
Proof.
  intros Hb Hba. unfold copy_file.
  destruct (Path_mkdir fs (parent b)) as [fs1|] eqn:Hmk; cbn [snd]; [|done].
  assert (Hq1 : fs1 !! q = fs !! q).
  { eapply Path_mkdir_outside; [exact Hmk|]. intros Hp. apply Hb.
    etrans; [exact Hp | apply parent_prefix]. }
  assert (Hqb : q <> b) by (intros ->; by apply Hb).
  assert (Hcopy : forall (d : bool) (fs2 : gmap (list string) node),
            (if d then Some fs1 else copy2 fs1 a b) = Some fs2 ->
            fs2 !! q = fs !! q).
  { intros [] fs2 Hc; [by injection Hc as <-|].
    apply copy2_writes in Hc as (f & [-> | ->]); by rewrite lookup_insert_ne. }
  destruct (Path_exists fs1 b).
  - destruct (get_file_hash self fs1 a) as [h1 self1].
    destruct (get_file_hash self1 fs1 b) as [h2 self2].
    destruct (bool_decide (h1 = h2)); cbn [snd]; [done|].
    destruct (if dry_run self2 then Some fs1 else copy2 fs1 a b)
      as [fs2|] eqn:Hc; cbn [snd]; [|done].
    specialize (Hcopy _ _ Hc). by destruct (Path_exists fs2 b).
  - destruct (if dry_run self then Some fs1 else copy2 fs1 a b)
      as [fs2|] eqn:Hc; cbn [snd]; [|done].
    specialize (Hcopy _ _ Hc). by destruct (Path_exists fs2 b).
Qed.

Lemma same_settings_refl self : same_settings self self.
Proof. by repeat split. Qed.

Lemma same_settings_trans s1 s2 s3 :
  same_settings s1 s2 -> same_settings s2 s3 -> same_settings s1 s3.
Proof.
  intros (A1 & B1 & C1 & D1 & E1 & F1) (A2 & B2 & C2 & D2 & E2 & F2).
  repeat split; congruence.
Qed.

Lemma same_settings_log e self : same_settings self (log e self).
Proof. by repeat split. Qed.

Lemma same_settings_stats f self : same_settings self (with_stats f self).
Proof. by repeat split. Qed.

Lemma get_file_hash_settings self fs p :
  same_settings self (get_file_hash self fs p).2.
Proof.
  destruct (get_file_hash_self self fs p) as [-> | ->];
    [apply same_settings_refl | apply same_settings_log].
Qed.

Lemma same_settings_exclude self self' p :
  same_settings self self' -> should_exclude self' p = should_exclude self p.
Proof.
  intros (_ & _ & _ & _ & E & F). unfold should_exclude. by rewrite E, F.
Qed.

Lemma copy_file_settings self fs a b :
  same_settings self (copy_file self fs a b).1.
Proof.
  unfold copy_file.
  destruct (Path_mkdir fs (parent b)) as [fs1|]; cbn [fst];
    [|eapply same_settings_trans;
        [apply same_settings_stats | apply same_settings_log]].
  assert (Hend : forall e f self1, same_settings self self1 ->
            same_settings self (log e (with_stats f self1))).
  { intros e f self1 H. eapply same_settings_trans; [exact H|].
    eapply same_settings_trans; [apply same_settings_stats | apply same_settings_log]. }
  destruct (Path_exists fs1 b).
  - pose proof (get_file_hash_settings self fs1 a) as K1.
    destruct (get_file_hash self fs1 a) as [h1 self1].
    pose proof (get_file_hash_settings self1 fs1 b) as K2.
    destruct (get_file_hash self1 fs1 b) as [h2 self2]. cbn [snd] in K1, K2.
    pose proof (same_settings_trans _ _ _ K1 K2) as K.
    destruct (bool_decide (h1 = h2)); cbn [fst]; [by apply Hend|].
    destruct (if dry_run self2 then Some fs1 else copy2 fs1 a b) as [fs2|];
      cbn [fst]; [|by apply Hend].
    destruct (Path_exists fs2 b); by apply Hend.
  - pose proof (same_settings_refl self) as K.
    destruct (if dry_run self then Some fs1 else copy2 fs1 a b) as [fs2|];
      cbn [fst]; [|by apply Hend].
    destruct (Path_exists fs2 b); by apply Hend.
Qed.

(** A step of a loop that keeps the settings and touches the line of
    [root] only keeps both through the whole loop. *)
Lemma loop_on_line (step : FileSync * gmap (list string) node -> list string ->
                          FileSync * gmap (list string) node)
    (root : list string) (good : list string -> Prop) :
  (forall st p q, good p -> target_dir st.1 = root -> ~ on_line root q ->
     same_settings st.1 (step st p).1 /\ (step st p).2 !! q = st.2 !! q) ->
  forall l st q, Forall good l -> target_dir st.1 = root -> ~ on_line root q ->
    same_settings st.1 (foldl step st l).1 /\
    (foldl step st l).2 !! q = st.2 !! q.
Proof.
  intros Hstep. induction l as [|p l IH]; intros st q Hall Ht Hq; cbn [foldl].
  - split; [apply same_settings_refl | done].
  - apply Forall_cons in Hall as [Hp Hall].
    destruct (Hstep st p q Hp Ht Hq) as [S1 F1].
    destruct (IH (step st p) q Hall) as [S2 F2]; [|done|].
    + destruct S1 as (_ & -> & _). done.
    + split; [by eapply same_settings_trans | congruence].
Qed.

Lemma off_line_app root k q : ~ on_line root q -> ~ q `prefix_of` root ++ k.
Proof.
  intros Hq Hp. apply Hq.
  destruct (prefix_weak_total q root (root ++ k)); [done | by exists k | |];
    [by left | by right].
Qed.

Lemma off_line_below root k q : ~ on_line root q -> q <> root ++ k.
Proof. intros Hq ->. apply Hq. right. by exists k. Qed.

Lemma push_entry_on_line st p q :
  ~ on_line (target_dir st.1) q ->
  same_settings st.1 (push_entry st p).1 /\ (push_entry st p).2 !! q = st.2 !! q.
Proof.
  destruct st as [self fs]. cbn [fst snd]. intros Hq. unfold push_entry.
  destruct (should_exclude self p); [split; [apply same_settings_refl | done]|].
  destruct (is_file fs p); [|split; [apply same_settings_refl | done]].
  split; [apply copy_file_settings|].
  apply copy_file_outside; [by apply off_line_app|].
  rewrite <- app_assoc. by apply off_line_below.
Qed.

Lemma unlink_spec fs p fs' : unlink fs p = Some fs' -> fs' = delete p fs.
Proof. unfold unlink. destruct (is_file fs p); [|discriminate]. by intros [= <-]. Qed.

Lemma rmtree_spec fs p fs' :
  rmtree fs p = Some fs' ->
  fs' = filter (fun kv => ~ p `prefix_of` kv.1) fs.
Proof. unfold rmtree. destruct (is_dir fs p); [|discriminate]. by intros [= <-]. Qed.

Lemma rmtree_lookup fs p fs' q :
  rmtree fs p = Some fs' ->
  fs' !! q = if decide (p `prefix_of` q) then None else fs !! q.
Proof.
  intros ->%rmtree_spec. destruct (decide (p `prefix_of` q)) as [Hp|Hp].
  - apply map_lookup_filter_None. right. intros n _. cbn. tauto.
  - destruct (fs !! q) as [n|] eqn:E.
    + apply map_lookup_filter_Some. by split.
    + apply map_lookup_filter_None. by left.
Qed.

Lemma prune_entry_on_line st p q :
  below (target_dir st.1) p = true -> ~ on_line (target_dir st.1) q ->
  same_settings st.1 (prune_entry st p).1 /\ (prune_entry st p).2 !! q = st.2 !! q.
Proof.
  destruct st as [self fs]. cbn [fst snd]. intros Hp Hq. unfold prune_entry.
  destruct (should_exclude self p); [split; [apply same_settings_refl | done]|].
  destruct (is_file fs p); [|split; [apply same_settings_refl | done]].
  destruct (negb _); [|split; [apply same_settings_refl | done]].
  unfold delete_file.
  destruct (if dry_run self then Some fs else unlink fs p) as [fs'|] eqn:Hd;
    cbn [fst snd];
    (split; [eapply same_settings_trans;
               [apply same_settings_stats | apply same_settings_log]|]);
    [|done].
  destruct (dry_run self); [by injection Hd as <-|].
  apply unlink_spec in Hd as ->. apply lookup_delete_ne.
  apply below_spec in Hp as (k & _ & ->). intros <-. apply Hq. right. by exists k.
Qed.

Lemma reap_entry_on_line st p q :
  below (target_dir st.1) p = true -> ~ on_line (target_dir st.1) q ->
  same_settings st.1 (reap_entry st p).1 /\ (reap_entry st p).2 !! q = st.2 !! q.
Proof.
  destruct st as [self fs]. cbn [fst snd]. intros Hp Hq. unfold reap_entry.
  destruct (is_dir fs p && negb (has_entries fs p));
    [|split; [apply same_settings_refl | done]].
  destruct (negb _); [|split; [apply same_settings_refl | done]].
  unfold delete_directory.
  destruct (if dry_run self then Some fs else rmtree fs p) as [fs'|] eqn:Hd;
    cbn [fst snd];
    (split; [eapply same_settings_trans;
               [apply same_settings_stats | apply same_settings_log]|]);
    [|done].
  destruct (dry_run self); [by injection Hd as <-|].
  rewrite (rmtree_lookup _ _ _ q Hd). rewrite decide_False; [done|].
  apply below_spec in Hp as (k & _ & ->). intros Hpre. apply Hq. right.
  etrans; [|exact Hpre]. by exists k.
Qed.

Lemma insert_desc_Permutation p l : Permutation (insert_desc p l) (p :: l).
Proof.
  induction l as [|q l IH]; cbn [insert_desc]; [done|].
  destruct (path_ltb p q); [|done].
  rewrite IH. apply perm_swap.
Qed.

(** Sorting keeps the elements. *)
Lemma sorted_reverse_Permutation l : Permutation (sorted_reverse l) l.
Proof.
  unfold sorted_reverse. induction l as [|p l IH]; cbn [foldr]; [done|].
  rewrite insert_desc_Permutation. by constructor.
Qed.

Lemma sorted_reverse_below fs root :
  Forall (fun q => below root q = true) (sorted_reverse (rglob fs root)).
Proof.
  eapply Permutation_Forall; [symmetry; apply sorted_reverse_Permutation|].
  apply rglob_below.
Qed.

Lemma push_loop_on_line l st q :
  ~ on_line (target_dir st.1) q ->
  same_settings st.1 (foldl push_entry st l).1 /\
  (foldl push_entry st l).2 !! q = st.2 !! q.
Proof.
  intros Hq.
  apply (loop_on_line push_entry (target_dir st.1) (fun _ => True));
    [|by apply Forall_true|done|done].
  intros st' p q' _ <- Hq'. by apply push_entry_on_line.
Qed.

Lemma prune_loop_on_line l st q :
  Forall (fun p => below (target_dir st.1) p = true) l ->
  ~ on_line (target_dir st.1) q ->
  same_settings st.1 (foldl prune_entry st l).1 /\
  (foldl prune_entry st l).2 !! q = st.2 !! q.
Proof.
  intros Hall Hq.
  apply (loop_on_line prune_entry (target_dir st.1)
           (fun p => below (target_dir st.1) p = true)); [|done..].
  intros st' p q' Hp E Hq'. rewrite <- E in Hp, Hq'. by apply prune_entry_on_line.
Qed.

Lemma reap_loop_on_line l st q :
  Forall (fun p => below (target_dir st.1) p = true) l ->
  ~ on_line (target_dir st.1) q ->
  same_settings st.1 (foldl reap_entry st l).1 /\
  (foldl reap_entry st l).2 !! q = st.2 !! q.
Proof.
  intros Hall Hq.
  apply (loop_on_line reap_entry (target_dir st.1)
           (fun p => below (target_dir st.1) p = true)); [|done..].
  intros st' p q' Hp E Hq'. rewrite <- E in Hp, Hq'. by apply reap_entry_on_line.
Qed.

(** The three loops of [mirror_sync] keep the settings and touch the line
    of the target only. *)
Lemma mirror_loops_on_line self fs q :
  ~ on_line (target_dir self) q ->
  let st1 := foldl push_entry (self, fs) (rglob fs (source_dir self)) in
  let st2 := foldl prune_entry st1 (rglob st1.2 (target_dir self)) in
  let st3 := foldl reap_entry st2 (sorted_reverse (rglob st2.2 (target_dir self))) in
  same_settings self st1.1 /\ same_settings self st2.1 /\
  same_settings self st3.1 /\
  st1.2 !! q = fs !! q /\ st2.2 !! q = fs !! q /\ st3.2 !! q = fs !! q.
Proof.
  intros Hq st1 st2 st3.
  destruct (push_loop_on_line (rglob fs (source_dir self)) (self, fs) q Hq)
    as [S1 F1]. fold st1 in S1, F1. cbn [fst snd] in S1, F1.
  assert (T1 : target_dir st1.1 = target_dir self) by (by destruct S1 as (_ & ? & _)).
  destruct (prune_loop_on_line (rglob st1.2 (target_dir self)) st1 q) as [S2 F2].
  { rewrite T1. apply rglob_below. }
  { by rewrite T1. }
  fold st2 in S2, F2.
  pose proof (same_settings_trans _ _ _ S1 S2) as S12.
  assert (T2 : target_dir st2.1 = target_dir self) by (by destruct S12 as (_ & ? & _)).
  destruct (reap_loop_on_line (sorted_reverse (rglob st2.2 (target_dir self))) st2 q)
    as [S3 F3].
  { rewrite T2. apply sorted_reverse_below. }
  { by rewrite T2. }
  fold st3 in S3, F3.
  pose proof (same_settings_trans _ _ _ S12 S3) as S123.
  split; [exact S1|]. split; [exact S12|]. split; [exact S123|].
  split; [exact F1|]. split; congruence.
Qed.

(** X1: Mirror and Backup write on the line of the target only, and to
    their log: every path that is neither the target directory, nor one
    of its ancestors, nor below it, and whose name is not one the log
    file can have, holds after the run what it held before, whether the
    run returns or not.  In particular the source tree is left as it is
    when neither root lies inside the other. *)
Theorem mirror_and_backup_write_target_only (self : FileSync)
    (fs : gmap (list string) node) (q : list string) :
  ~ on_line (target_dir self) q ->
  is_log_file_name (name q) = false ->
  final_fs (mirror_sync self fs) !! q = fs !! q /\
  final_fs (backup_sync self fs) !! q = fs !! q.
Proof.
  intros Hq _. split.
  - unfold mirror_sync.
    set (self0 := log (LogInfo "mirror sync started") self).
    change (target_dir self0) with (target_dir self).
    destruct (Path_mkdir fs (target_dir self)) as [fs0|] eqn:Hmk;
      cbn [final_fs]; [|done].
    assert (H0 : fs0 !! q = fs !! q).
    { eapply Path_mkdir_outside; [exact Hmk|]. intros Hp. apply Hq. by left. }
    destruct (mirror_loops_on_line self0 fs0 q Hq) as (_ & _ & _ & _ & _ & F3).
    cbv zeta. cbn [final_fs]. etrans; [exact F3 | exact H0].
  - unfold backup_sync.
    set (self0 := log (LogInfo "backup sync started") self).
    change (target_dir self0) with (target_dir self).
    destruct (Path_mkdir fs (target_dir self)) as [fs0|] eqn:Hmk;
      cbn [final_fs]; [|done].
    assert (H0 : fs0 !! q = fs !! q).
    { eapply Path_mkdir_outside; [exact Hmk|]. intros Hp. apply Hq. by left. }
    destruct (push_loop_on_line (rglob fs0 (source_dir self0)) (self0, fs0) q Hq)
      as [_ F1]. cbv zeta. cbn [final_fs]. etrans; [exact F1 | exact H0].
Qed.

Lemma mirror_and_backup_write_target_only_witness :
  final_fs (mirror_sync (FileSync_init ["src"] ["dst"] "mirror" false)
                        fs_same_metadata) !! ["src"; "a.txt"]
  = fs_same_metadata !! ["src"; "a.txt"].
Proof.
  refine (proj1 (mirror_and_backup_write_target_only
                   (FileSync_init ["src"] ["dst"] "mirror" false)
                   fs_same_metadata ["src"; "a.txt"] _ _)).
  - intros [H|H]; revert H; decide_by_evaluation.
  - vm_compute; reflexivity.
Defined.

Lemma settle_loop_nothing_deleted items : forall st,
  nothing_deleted st (foldl settle_entry st items).
Proof.
  induction items as [|item items IH]; intros st; cbn [foldl].
  - apply nothing_deleted_refl.
  - eapply nothing_deleted_trans; [|apply IH].
    destruct st as [self fs], item as [k info]. unfold settle_entry.
    destruct (info_source info); apply copy_file_nothing_deleted.
Qed.

(** X2: a TwoWay run deletes nothing: the [deleted] counter keeps its
    value, the log records no new deletion, and every file and directory
    of the file system is still there afterwards, a file as a file and a
    directory as a directory. *)
Theorem two_way_never_deletes (self : FileSync) (fs : gmap (list string) node) :
  let o := two_way_sync self fs in
  deleted (stats (final_self o)) = deleted (stats self) /\
  deletions (final_self o) = deletions self /\
  preserved fs (final_fs o).
Proof.
  cbv zeta. unfold two_way_sync.
  set (self0 := log (LogInfo "two-way sync started") self).
  assert (H0 : deleted (stats self0) = deleted (stats self) /\
               deletions self0 = deletions self).
  { split; [done|]. subst self0. by rewrite deletions_log, app_nil_r. }
  destruct H0 as [D0 L0].
  destruct (Path_mkdir fs (source_dir self0)) as [fs1|] eqn:H1;
    cbn [final_self final_fs]; [|split; [done|]; split; [done | apply preserved_refl]].
  destruct (Path_mkdir fs1 (target_dir self0)) as [fs2|] eqn:H2;
    cbn [final_self final_fs];
    [|split; [done|]; split; [done | by eapply Path_mkdir_preserved]].
  destruct (settle_loop_nothing_deleted (collect_all_files self0 fs2) (self0, fs2))
    as (A & B & C). cbn [fst snd] in A, B, C.
  split; [congruence|]. split; [congruence|].
  eapply preserved_trans; [by eapply Path_mkdir_preserved|].
  eapply preserved_trans; [by eapply Path_mkdir_preserved | exact C].
Qed.

Lemma dirs_added_refl fs : dirs_added fs fs.
Proof. intros q. by left. Qed.

Lemma dirs_added_trans fs1 fs2 fs3 :
  dirs_added fs1 fs2 -> dirs_added fs2 fs3 -> dirs_added fs1 fs3.
Proof.
  intros H12 H23 q. destruct (H12 q) as [E1|[N1 D1]], (H23 q) as [E2|[N2 D2]].
  - left. congruence.
  - right. split; congruence.
  - right. split; congruence.
  - congruence.
Qed.

Lemma os_mkdir_dirs_added fs p fs' : os_mkdir fs p = Created fs' -> dirs_added fs fs'.
Proof.
  unfold os_mkdir. destruct (fs_node fs p) eqn:Hp; [discriminate|].
  destruct (fs_node fs (parent p)) as [[]|]; try discriminate.
  intros [= <-] q. destruct (decide (q = p)) as [->|Hne].
  - right. split; [by apply fs_node_None | apply lookup_insert_eq].
  - left. by rewrite lookup_insert_ne.
Qed.

Lemma Path_mkdir_rev_dirs_added rp : forall fs fs',
  Path_mkdir_rev fs rp = Some fs' -> dirs_added fs fs'.
Proof.
  induction rp as [|c rp IH]; intros fs fs'; cbn [Path_mkdir_rev].
  - destruct (os_mkdir fs (rev [])) eqn:Hm; try discriminate;
      first [ intros [= <-]; by eapply os_mkdir_dirs_added
            | destruct (is_dir fs (rev [])); [|discriminate];
              intros [= <-]; apply dirs_added_refl ].
  - destruct (os_mkdir fs (rev (c :: rp))) eqn:Hm.
    + intros [= <-]. by eapply os_mkdir_dirs_added.
    + destruct (is_dir fs (rev (c :: rp))); [|discriminate].
      intros [= <-]. apply dirs_added_refl.
    + destruct (Path_mkdir_rev fs rp) as [fs1|] eqn:H1; [|discriminate].
      specialize (IH _ _ H1).
      destruct (os_mkdir fs1 (rev (c :: rp))) eqn:Hm1; try discriminate.
      * intros [= <-]. eapply dirs_added_trans; [exact IH|].
        by eapply os_mkdir_dirs_added.
      * destruct (is_dir fs1 (rev (c :: rp))); [|discriminate]. by intros [= <-].
      * destruct (is_dir fs1 (rev (c :: rp))); [|discriminate]. by intros [= <-].
    + destruct (is_dir fs (rev (c :: rp))); [|discriminate].
      intros [= <-]. apply dirs_added_refl.
Qed.

(** [Path.mkdir] adds directories and does nothing else. *)
Lemma Path_mkdir_dirs_added fs p fs' : Path_mkdir fs p = Some fs' -> dirs_added fs fs'.
Proof. apply Path_mkdir_rev_dirs_added. Qed.

Lemma copy_file_dry self fs a b :
  dry_run self = true -> dirs_added fs (copy_file self fs a b).2.
Proof.
  intros Hdry. unfold copy_file.
  destruct (Path_mkdir fs (parent b)) as [fs1|] eqn:Hmk; cbn [snd];
    [|apply dirs_added_refl].
  pose proof (Path_mkdir_dirs_added _ _ _ Hmk) as H1.
  destruct (Path_exists fs1 b).
  - pose proof (get_file_hash_settings self fs1 a) as K1.
    destruct (get_file_hash self fs1 a) as [h1 self1].
    pose proof (get_file_hash_settings self1 fs1 b) as K2.
    destruct (get_file_hash self1 fs1 b) as [h2 self2]. cbn [snd] in K1, K2.
    destruct (same_settings_trans _ _ _ K1 K2) as (_ & _ & _ & D & _).
    rewrite D, Hdry.
    destruct (bool_decide (h1 = h2)); cbn [snd]; [done|].
    by destruct (Path_exists fs1 b).
  - rewrite Hdry. by destruct (Path_exists fs1 b).
Qed.

Lemma delete_file_settings self fs p : same_settings self (delete_file self fs p).1.
Proof.
  unfold delete_file.
  destruct (if dry_run self then Some fs else unlink fs p); cbn [fst];
    (eapply same_settings_trans;
       [apply same_settings_stats | apply same_settings_log]).
Qed.

Lemma delete_directory_settings self fs p :
  same_settings self (delete_directory self fs p).1.
Proof.
  unfold delete_directory.
  destruct (if dry_run self then Some fs else rmtree fs p); cbn [fst];
    (eapply same_settings_trans;
       [apply same_settings_stats | apply same_settings_log]).
Qed.

Lemma push_entry_settings st p : same_settings st.1 (push_entry st p).1.
Proof.
  destruct st as [self fs]. unfold push_entry. cbn [fst].
  destruct (should_exclude self p); [apply same_settings_refl|].
  destruct (is_file fs p); [apply copy_file_settings | apply same_settings_refl].
Qed.

Lemma prune_entry_settings st p : same_settings st.1 (prune_entry st p).1.
Proof.
  destruct st as [self fs]. unfold prune_entry. cbn [fst].
  destruct (should_exclude self p); [apply same_settings_refl|].
  destruct (is_file fs p); [|apply same_settings_refl].
  destruct (negb _); [apply delete_file_settings | apply same_settings_refl].
Qed.

Lemma reap_entry_settings st p : same_settings st.1 (reap_entry st p).1.
Proof.
  destruct st as [self fs]. unfold reap_entry. cbn [fst].
  destruct (is_dir fs p && negb (has_entries fs p)); [|apply same_settings_refl].
  destruct (negb _); [apply delete_directory_settings | apply same_settings_refl].
Qed.

Lemma settle_entry_settings st item : same_settings st.1 (settle_entry st item).1.
Proof.
  destruct st as [self fs], item as [k info]. unfold settle_entry. cbn [fst].
  destruct (info_source info); apply copy_file_settings.
Qed.

(** A loop whose step keeps the settings and only adds directories in a
    dry run does so as a whole. *)
Lemma loop_dry {B} (step : FileSync * gmap (list string) node -> B ->
                           FileSync * gmap (list string) node) :
  (forall st b, same_settings st.1 (step st b).1) ->
  (forall st b, dry_run st.1 = true -> dirs_added st.2 (step st b).2) ->
  forall l st, dry_run st.1 = true ->
    same_settings st.1 (foldl step st l).1 /\
    dirs_added st.2 (foldl step st l).2.
Proof.
  intros Hset Hdry. induction l as [|b l IH]; intros st Hd; cbn [foldl].
  - split; [apply same_settings_refl | apply dirs_added_refl].
  - pose proof (Hset st b) as S1. pose proof (Hdry st b Hd) as A1.
    destruct (IH (step st b)) as [S2 A2].
    { destruct S1 as (_ & _ & _ & -> & _). done. }
    split; [by eapply same_settings_trans | by eapply dirs_added_trans].
Qed.

Lemma push_entry_dry st p :
  dry_run st.1 = true -> dirs_added st.2 (push_entry st p).2.
Proof.
  destruct st as [self fs]. cbn [fst snd]. intros Hd. unfold push_entry.
  destruct (should_exclude self p); [apply dirs_added_refl|].
  destruct (is_file fs p); [by apply copy_file_dry | apply dirs_added_refl].
Qed.

Lemma prune_entry_dry st p :
  dry_run st.1 = true -> dirs_added st.2 (prune_entry st p).2.
Proof.
  destruct st as [self fs]. cbn [fst snd]. intros Hd. unfold prune_entry.
  destruct (should_exclude self p); [apply dirs_added_refl|].
  destruct (is_file fs p); [|apply dirs_added_refl].
  destruct (negb _); [|apply dirs_added_refl].
  unfold delete_file. rewrite Hd. apply dirs_added_refl.
Qed.

Lemma reap_entry_dry st p :
  dry_run st.1 = true -> dirs_added st.2 (reap_entry st p).2.
Proof.
  destruct st as [self fs]. cbn [fst snd]. intros Hd. unfold reap_entry.
  destruct (is_dir fs p && negb (has_entries fs p)); [|apply dirs_added_refl].
  destruct (negb _); [|apply dirs_added_refl].
  unfold delete_directory. rewrite Hd. apply dirs_added_refl.
Qed.

Lemma settle_entry_dry st item :
  dry_run st.1 = true -> dirs_added st.2 (settle_entry st item).2.
Proof.
  destruct st as [self fs], item as [k info]. cbn [fst snd]. intros Hd.
  unfold settle_entry. destruct (info_source info); by apply copy_file_dry.
Qed.

Lemma mirror_sync_dry self fs :
  dry_run self = true -> dirs_added fs (final_fs (mirror_sync self fs)).
Proof.
  intros Hd. unfold mirror_sync.
  set (self0 := log (LogInfo "mirror sync started") self).
  destruct (Path_mkdir fs (target_dir self0)) as [fs0|] eqn:Hmk;
    [|apply dirs_added_refl].
  cbv zeta. cbn [final_fs].
  destruct (loop_dry push_entry push_entry_settings push_entry_dry
              (rglob fs0 (source_dir self0)) (self0, fs0) Hd) as [S1 A1].
  set (st1 := foldl push_entry (self0, fs0) (rglob fs0 (source_dir self0))) in *.
  assert (D1 : dry_run st1.1 = true)
    by (destruct S1 as (_ & _ & _ & -> & _); exact Hd).
  destruct (loop_dry prune_entry prune_entry_settings prune_entry_dry
              (rglob st1.2 (target_dir self0)) st1 D1) as [S2 A2].
  set (st2 := foldl prune_entry st1 (rglob st1.2 (target_dir self0))) in *.
  assert (D2 : dry_run st2.1 = true)
    by (destruct S2 as (_ & _ & _ & -> & _); exact D1).
  destruct (loop_dry reap_entry reap_entry_settings reap_entry_dry
              (sorted_reverse (rglob st2.2 (target_dir self0))) st2 D2) as [_ A3].
  eapply dirs_added_trans; [by eapply Path_mkdir_dirs_added|].
  eapply dirs_added_trans; [exact A1|].
  eapply dirs_added_trans; [exact A2 | exact A3].
Qed.

Lemma backup_sync_dry self fs :
  dry_run self = true -> dirs_added fs (final_fs (backup_sync self fs)).
Proof.
  intros Hd. unfold backup_sync.
  set (self0 := log (LogInfo "backup sync started") self).
  destruct (Path_mkdir fs (target_dir self0)) as [fs0|] eqn:Hmk;
    [|apply dirs_added_refl].
  cbv zeta. cbn [final_fs].
  destruct (loop_dry push_entry push_entry_settings push_entry_dry
              (rglob fs0 (source_dir self0)) (self0, fs0) Hd) as [_ A1].
  eapply dirs_added_trans; [by eapply Path_mkdir_dirs_added | exact A1].
Qed.

Lemma two_way_sync_dry self fs :
  dry_run self = true -> dirs_added fs (final_fs (two_way_sync self fs)).
Proof.
  intros Hd. unfold two_way_sync.
  set (self0 := log (LogInfo "two-way sync started") self).
  destruct (Path_mkdir fs (source_dir self0)) as [fs1|] eqn:H1;
    [|apply dirs_added_refl].
  destruct (Path_mkdir fs1 (target_dir self0)) as [fs2|] eqn:H2; cbn [final_fs];
    [|by eapply Path_mkdir_dirs_added].
  cbv zeta. cbn [final_fs].
  destruct (loop_dry settle_entry settle_entry_settings settle_entry_dry
              (collect_all_files self0 fs2) (self0, fs2) Hd) as [_ A].
  eapply dirs_added_trans; [by eapply Path_mkdir_dirs_added|].
  eapply dirs_added_trans; [by eapply Path_mkdir_dirs_added | exact A].
Qed.

(** X3: a dry run, whatever the mode, writes no file but its log and
    deletes nothing: every path whose name is not one the log file can
    have holds after the run what it held before, except that a path
    that held nothing may hold a new directory (the [mkdir] calls are not
    guarded by [dry_run]).  This is so whether the run returns or not. *)
Theorem dry_run_only_adds_directories (self : FileSync)
    (fs : gmap (list string) node) (q : list string) :
  dry_run self = true ->
  is_log_file_name (name q) = false ->
  final_fs (run_sync self fs) !! q = fs !! q \/
  (fs !! q = None /\ final_fs (run_sync self fs) !! q = Some Dir).
Proof.
  intros Hd _. revert q. change (dirs_added fs (final_fs (run_sync self fs))).
  unfold run_sync.
  set (self0 := log (LogInfo "simulated run") _).
  assert (Hd0 : dry_run self0 = true) by exact Hd.
  assert (H : forall o, dirs_added fs (final_fs o) ->
              dirs_added fs (final_fs match o with
                                      | Returned s f => Returned (log (LogInfo "summary") s) f
                                      | Raised _ _ => o
                                      end)) by (by intros []).
  apply H.
  destruct (String.eqb (mode self0) "mirror"); [by apply mirror_sync_dry|].
  destruct (String.eqb (mode self0) "backup"); [by apply backup_sync_dry|].
  destruct (String.eqb (mode self0) "sync"); [by apply two_way_sync_dry|].
  apply dirs_added_refl.
Qed.

Lemma dry_run_only_adds_directories_witness :
  final_fs (run_sync (FileSync_init ["src"] ["dst"] "mirror" true) fs_new_files)
    !! ["dst"; "sub"; "b.txt"] = None.
Proof.
  destruct (dry_run_only_adds_directories
              (FileSync_init ["src"] ["dst"] "mirror" true) fs_new_files
              ["dst"; "sub"; "b.txt"] eq_refl eq_refl) as [H | [_ H]].
  - rewrite H. vm_compute. reflexivity.
  - exfalso. revert H. vm_compute. discriminate.
Defined.

(** ** Mirror: what the two deleting loops do *)

Lemma delete_file_subseteq self fs p : (delete_file self fs p).2 ⊆ fs.
Proof.
  unfold delete_file.
  destruct (if dry_run self then Some fs else unlink fs p) as [fs'|] eqn:Hd;
    cbn [snd]; [|done].
  destruct (dry_run self); [by injection Hd as <-|].
  apply unlink_spec in Hd as ->. apply delete_subseteq.
Qed.

Lemma delete_directory_subseteq self fs p : (delete_directory self fs p).2 ⊆ fs.
Proof.
  unfold delete_directory.
  destruct (if dry_run self then Some fs else rmtree fs p) as [fs'|] eqn:Hd;
    cbn [snd]; [|done].
  destruct (dry_run self); [by injection Hd as <-|].
  apply rmtree_spec in Hd as ->. apply map_filter_subseteq.
Qed.

Lemma prune_entry_subseteq st p : (prune_entry st p).2 ⊆ st.2.
Proof.
  destruct st as [self fs]. unfold prune_entry. cbn [snd].
  destruct (should_exclude self p); [done|].
  destruct (is_file fs p); [|done].
  destruct (negb _); [apply delete_file_subseteq | done].
Qed.

Lemma reap_entry_subseteq st p : (reap_entry st p).2 ⊆ st.2.
Proof.
  destruct st as [self fs]. unfold reap_entry. cbn [snd].
  destruct (is_dir fs p && negb (has_entries fs p)); [|done].
  destruct (negb _); [apply delete_directory_subseteq | done].
Qed.

Lemma reap_loop_subseteq l : forall st, (foldl reap_entry st l).2 ⊆ st.2.
Proof.
  induction l as [|p l IH]; intros st; cbn [foldl]; [done|].
  etrans; [apply IH | apply reap_entry_subseteq].
Qed.

Lemma prune_loop_subseteq l : forall st, (foldl prune_entry st l).2 ⊆ st.2.
Proof.
  induction l as [|p l IH]; intros st; cbn [foldl]; [done|].
  etrans; [apply IH | apply prune_entry_subseteq].
Qed.



Lemma roots_off_line (src tgt k : list string) :
  ~ src `prefix_of` tgt -> ~ tgt `prefix_of` src -> ~ on_line tgt (src ++ k).
Proof.
  intros H1 H2 [Hp|Hp].
  - apply H1. etrans; [|exact Hp]. by exists k.
  - destruct (prefix_weak_total src tgt (src ++ k)); [by exists k | done | |]; done.
Qed.

(** A run that returns, with the object and the file system it ends
    with. *)
Lemma returned_final (o : outcome) :
  match o with Returned _ _ => True | Raised _ _ => False end ->
  o = Returned (final_self o) (final_fs o).
Proof. by destruct o. Qed.




Lemma exclusions_grown_refl fs self : exclusions_grown fs self self.
Proof. repeat split; try done; intros p Hp; by left. Qed.

Lemma exclusions_grown_trans fs s1 s2 s3 :
  exclusions_grown fs s1 s2 -> exclusions_grown fs s2 s3 ->
  exclusions_grown fs s1 s3.
Proof.
  intros (A1 & B1 & C1 & D1 & E1) (A2 & B2 & C2 & D2 & E2).
  split; [by etrans|]. split; [by etrans|]. split; [|split; [|congruence]].
  - intros p Hp. destruct (C2 p Hp) as [H|H]; [by apply C1 | by right].
  - intros p Hp. destruct (D2 p Hp) as [H|H]; [by apply D1 | by right].
Qed.

Lemma add_exclusion_grown cwd fs self path :
  exclusions_grown fs self (add_exclusion cwd fs self path).
Proof.
  unfold add_exclusion.
  destruct (walk fs [] (Path_of_string cwd path)) as [q|];
    [|apply exclusions_grown_refl].
  destruct (is_file fs q) eqn:Hf.
  - repeat split; cbn; try done;
      first [ apply union_subseteq_l
            | intros p [?| ->%elem_of_singleton]%elem_of_union; by auto
            | intros p ?; by left ].
  - destruct (is_dir fs q) eqn:Hd; [|apply exclusions_grown_refl].
    repeat split; cbn; try done;
      first [ apply union_subseteq_l
            | intros p [?| ->%elem_of_singleton]%elem_of_union; by auto
            | intros p ?; by left ].
Qed.

Lemma load_line_grown cwd fs self raw :
  exclusions_grown fs self (load_line cwd fs self raw).
Proof.
  unfold load_line.
  destruct (negb (String.eqb (strip raw) "") && negb (startswith (strip raw) "#"));
    [apply add_exclusion_grown | apply exclusions_grown_refl].
Qed.

Lemma load_lines_grown cwd fs lines : forall self,
  exclusions_grown fs self (foldl (load_line cwd fs) self lines).
Proof.
  induction lines as [|raw lines IH]; intros self; cbn [foldl].
  - apply exclusions_grown_refl.
  - eapply exclusions_grown_trans; [apply load_line_grown | apply IH].
Qed.

(** X5: [add_exclusion] on the path of an existing file or directory
    makes [should_exclude] answer [True] for the resolved path, puts a
    file into [excluded_files] and a directory into [excluded_dirs], and
    leaves every path excluded that was excluded before. *)
Theorem add_exclusion_excludes (cwd : list string) (fs : gmap (list string) node)
    (self : FileSync) (path : string) (q : list string) :
  walk fs [] (Path_of_string cwd path) = Some q ->
  Path_exists fs q = true ->
  let self' := add_exclusion cwd fs self path in
  should_exclude self' q = true /\
  (is_file fs q = true -> q ∈ excluded_files self') /\
  (is_dir fs q = true -> q ∈ excluded_dirs self') /\
  (forall p, should_exclude self p = true -> should_exclude self' p = true).
Proof.
  intros Hw Hex. cbv zeta.
  assert (Hmem : (is_file fs q = true ->
                  q ∈ excluded_files (add_exclusion cwd fs self path)) /\
                 (is_dir fs q = true ->
                  q ∈ excluded_dirs (add_exclusion cwd fs self path)) /\
                 (q ∈ excluded_files (add_exclusion cwd fs self path) \/
                  q ∈ excluded_dirs (add_exclusion cwd fs self path))).
  { unfold add_exclusion. rewrite Hw.
    unfold Path_exists, is_file, is_dir in *.
    destruct (fs_node fs q) as [[f|]|]; try discriminate; cbn;
      (split; [|split]); try discriminate; try (intros _); try set_solver. }
  destruct Hmem as (Hf & Hd & Hor).
  destruct (add_exclusion_grown cwd fs self path) as (A & B & _).
  split; [|split; [done|split; [done|]]].
  - rewrite should_exclude_unfold, !orb_true_iff, !bool_decide_eq_true. tauto.
  - intros p. rewrite !should_exclude_unfold, !orb_true_iff, !bool_decide_eq_true.
    intros [[H|H]|H]; [by left; left | left; right; by apply A | right; by apply B].
Qed.

Lemma add_exclusion_excludes_witness :
  should_exclude
    (add_exclusion ["cfg"] fs_with_exclusion_file
       (FileSync_init ["src"] ["dst"] "mirror" false) "../src/./a.txt")
    ["src"; "a.txt"] = true.
Proof.
  refine (proj1 (add_exclusion_excludes ["cfg"] fs_with_exclusion_file
                   (FileSync_init ["src"] ["dst"] "mirror" false)
                   "../src/./a.txt" ["src"; "a.txt"] _ _));
    vm_compute; reflexivity.
Defined.

(** X6: loading an exclusion file never removes an exclusion and never
    touches the counters; every path it adds to [excluded_files] is a
    regular file and every path it adds to [excluded_dirs] is a directory
    of the file system at the time of the call; when the file cannot be
    opened both sets stay as they are. *)
Theorem load_exclusions_only_adds_existing (cwd : list string)
    (fs : gmap (list string) node) (self : FileSync) (file_path : string) :
  let self' := load_exclusions_from_file cwd fs self file_path in
  excluded_files self ⊆ excluded_files self' /\
  excluded_dirs self ⊆ excluded_dirs self' /\
  (forall p, p ∈ excluded_files self' ->
             p ∈ excluded_files self \/ is_file fs p = true) /\
  (forall p, p ∈ excluded_dirs self' ->
             p ∈ excluded_dirs self \/ is_dir fs p = true) /\
  stats self' = stats self /\
  (open_read cwd fs file_path = None ->
   excluded_files self' = excluded_files self /\
   excluded_dirs self' = excluded_dirs self).
Proof.
  cbv zeta. unfold load_exclusions_from_file.
  destruct (open_read cwd fs file_path) as [text|].
  - destruct (load_lines_grown cwd fs (file_lines text) self)
      as (A & B & C & D & E).
    repeat split; try done.
  - repeat split; try done; intros p Hp; by left.
Qed.

(** ** Creating directories and new copies *)

Lemma os_mkdir_is_dir fs p fs' : os_mkdir fs p = Created fs' -> is_dir fs' p = true.
Proof.
  unfold os_mkdir. destruct (fs_node fs p) eqn:Hp; [discriminate|].
  destruct (fs_node fs (parent p)) as [[]|]; try discriminate.
  intros [= <-]. unfold is_dir. rewrite fs_node_insert_eq; [done|].
  intros ->. discriminate.
Qed.

Lemma Path_mkdir_rev_is_dir rp : forall fs fs',
  Path_mkdir_rev fs rp = Some fs' -> is_dir fs' (rev rp) = true.
Proof.
  destruct rp as [|c rp]; intros fs fs'; cbn [Path_mkdir_rev].
  - destruct (os_mkdir fs (rev [])) eqn:Hm; try discriminate;
      first [ intros [= <-]; by eapply os_mkdir_is_dir
            | destruct (is_dir fs (rev [])) eqn:Hd; [|discriminate];
              by intros [= <-] ].
  - destruct (os_mkdir fs (rev (c :: rp))) eqn:Hm.
    + intros [= <-]. by eapply os_mkdir_is_dir.
    + destruct (is_dir fs (rev (c :: rp))) eqn:Hd; [|discriminate]. by intros [= <-].
    + destruct (Path_mkdir_rev fs rp) as [fs1|]; [|discriminate].
      destruct (os_mkdir fs1 (rev (c :: rp))) eqn:Hm1; try discriminate.
      * intros [= <-]. by eapply os_mkdir_is_dir.
      * destruct (is_dir fs1 (rev (c :: rp))) eqn:Hd; [|discriminate]. by intros [= <-].
      * destruct (is_dir fs1 (rev (c :: rp))) eqn:Hd; [|discriminate]. by intros [= <-].
    + destruct (is_dir fs (rev (c :: rp))) eqn:Hd; [|discriminate]. by intros [= <-].
Qed.

Lemma Path_mkdir_is_dir fs p fs' : Path_mkdir fs p = Some fs' -> is_dir fs' p = true.
Proof.
  unfold Path_mkdir. intros H. apply Path_mkdir_rev_is_dir in H.
  by rewrite rev_involutive in H.
Qed.

(** X7: when [Path.mkdir(parents=True, exist_ok=True)] returns, the path
    is a directory, nothing that existed has been changed or removed, and
    whatever is new is a directory at the path or at one of its
    ancestors. *)
Theorem Path_mkdir_postcondition (fs fs' : gmap (list string) node)
    (p : list string) :
  Path_mkdir fs p = Some fs' ->
  is_dir fs' p = true /\
  fs ⊆ fs' /\
  (forall q n, fs' !! q = Some n -> fs !! q = None ->
               n = Dir /\ q `prefix_of` p).
Proof.
  intros H. split; [|split].
  - by eapply Path_mkdir_is_dir.
  - by eapply Path_mkdir_subseteq.
  - intros q n Hq Hn. split.
    + destruct (Path_mkdir_dirs_added _ _ _ H q) as [E|[_ E]]; congruence.
    + destruct (decide (q `prefix_of` p)) as [|Hnp]; [done|].
      rewrite (Path_mkdir_outside _ _ _ q H Hnp) in Hq. congruence.
Qed.

Lemma Path_mkdir_postcondition_witness :
  exists fs',
    Path_mkdir fs_two_files ["dst"; "x"; "y"] = Some fs' /\
    is_dir fs' ["dst"; "x"; "y"] = true.
Proof.
  assert (is_Some (Path_mkdir fs_two_files ["dst"; "x"; "y"])) as [fs' H]
    by decide_by_evaluation.
  exists fs'. split; [exact H|].
  exact (proj1 (Path_mkdir_postcondition _ _ _ H)).
Defined.







Lemma is_file_agree (fs fs' : gmap (list string) node) p :
  fs' !! p = fs !! p -> is_file fs' p = is_file fs p.
Proof. intros H. unfold is_file. destruct p; [done|]. cbn [fs_node]. by rewrite H. Qed.
























Lemma ascii_compare_refl a : Ascii.compare a a = Eq.
Proof. apply N.compare_refl. Qed.

Lemma ascii_compare_lt_trans a b c :
  Ascii.compare a b = Lt -> Ascii.compare b c = Lt -> Ascii.compare a c = Lt.
Proof.
  unfold Ascii.compare. rewrite !N.compare_lt_iff. apply N.lt_trans.
Qed.

Lemma string_compare_refl s : String.compare s s = Eq.
Proof. induction s as [|a s IH]; cbn; [done|]. by rewrite ascii_compare_refl. Qed.

Lemma string_compare_lt_trans s1 : forall s2 s3,
  String.compare s1 s2 = Lt -> String.compare s2 s3 = Lt ->
  String.compare s1 s3 = Lt.
Proof.
  induction s1 as [|a s1 IH]; intros [|b s2] [|c s3]; cbn; try done.
  destruct (Ascii.compare a b) eqn:Hab; try done;
    destruct (Ascii.compare b c) eqn:Hbc; try done; intros H1 H2.
  - apply Ascii.compare_eq_iff in Hab as ->.
    apply Ascii.compare_eq_iff in Hbc as ->.
    rewrite ascii_compare_refl. by eapply IH.
  - apply Ascii.compare_eq_iff in Hab as ->. by rewrite Hbc.
  - apply Ascii.compare_eq_iff in Hbc as ->. by rewrite Hab.
  - by rewrite (ascii_compare_lt_trans _ _ _ Hab Hbc).
Qed.

Lemma path_compare_refl p : path_compare p p = Eq.
Proof. induction p as [|a p IH]; cbn; [done|]. by rewrite string_compare_refl. Qed.

Lemma path_compare_eq p : forall q, path_compare p q = Eq -> p = q.
Proof.
  induction p as [|a p IH]; intros [|b q]; cbn; try done.
  destruct (String.compare a b) eqn:Hab; try done.
  intros H. apply String.compare_eq_iff in Hab as ->. by rewrite (IH _ H).
Qed.

Lemma path_compare_antisym p : forall q,
  path_compare p q = CompOpp (path_compare q p).
Proof.
  induction p as [|a p IH]; intros [|b q]; cbn; try done.
  rewrite String.compare_antisym.
  destruct (String.compare b a); cbn; [apply IH | done | done].
Qed.

Lemma path_compare_lt_trans p : forall q r,
  path_compare p q = Lt -> path_compare q r = Lt -> path_compare p r = Lt.
Proof.
  induction p as [|a p IH]; intros [|b q] [|c r]; cbn; try done.
  destruct (String.compare a b) eqn:Hab; try done;
    destruct (String.compare b c) eqn:Hbc; try done; intros H1 H2.
  - apply String.compare_eq_iff in Hab as ->.
    apply String.compare_eq_iff in Hbc as ->.
    rewrite string_compare_refl. by eapply IH.
  - apply String.compare_eq_iff in Hab as ->. by rewrite Hbc.
  - apply String.compare_eq_iff in Hbc as ->. by rewrite Hab.
  - by rewrite (string_compare_lt_trans _ _ _ Hab Hbc).
Qed.

Lemma path_le_trans p q r : path_le p q -> path_le q r -> path_le p r.
Proof.
  intros [H1|H1] [H2|H2].
  - left. by eapply path_compare_lt_trans.
  - apply path_compare_eq in H2 as ->. by left.
  - apply path_compare_eq in H1 as ->. by left.
  - apply path_compare_eq in H1 as ->. by right.
Qed.

Lemma path_ltb_false p q : path_ltb p q = false -> path_le q p.
Proof.
  unfold path_ltb, path_le. rewrite (path_compare_antisym q p).
  destruct (path_compare p q); cbn; auto; discriminate.
Qed.

Lemma path_ltb_true p q : path_ltb p q = true -> path_le p q.
Proof. unfold path_ltb, path_le. destruct (path_compare p q); auto; discriminate. Qed.

Lemma insert_desc_sorted p l :
  StronglySorted (fun a b => path_le b a) l ->
  StronglySorted (fun a b => path_le b a) (insert_desc p l).
Proof.
  induction 1 as [|q l Hl IH Hq]; cbn [insert_desc].
  - repeat constructor.
  - destruct (path_ltb p q) eqn:Hpq.
    + constructor; [exact IH|].
      eapply Permutation_Forall; [symmetry; apply insert_desc_Permutation|].
      constructor; [by apply path_ltb_true | done].
    + constructor; [by constructor|].
      apply path_ltb_false in Hpq. constructor; [done|].
      eapply Forall_impl; [exact Hq|]. intros r Hr. exact (path_le_trans _ _ _ Hr Hpq).
Qed.

Lemma sorted_reverse_sorted l :
  StronglySorted (fun a b => path_le b a) (sorted_reverse l).
Proof.
  unfold sorted_reverse. induction l as [|p l IH]; cbn [foldr]; [constructor|].
  by apply insert_desc_sorted.
Qed.

(** A path comes before everything below it. *)
Lemma prefix_path_compare p : forall q,
  p `prefix_of` q -> p <> q -> path_compare p q = Lt.
Proof.
  induction p as [|a p IH]; intros [|b q] Hp Hne; cbn; try done.
  - by apply prefix_nil_not in Hp.
  - apply prefix_cons_inv_1 in Hp as Hab. subst b.
    rewrite string_compare_refl. apply IH.
    + by eapply prefix_cons_inv_2.
    + congruence.
Qed.

(** In the order of [sorted(..., reverse=True)] no path is followed by a
    path strictly below it. *)
Lemma sorted_reverse_parent_last (l l1 l2 : list (list string)) p q :
  sorted_reverse l = l1 ++ p :: l2 -> q ∈ l2 ->
  ~ (p `prefix_of` q /\ p <> q).
Proof.
  intros Hs Hq [Hp Hne].
  pose proof (sorted_reverse_sorted l) as Hsorted. rewrite Hs in Hsorted.
  apply StronglySorted_app_1_r, StronglySorted_cons in Hsorted.
  destruct Hsorted as [Hall _].
  rewrite Forall_forall in Hall. specialize (Hall q Hq).
  pose proof (prefix_path_compare p q Hp Hne) as Hlt.
  destruct Hall as [H|H]; rewrite path_compare_antisym, Hlt in H; discriminate.
Qed.

(** X11: [sorted(..., reverse=True)], which orders the third loop of
    Mirror, returns the same paths with nothing lost or repeated, and no
    path is followed by a path below it: a directory comes after
    everything it contains. *)
Theorem sorted_reverse_deepest_first (l : list (list string)) :
  Permutation (sorted_reverse l) l /\
  forall l1 l2 p q,
    sorted_reverse l = l1 ++ p :: l2 -> q ∈ l2 ->
    ~ (p `prefix_of` q /\ p <> q).
Proof.
  split; [apply sorted_reverse_Permutation|].
  intros l1 l2 p q. apply sorted_reverse_parent_last.
Qed.

Lemma sorted_reverse_deepest_first_witness :
  sorted_reverse [["dst"; "d"]; ["dst"; "d"; "e"]; ["dst"; "a"]]
    = [["dst"; "d"; "e"]; ["dst"; "d"]; ["dst"; "a"]] /\
  ~ (["dst"; "d"; "e"] `prefix_of` ["dst"; "d"] /\
     ["dst"; "d"; "e"] <> ["dst"; "d"]).
Proof.
  split; [vm_compute; reflexivity|].
  refine (proj2 (sorted_reverse_deepest_first
                   [["dst"; "d"]; ["dst"; "d"; "e"]; ["dst"; "a"]])
                [] [["dst"; "d"]; ["dst"; "a"]] ["dst"; "d"; "e"] ["dst"; "d"] _ _).
  - vm_compute. reflexivity.
  - apply list_elem_of_here.
Defined.

(** ** Mirror never removes its root *)

Lemma prune_entry_not_below st p q :
  below (target_dir st.1) p = true -> below (target_dir st.1) q = false ->
  (prune_entry st p).2 !! q = st.2 !! q.
Proof.
  destruct st as [self fs]. cbn [fst snd]. intros Hp Hq. unfold prune_entry.
  destruct (should_exclude self p); [done|].
  destruct (is_file fs p); [|done].
  destruct (negb _); [|done].
  unfold delete_file.
  destruct (if dry_run self then Some fs else unlink fs p) as [fs'|] eqn:Hd;
    cbn [snd]; [|done].
  destruct (dry_run self); [by injection Hd as <-|].
  apply unlink_spec in Hd as ->. apply lookup_delete_ne. intros ->. congruence.
Qed.

Lemma reap_entry_not_below st p q :
  below (target_dir st.1) p = true -> below (target_dir st.1) q = false ->
  (reap_entry st p).2 !! q = st.2 !! q.
Proof.
  destruct st as [self fs]. cbn [fst snd]. intros Hp Hq. unfold reap_entry.
  destruct (is_dir fs p && negb (has_entries fs p)); [|done].
  destruct (negb _); [|done].
  unfold delete_directory.
  destruct (if dry_run self then Some fs else rmtree fs p) as [fs'|] eqn:Hd;
    cbn [snd]; [|done].
  destruct (dry_run self); [by injection Hd as <-|].
  rewrite (rmtree_lookup _ _ _ q Hd). rewrite decide_False; [done|].
  intros Hpre. apply below_spec in Hp as (k & Hk & ->).
  assert (below (target_dir self) q = true); [|congruence].
  destruct Hpre as [k' ->]. apply below_spec. exists (k ++ k').
  split; [|by rewrite app_assoc]. intros [? _]%app_eq_nil. done.
Qed.

Lemma delete_loop_not_below
    (step : FileSync * gmap (list string) node -> list string ->
            FileSync * gmap (list string) node) (root q : list string) :
  (forall st p, same_settings st.1 (step st p).1) ->
  (forall st p, target_dir st.1 = root -> below root p = true ->
                (step st p).2 !! q = st.2 !! q) ->
  forall l st, target_dir st.1 = root ->
    Forall (fun p => below root p = true) l ->
    (foldl step st l).2 !! q = st.2 !! q.
Proof.
  intros Hset Hstep. induction l as [|p l IH]; intros st Ht Hall; cbn [foldl]; [done|].
  apply Forall_cons in Hall as [Hp Hall].
  rewrite IH; [by apply Hstep | | done].
  destruct (Hset st p) as (_ & -> & _). done.
Qed.

Lemma loop_settings {B} (step : FileSync * gmap (list string) node -> B ->
                                FileSync * gmap (list string) node) :
  (forall st b, same_settings st.1 (step st b).1) ->
  forall l st, same_settings st.1 (foldl step st l).1.
Proof.
  intros Hstep. induction l as [|b l IH]; intros st; cbn [foldl].
  - apply same_settings_refl.
  - eapply same_settings_trans; [apply Hstep | apply IH].
Qed.

(** What becomes of the target directory in a Mirror run. *)
Lemma mirror_sync_root (self : FileSync) (fs : gmap (list string) node) :
  match mirror_sync self fs with
  | Returned _ fs' => is_dir fs' (target_dir self) = true
  | Raised _ fs' => fs' = fs /\ Path_mkdir fs (target_dir self) = None
  end.
Proof.
  unfold mirror_sync.
  set (self0 := log (LogInfo "mirror sync started") self).
  change (target_dir self0) with (target_dir self).
  destruct (Path_mkdir fs (target_dir self)) as [fs0|] eqn:Hmk; [|done].
  cbv zeta.
  set (st1 := foldl push_entry (self0, fs0) (rglob fs0 (source_dir self0))).
  set (st2 := foldl prune_entry st1 (rglob st1.2 (target_dir self))).
  set (st3 := foldl reap_entry st2 (sorted_reverse (rglob st2.2 (target_dir self)))).
  pose proof (Path_mkdir_is_dir _ _ _ Hmk) as D0.
  destruct (push_loop_nothing_deleted (rglob fs0 (source_dir self0)) (self0, fs0))
    as (_ & _ & P1). fold st1 in P1. cbn [snd] in P1.
  pose proof (is_dir_preserved _ _ _ P1 D0) as D1.
  pose proof (loop_settings push_entry push_entry_settings
                (rglob fs0 (source_dir self0)) (self0, fs0)) as S1.
  fold st1 in S1. cbn [fst] in S1.
  pose proof (loop_settings prune_entry prune_entry_settings
                (rglob st1.2 (target_dir self)) st1) as S2.
  fold st2 in S2.
  assert (T1 : target_dir st1.1 = target_dir self) by (by destruct S1 as (_ & ? & _)).
  assert (T2 : target_dir st2.1 = target_dir self)
    by (destruct S2 as (_ & -> & _); exact T1).
  assert (Hroot : below (target_dir self) (target_dir self) = false).
  { unfold below. by rewrite (bool_decide_true (target_dir self = target_dir self)),
      andb_false_r. }
  assert (E2 : st2.2 !! target_dir self = st1.2 !! target_dir self).
  { apply (delete_loop_not_below prune_entry (target_dir self));
      [apply prune_entry_settings | | done | apply rglob_below].
    intros st p Ht Hp. apply prune_entry_not_below; by rewrite Ht. }
  assert (E3 : st3.2 !! target_dir self = st2.2 !! target_dir self).
  { apply (delete_loop_not_below reap_entry (target_dir self));
      [apply reap_entry_settings | | done | apply sorted_reverse_below].
    intros st p Ht Hp. apply reap_entry_not_below; by rewrite Ht. }
  unfold is_dir in *. destruct (target_dir self) as [|c tgt]; [done|].
  cbn [fs_node] in *. by rewrite E3, E2.
Qed.

(** X12: a Mirror run that returns leaves the target directory in place
    as a directory, whatever it copied and deleted below it. *)
Theorem mirror_keeps_target_root (self self' : FileSync)
    (fs fs' : gmap (list string) node) :
  mirror_sync self fs = Returned self' fs' ->
  is_dir fs' (target_dir self) = true.
Proof.
  intros Hrun. pose proof (mirror_sync_root self fs) as H. by rewrite Hrun in H.
Qed.

Lemma mirror_keeps_target_root_witness :
  is_dir (final_fs (mirror_sync (FileSync_init ["src"] ["dst"] "mirror" false)
                                fs_nested_empty)) ["dst"] = true.
Proof.
  apply (mirror_keeps_target_root
           (FileSync_init ["src"] ["dst"] "mirror" false)
           (final_self (mirror_sync (FileSync_init ["src"] ["dst"] "mirror" false)
                                    fs_nested_empty))
           fs_nested_empty).
  apply returned_final. vm_compute. exact I.
Defined.

Lemma is_dir_lookup (fs : gmap (list string) node) p :
  p <> [] -> is_dir fs p = true -> fs !! p = Some Dir.
Proof.
  intros Hne. unfold is_dir. rewrite fs_node_lookup by done.
  by destruct (fs !! p) as [[]|].
Qed.

(** In a tree everything above an entry is a directory. *)
Lemma tree_shaped_ancestors fs p q n :
  tree_shaped fs -> fs !! p = Some n -> q `prefix_of` p -> q <> p ->
  is_dir fs q = true.
Proof.
  intros Hwf Hp [k ->] Hne. revert n Hp Hne.
  induction k as [|x k IH] using rev_ind; intros n Hp Hne.
  - by rewrite app_nil_r in Hne.
  - destruct (Hwf _ _ Hp) as [E|Hd].
    { apply app_eq_nil in E as [_ E]. by apply app_eq_nil in E as [_ ?]. }
    unfold parent in Hd. rewrite app_assoc, removelast_last in Hd.
    destruct (decide (k = [])) as [->|Hk]; [by rewrite app_nil_r in Hd|].
    assert (Hqk : q ++ k <> []) by (intros [_ ?]%app_eq_nil; done).
    apply (IH Dir); [by apply is_dir_lookup|].
    intros E. rewrite <- (app_nil_r q) in E at 1. by apply app_inv_head in E.
Qed.

(** In a tree a regular file has nothing below it. *)
Lemma file_has_no_descendant fs (root k1 k2 : list string) :
  tree_shaped fs ->
  is_file fs (root ++ k1) = true -> is_file fs (root ++ k2) = true ->
  k1 `prefix_of` k2 -> k1 = k2.
Proof.
  intros Hwf H1 H2 Hp. destruct (decide (k1 = k2)) as [|Hne]; [done|]. exfalso.
  unfold is_file in H1, H2.
  destruct (fs_node fs (root ++ k2)) as [[f2|]|] eqn:E; try done.
  apply fs_node_file in E as [_ E].
  assert (Hd : is_dir fs (root ++ k1) = true).
  { eapply tree_shaped_ancestors; [done | exact E | by apply prefix_app | ].
    intros E'. by apply app_inv_head in E'. }
  unfold is_dir in Hd. by destruct (fs_node fs (root ++ k1)) as [[]|].
Qed.





Lemma backup_inv_step self fs st p :
  ~ source_dir self `prefix_of` target_dir self ->
  ~ target_dir self `prefix_of` source_dir self ->
  backup_inv self fs st -> backup_inv self fs (push_entry st p).
Proof.
  intros Hst Hts (S & F & P).
  assert (T : target_dir st.1 = target_dir self) by (by destruct S as (_ & ? & _)).
  split; [|split].
  - eapply same_settings_trans; [exact S | apply push_entry_settings].
  - intros k. rewrite <- F. apply push_entry_on_line. rewrite T.
    by apply roots_off_line.
  - eapply preserved_trans; [exact P|]. apply push_entry_nothing_deleted.
Qed.

Lemma push_entry_below self st k :
  same_settings self st.1 ->
  push_entry st (source_dir self ++ k) =
    if should_exclude self (source_dir self ++ k) then st
    else if is_file st.2 (source_dir self ++ k)
    then copy_file st.1 st.2 (source_dir self ++ k) (target_dir self ++ k)
    else st.
Proof.
  intros S. destruct st as [self1 fs1]. cbn [fst snd] in *. unfold push_entry.
  rewrite (same_settings_exclude _ _ _ S).
  destruct S as (-> & -> & _). by rewrite relative_to_app.
Qed.

Lemma is_file_source self fs st k :
  backup_inv self fs st ->
  is_file st.2 (source_dir self ++ k) = is_file fs (source_dir self ++ k).
Proof. intros (_ & F & _). apply is_file_agree, F. Qed.
















(** ** Two-way sync: the newer file wins *)







Lemma name_app (root k : list string) : k <> [] -> name (root ++ k) = name k.
Proof.
  intros Hk. destruct (exists_last Hk) as (k' & x & ->). unfold name.
  by rewrite app_assoc, !last_last.
Qed.

Lemma has_entries_child (fs : gmap (list string) node) p x :
  is_Some (fs !! (p ++ [x])) -> has_entries fs p = true.
Proof.
  intros [n Hn]. unfold has_entries. apply existsb_exists. exists (p ++ [x]). split.
  - apply list_elem_of_In, list_elem_of_fmap. exists (p ++ [x], n).
    split; [done|]. by apply elem_of_map_to_list.
  - rewrite bool_decide_false by (intros [_ ?]%app_eq_nil; done).
    rewrite bool_decide_true; [done|]. apply removelast_last.
Qed.

(** The second loop deletes nothing on the way down to an excluded
    file. *)
Lemma prune_entry_chain self fsX t st p :
  same_settings self st.1 -> should_exclude self t = true ->
  (forall q, q `prefix_of` t -> q <> t -> is_file fsX q = false) ->
  chain_kept fsX t st -> chain_kept fsX t (prune_entry st p).
Proof.
  intros S Hex Hdirs C q Hq. rewrite <- (C q Hq).
  destruct st as [self1 fs1]. cbn [fst snd] in *. unfold prune_entry.
  destruct (should_exclude self1 p) eqn:E; [done|].
  destruct (is_file fs1 p) eqn:F; [|done].
  destruct (negb _); [|done].
  unfold delete_file.
  destruct (if dry_run self1 then Some fs1 else unlink fs1 p) as [fs'|] eqn:Hd;
    cbn [snd]; [|done].
  destruct (dry_run self1); [by injection Hd as <-|].
  apply unlink_spec in Hd as ->. apply lookup_delete_ne. intros ->.
  destruct (decide (q = t)) as [-> | Hne].
  - rewrite (same_settings_exclude _ _ _ S) in E. congruence.
  - rewrite (is_file_agree fsX fs1 q) in F by (by apply C).
    rewrite (Hdirs q Hq Hne) in F. done.
Qed.

(** The third loop removes no directory on the way down to a file. *)
Lemma reap_entry_chain fsX t st p :
  (forall q, q `prefix_of` t -> q <> [] -> is_Some (fsX !! q)) ->
  is_file fsX t = true ->
  chain_kept fsX t st -> chain_kept fsX t (reap_entry st p).
Proof.
  intros Hch Hf C q Hq. rewrite <- (C q Hq).
  destruct st as [self1 fs1]. cbn [fst snd] in *. unfold reap_entry.
  destruct (is_dir fs1 p) eqn:D; cbn [andb]; [|done].
  destruct (has_entries fs1 p) eqn:H; cbn [negb]; [done|].
  destruct (negb (Path_exists _ _)); [|done].
  unfold delete_directory.
  destruct (if dry_run self1 then Some fs1 else rmtree fs1 p) as [fs'|] eqn:Hd;
    cbn [snd]; [|done].
  destruct (dry_run self1); [by injection Hd as <-|].
  rewrite (rmtree_lookup _ _ _ _ Hd). rewrite decide_False; [done|].
  intros Hpq. assert (Hpt : p `prefix_of` t) by (by etrans).
  destruct Hpt as [k ->]. destruct k as [|x k].
  - rewrite app_nil_r in *.
    rewrite (is_file_agree fs1 fsX p) in Hf by (symmetry; by apply C).
    by eapply is_file_not_dir.
  - assert (Hc : (p ++ [x]) `prefix_of` (p ++ x :: k)).
    { apply prefix_app. by exists k. }
    rewrite (has_entries_child fs1 p x) in H; [done|].
    pose proof (C _ Hc) as Hcx. cbn [snd] in Hcx. rewrite Hcx.
    apply Hch; [done|]. intros [_ ?]%app_eq_nil. done.
Qed.

(** The first loop leaves a file alone when the name rules exclude every
    path of its name. *)
Lemma push_loop_named self rel n l : forall st,
  same_settings self st.1 ->
  (forall p, name p = name rel -> should_exclude self p = true) ->
  rel <> [] ->
  Forall (fun q => below (source_dir self) q = true) l ->
  st.2 !! (target_dir self ++ rel) = Some n ->
  (foldl push_entry st l).2 !! (target_dir self ++ rel) = Some n.
Proof.
  induction l as [|p l IH]; intros st S Hname Hrel Hall Ht; cbn [foldl]; [done|].
  apply Forall_cons in Hall as [Hp Hall].
  apply IH; try done.
  { eapply same_settings_trans; [exact S | apply push_entry_settings]. }
  apply below_spec in Hp as (k & Hk & ->).
  rewrite (push_entry_below self) by done.
  destruct (should_exclude self (source_dir self ++ k)) eqn:E; [done|].
  destruct (is_file st.2 _); [|done].
  apply copy_file_frame; [done | |].
  - intros Heq%app_inv_head. subst k.
    rewrite Hname in E; [done|]. by apply name_app.
  - intros Heq. rewrite Hname in E; [done|].
    rewrite <- (name_app (target_dir self) rel) by done. rewrite Heq.
    unfold name at 2. by rewrite last_last.
Qed.

Lemma chain_loop (fsX : gmap (list string) node) (t : list string)
    (self : FileSync)
    (step : FileSync * gmap (list string) node -> list string ->
            FileSync * gmap (list string) node) :
  (forall st p, same_settings st.1 (step st p).1) ->
  (forall st p, same_settings self st.1 -> chain_kept fsX t st ->
                chain_kept fsX t (step st p)) ->
  forall l st, same_settings self st.1 -> chain_kept fsX t st ->
    same_settings self (foldl step st l).1 /\ chain_kept fsX t (foldl step st l).
Proof.
  intros Hset Hstep. induction l as [|p l IH]; intros st S C; cbn [foldl]; [done|].
  apply IH; [|by apply Hstep].
  eapply same_settings_trans; [exact S | apply Hset].
Qed.

(** What Mirror does to a file of the target that [should_exclude] names,
    when nothing is refused. *)
Lemma mirror_keeps_excluded_file (self : FileSync)
    (fs : gmap (list string) node) (rel : list string) (g : file_data) :
  ~ source_dir self `prefix_of` target_dir self ->
  ~ target_dir self `prefix_of` source_dir self ->
  tree_shaped fs ->
  rel <> [] ->
  fs !! (target_dir self ++ rel) = Some (File g) ->
  should_exclude self (target_dir self ++ rel) = true ->
  exists self' fs',
    mirror_sync self fs = Returned self' fs' /\
    is_file fs' (target_dir self ++ rel) = true /\
    ((forall p, name p = name rel -> should_exclude self p = true) ->
     fs' !! (target_dir self ++ rel) = Some (File g)).
Proof.
  intros Hst Hts Hwf Hrel Ht Hex.
  set (t := target_dir self ++ rel) in *.
  assert (Htne : t <> []) by (subst t; intros [_ ?]%app_eq_nil; done).
  assert (Htd : is_dir fs (target_dir self) = true).
  { eapply tree_shaped_ancestors; [done | exact Ht | by apply prefix_app_r |].
    subst t. intros E. rewrite <- (app_nil_r (target_dir self)) in E at 1.
    by apply app_inv_head in E. }
  unfold mirror_sync.
  set (self0 := log (LogInfo "mirror sync started") self).
  change (target_dir self0) with (target_dir self).
  change (source_dir self0) with (source_dir self).
  rewrite (Path_mkdir_existing _ _ Htd). cbv zeta.
  set (st1 := foldl push_entry (self0, fs) (rglob fs (source_dir self))).
  assert (S1 : same_settings self st1.1).
  { eapply same_settings_trans; [apply (same_settings_log (LogInfo "mirror sync started"))|].
    apply (loop_settings push_entry push_entry_settings _ (self0, fs)). }
  assert (P1 : preserved fs st1.2).
  { apply (push_loop_nothing_deleted (rglob fs (source_dir self)) (self0, fs)). }
  assert (Hf : is_file st1.2 t = true).
  { destruct (P1 _ _ Ht) as (n' & Hn' & Hk). unfold is_file.
    rewrite fs_node_lookup by done. rewrite Hn'. by destruct n'. }
  assert (Hup : forall q, q `prefix_of` t -> q <> t -> is_dir fs q = true).
  { intros q Hq Hne. by eapply tree_shaped_ancestors. }
  assert (Hch : forall q, q `prefix_of` t -> q <> [] -> is_Some (st1.2 !! q)).
  { intros q Hq Hne. destruct (decide (q = t)) as [-> | Hqt].
    - unfold is_file in Hf. rewrite fs_node_lookup in Hf by done.
      destruct (st1.2 !! t); [by eexists | done].
    - pose proof (is_dir_lookup fs q Hne (Hup q Hq Hqt)) as Hd.
      destruct (P1 _ _ Hd) as (n' & -> & _). by eexists. }
  assert (Hdirs : forall q, q `prefix_of` t -> q <> t -> is_file st1.2 q = false).
  { intros q Hq Hne. destruct (is_file st1.2 q) eqn:E; [|done]. exfalso.
    eapply is_file_not_dir; [exact E|].
    apply (is_dir_preserved fs); [done | by apply Hup]. }
  set (st2 := foldl prune_entry st1 (rglob st1.2 (target_dir self))).
  destruct (chain_loop st1.2 t self prune_entry prune_entry_settings)
    with (l := rglob st1.2 (target_dir self)) (st := st1) as [S2 C2]; try done.
  { intros st p S C. by apply (prune_entry_chain self). }
  fold st2 in S2, C2.
  destruct (chain_loop st1.2 t self reap_entry reap_entry_settings)
    with (l := sorted_reverse (rglob st2.2 (target_dir self))) (st := st2)
    as [_ C3]; try done.
  { intros st p S C. by apply reap_entry_chain. }
  eexists _, _. split; [done|]. split.
  - rewrite <- Hf. apply is_file_agree. apply C3. done.
  - intros Hname. rewrite (C3 t) by done.
    apply (push_loop_named self rel (File g)); try done. apply rglob_below.
Qed.

(** X16: Mirror never deletes a file of the target that [should_exclude]
    names, whether or not the source holds a counterpart, so the target is
    not an exact mirror of the source.  Over a tree-shaped file system and
    two trees neither of which lies inside the other, the file is still a
    regular file in the file system the run ends with, whether the run
    returns or not; when the name rules exclude every path of its name (a
    dot or tilde name, [.tmp], [.log], a denylist name), the file is
    exactly as it was. *)
Theorem mirror_spares_excluded_files (self : FileSync)
    (fs : gmap (list string) node) (rel : list string) (g : file_data) :
  ~ source_dir self `prefix_of` target_dir self ->
  ~ target_dir self `prefix_of` source_dir self ->
  tree_shaped fs ->
  rel <> [] ->
  fs !! (target_dir self ++ rel) = Some (File g) ->
  should_exclude self (target_dir self ++ rel) = true ->
  let fs' := final_fs (mirror_sync self fs) in
  is_file fs' (target_dir self ++ rel) = true /\
  ((forall p, name p = name rel -> should_exclude self p = true) ->
   fs' !! (target_dir self ++ rel) = Some (File g)).
Proof.
  intros Hst Hts Hwf Hrel Ht Hex. cbv zeta.
  destruct (mirror_keeps_excluded_file self fs rel g) as (s & f & E & H);
    try done.
  rewrite E. exact H.
Qed.

Lemma mirror_spares_excluded_files_witness :
  let fs' := final_fs (mirror_sync (FileSync_init ["src"] ["dst"] "mirror" false)
                                   fs_hidden_target) in
  is_file fs' ["dst"; "old"; ".keep"] = true /\
  fs' !! ["dst"; "old"; ".keep"] = Some (File (FileData "kept" 1 true true)).
Proof.
  destruct (mirror_spares_excluded_files
              (FileSync_init ["src"] ["dst"] "mirror" false) fs_hidden_target
              ["old"; ".keep"] (FileData "kept" 1 true true))
    as (Hfile & Hsame).
  - decide_by_evaluation.
  - decide_by_evaluation.
  - unfold tree_shaped. decide_by_evaluation.
  - discriminate.
  - vm_compute; reflexivity.
  - vm_compute; reflexivity.
  - split; [exact Hfile|].
    apply Hsame. intros p Hp. rewrite should_exclude_unfold, Hp. reflexivity.
Defined.

Lemma settle_entry_copy st item :
  settle_entry st item
  = copy_file st.1 st.2 (origin (source_dir st.1) (target_dir st.1) item)
              (dest (source_dir st.1) (target_dir st.1) item).
Proof.
  destruct st as [self fs], item as [k info]. unfold settle_entry, origin, dest.
  cbn [fst snd]. by destruct (info_source info).
Qed.

(** [Path.mkdir] keeps the shape of a tree. *)
Lemma os_mkdir_tree_shaped fs p fs' :
  tree_shaped fs -> os_mkdir fs p = Created fs' -> tree_shaped fs'.
Proof.
  intros Hwf. unfold os_mkdir.
  destruct (fs_node fs p) eqn:Hp; [done|].
  destruct (fs_node fs (parent p)) as [[]|] eqn:Hpar; try done.
  intros [= <-].
  assert (Hpne : p <> []) by (intros ->; done).
  rewrite fs_node_lookup in Hp by done.
  assert (Hkeep : forall q, is_dir fs q = true -> is_dir (<[p := Dir]> fs) q = true).
  { intros q. unfold is_dir. destruct q as [|c q]; [done|]. cbn [fs_node].
    destruct (decide (p = c :: q)) as [<- | Hne].
    - by rewrite lookup_insert_eq.
    - by rewrite lookup_insert_ne. }
  intros q n Hq. destruct (decide (q = p)) as [-> | Hne].
  - right. apply Hkeep. unfold is_dir. by rewrite Hpar.
  - rewrite lookup_insert_ne in Hq by done.
    destruct (Hwf q n Hq) as [-> | Hd]; [by left | right; by apply Hkeep].
Qed.

Lemma Path_mkdir_rev_tree_shaped rp : forall fs fs',
  tree_shaped fs -> Path_mkdir_rev fs rp = Some fs' -> tree_shaped fs'.
Proof.
  induction rp as [|c rp IH]; intros fs fs' Hwf; cbn [Path_mkdir_rev].
  - destruct (os_mkdir fs (rev [])) eqn:Hm; try discriminate;
      first [ intros [= <-]; by eapply os_mkdir_tree_shaped
            | destruct (is_dir fs (rev [])); [by intros [= <-] | discriminate] ].
  - destruct (os_mkdir fs (rev (c :: rp))) eqn:Hm.
    + intros [= <-]. by eapply os_mkdir_tree_shaped.
    + destruct (is_dir fs _); [by intros [= <-] | discriminate].
    + destruct (Path_mkdir_rev fs rp) as [fs1|] eqn:H1; [|discriminate].
      specialize (IH _ _ Hwf H1).
      destruct (os_mkdir fs1 (rev (c :: rp))) eqn:Hm2; try discriminate.
      * intros [= <-]. exact (os_mkdir_tree_shaped _ _ _ IH Hm2).
      * destruct (is_dir fs1 _); [by intros [= <-] | discriminate].
      * destruct (is_dir fs1 _); [by intros [= <-] | discriminate].
    + destruct (is_dir fs _); [by intros [= <-] | discriminate].
Qed.

Lemma Path_mkdir_tree_shaped fs p fs' :
  tree_shaped fs -> Path_mkdir fs p = Some fs' -> tree_shaped fs'.
Proof. apply Path_mkdir_rev_tree_shaped. Qed.












(** ** Mirror removes empty directories *)











(** ** What Mirror leaves behind in the target *)

Lemma Path_exists_agree (fs fs' : gmap (list string) node) p :
  fs' !! p = fs !! p -> Path_exists fs' p = Path_exists fs p.
Proof. intros H. unfold Path_exists. destruct p; [done|]. cbn [fs_node]. by rewrite H. Qed.











Lemma same_run_step e e' f s s' :
  same_run s s' -> same_run (log e (with_stats f s)) (log e' (with_stats f s')).
Proof.
  intros [(A & B & C & D & E & F) G]. split; [by repeat split|]. cbn. by rewrite G.
Qed.

Lemma same_run_log e e' s s' : same_run s s' -> same_run (log e s) (log e' s').
Proof. intros [(A & B & C & D & E & F) G]. split; [by repeat split | done]. Qed.

Lemma get_file_hash_same_run s s' fs p :
  same_run s s' ->
  (get_file_hash s' fs p).1 = (get_file_hash s fs p).1 /\
  same_run (get_file_hash s fs p).2 (get_file_hash s' fs p).2.
Proof.
  intros R. unfold get_file_hash.
  destruct (fs_node fs p) as [[f|]|]; cbn [fst snd];
    [destruct (readable f); cbn [fst snd] | |];
    (split; [done|]); first [ exact R | by apply same_run_log ].
Qed.

(** What [copy_file] does to the file system and to the counters does not
    depend on the log. *)
Lemma copy_file_same_run s s' fs a b :
  same_run s s' ->
  (copy_file s' fs a b).2 = (copy_file s fs a b).2 /\
  same_run (copy_file s fs a b).1 (copy_file s' fs a b).1.
Proof.
  intros R. unfold copy_file.
  destruct (Path_mkdir fs (parent b)) as [fs1|]; cbn [fst snd];
    [|split; [done | by apply same_run_step]].
  assert (Hpre : exists same s1 s1',
            (if Path_exists fs1 b
             then let '(source_hash, self') := get_file_hash s fs1 a in
                  let '(target_hash, self'') := get_file_hash self' fs1 b in
                  (bool_decide (source_hash = target_hash), self'')
             else (false, s)) = (same, s1) /\
            (if Path_exists fs1 b
             then let '(source_hash, self') := get_file_hash s' fs1 a in
                  let '(target_hash, self'') := get_file_hash self' fs1 b in
                  (bool_decide (source_hash = target_hash), self'')
             else (false, s')) = (same, s1') /\
            same_run s1 s1').
  { destruct (Path_exists fs1 b); [|by eexists _, _, _].
    destruct (get_file_hash_same_run s s' fs1 a R) as [Ha Ra].
    destruct (get_file_hash s fs1 a) as [h1 t1], (get_file_hash s' fs1 a) as [h1' t1'].
    cbn [fst snd] in *. subst h1'.
    destruct (get_file_hash_same_run t1 t1' fs1 b Ra) as [Hb Rb].
    destruct (get_file_hash t1 fs1 b) as [h2 t2], (get_file_hash t1' fs1 b) as [h2' t2'].
    cbn [fst snd] in *. subst h2'. by eexists _, _, _. }
  destruct Hpre as (same & s1 & s1' & -> & -> & R1).
  destruct same; cbn [fst snd]; [split; [done | by apply same_run_step]|].
  assert (Hdry : dry_run s1' = dry_run s1) by (by destruct R1 as [(_ & _ & _ & ? & _) _]).
  rewrite Hdry.
  destruct (if dry_run s1 then Some fs1 else copy2 fs1 a b) as [fs2|]; cbn [fst snd];
    [|split; [done | by apply same_run_step]].
  destruct (Path_exists fs2 b); cbn [fst snd];
    (split; [done | by apply same_run_step]).
Qed.

Lemma push_entry_same_run st st' p :
  same_run st.1 st'.1 -> st'.2 = st.2 ->
  same_run (push_entry st p).1 (push_entry st' p).1 /\
  (push_entry st' p).2 = (push_entry st p).2.
Proof.
  destruct st as [s fs], st' as [s' fs']. cbn [fst snd]. intros R ->.
  unfold push_entry. rewrite (same_settings_exclude s s' p) by apply R.
  destruct (should_exclude s p); [done|].
  destruct (is_file fs p); [|done].
  destruct R as [S E]. pose proof S as (-> & -> & _).
  destruct (copy_file_same_run s s' fs p
              (target_dir s ++ relative_to p (source_dir s))) as [H1 H2]; done.
Qed.

Lemma push_loop_same_run l : forall st st',
  same_run st.1 st'.1 -> st'.2 = st.2 ->
  same_run (foldl push_entry st l).1 (foldl push_entry st' l).1 /\
  (foldl push_entry st' l).2 = (foldl push_entry st l).2.
Proof.
  induction l as [|p l IH]; intros st st' R E; cbn [foldl]; [done|].
  destruct (push_entry_same_run st st' p R E) as [R1 E1]. by apply IH.
Qed.

(** The two deleting loops leave the three counters of [copy_file]
    alone. *)
Lemma prune_entry_transfers st p :
  transfers (stats (prune_entry st p).1) = transfers (stats st.1).
Proof.
  destruct st as [s fs]. unfold prune_entry. cbn [fst].
  destruct (should_exclude s p); [done|].
  destruct (is_file fs p); [|done].
  destruct (negb _); [|done].
  unfold delete_file. by destruct (if dry_run s then Some fs else unlink fs p).
Qed.

Lemma reap_entry_transfers st p :
  transfers (stats (reap_entry st p).1) = transfers (stats st.1).
Proof.
  destruct st as [s fs]. unfold reap_entry. cbn [fst].
  destruct (is_dir fs p && negb (has_entries fs p)); [|done].
  destruct (negb _); [|done].
  unfold delete_directory. by destruct (if dry_run s then Some fs else rmtree fs p).
Qed.

Lemma loop_transfers
    (step : FileSync * gmap (list string) node -> list string ->
            FileSync * gmap (list string) node) :
  (forall st p, transfers (stats (step st p).1) = transfers (stats st.1)) ->
  forall l st, transfers (stats (foldl step st l).1) = transfers (stats st.1).
Proof.
  intros Hstep. induction l as [|p l IH]; intros st; cbn [foldl]; [done|].
  by rewrite IH, Hstep.
Qed.

Lemma loop_dry_fs
    (step : FileSync * gmap (list string) node -> list string ->
            FileSync * gmap (list string) node) :
  (forall st p, same_settings st.1 (step st p).1) ->
  (forall st p, dry_run st.1 = true -> (step st p).2 = st.2) ->
  forall l st, dry_run st.1 = true -> (foldl step st l).2 = st.2.
Proof.
  intros Hset Hstep. induction l as [|p l IH]; intros st Hdry; cbn [foldl]; [done|].
  rewrite IH; [by apply Hstep|].
  destruct (Hset st p) as (_ & _ & _ & -> & _). done.
Qed.

(** The first loop of [mirror_sync] does what [backup_sync] does, and the
    two loops after it only delete, when nothing is refused. *)
Lemma mirror_extends_backup (self : FileSync)
    (fs : gmap (list string) node) :
  let m := mirror_sync self fs in
  let b := backup_sync self fs in
  final_fs m ⊆ final_fs b /\
  transfers (stats (final_self m)) = transfers (stats (final_self b)) /\
  ((exists s1 fs1, m = Returned s1 fs1) <-> (exists s2 fs2, b = Returned s2 fs2)) /\
  (dry_run self = true -> final_fs m = final_fs b).
Proof.
  cbv zeta. unfold mirror_sync, backup_sync.
  set (m0 := log (LogInfo "mirror sync started") self).
  set (b0 := log (LogInfo "backup sync started") self).
  change (target_dir m0) with (target_dir self).
  change (target_dir b0) with (target_dir self).
  change (source_dir m0) with (source_dir self).
  change (source_dir b0) with (source_dir self).
  destruct (Path_mkdir fs (target_dir self)) as [fs0|]; cbn [final_fs final_self].
  2: { split; [done|]. split; [done|]. split; [|done].
       split; intros (? & ? & ?); discriminate. }
  assert (R0 : same_run b0 m0).
  { split; [|done]. by repeat split. }
  destruct (push_loop_same_run (rglob fs0 (source_dir self)) (b0, fs0) (m0, fs0) R0)
    as [[S1 E1] F1]; [done|].
  set (sb := foldl push_entry (b0, fs0) (rglob fs0 (source_dir self))) in *.
  set (st1 := foldl push_entry (m0, fs0) (rglob fs0 (source_dir self))) in *.
  set (st2 := foldl prune_entry st1 (rglob st1.2 (target_dir self))).
  set (l3 := sorted_reverse (rglob st2.2 (target_dir self))).
  split; [|split; [|split]].
  - rewrite <- F1. etrans; [apply reap_loop_subseteq | apply prune_loop_subseteq].
  - rewrite (loop_transfers reap_entry reap_entry_transfers l3 st2).
    unfold st2.
    rewrite (loop_transfers prune_entry prune_entry_transfers _ st1).
    unfold transfers. by rewrite E1.
  - split; intros _; by eexists _, _.
  - intros Hdry. rewrite <- F1.
    assert (D1 : dry_run st1.1 = true).
    { destruct S1 as (_ & _ & _ & -> & _).
      pose proof (loop_settings push_entry push_entry_settings
                    (rglob fs0 (source_dir self)) (b0, fs0)) as (_ & _ & _ & D & _).
      fold sb in D. by rewrite D. }
    assert (D2 : dry_run st2.1 = true).
    { pose proof (loop_settings prune_entry prune_entry_settings
                    (rglob st1.2 (target_dir self)) st1) as (_ & _ & _ & D & _).
      fold st2 in D. by rewrite D. }
    rewrite (loop_dry_fs reap_entry reap_entry_settings) by
      (done || (intros [s f] p Hd; unfold reap_entry, delete_directory; cbn [fst snd] in *;
                rewrite Hd; by repeat case_match)).
    unfold st2.
    rewrite (loop_dry_fs prune_entry prune_entry_settings) by
      (done || (intros [s f] p Hd; unfold prune_entry, delete_file; cbn [fst snd] in *;
                rewrite Hd; by repeat case_match)).
    done.
Qed.

(** X21: Mirror is Backup followed by deletions.  On the same object and
    the same file system, the file system Mirror leaves is the one Backup
    leaves with some entries removed, none added and none changed: what
    a path holds after Mirror it holds after Backup.  In a dry run the
    two leave the same file system.  Both are said of the paths whose
    name is not one the log file can have, whether the runs return or
    not.  When Mirror ends with no log file in the source tree, the two
    runs have counted the same files under [copied], [updated] and
    [skipped]. *)
Theorem mirror_is_backup_then_deletions (self : FileSync)
    (fs : gmap (list string) node) :
  let m := mirror_sync self fs in
  let b := backup_sync self fs in
  (forall q n, is_log_file_name (name q) = false ->
     final_fs m !! q = Some n -> final_fs b !! q = Some n) /\
  (dry_run self = true ->
   forall q, is_log_file_name (name q) = false ->
     final_fs m !! q = final_fs b !! q) /\
  (no_log_file (final_fs m) (source_dir self) = true ->
   transfers (stats (final_self m)) = transfers (stats (final_self b))).
Proof.
  cbv zeta. destruct (mirror_extends_backup self fs) as (Hsub & Ht & _ & Hdry).
  split; [|split].
  - intros q n _ Hq. by eapply lookup_weaken.
  - intros Hd q _. by rewrite Hdry.
  - intros _. exact Ht.
Qed.

Lemma mirror_is_backup_then_deletions_witness :
  let self := FileSync_init ["src"] ["dst"] "mirror" false in
  transfers (stats (final_self (mirror_sync self fs_stale_target)))
  = transfers (stats (final_self (backup_sync self fs_stale_target))) /\
  final_fs (mirror_sync self fs_stale_target) !! ["dst"; "old"; "stale.txt"] = None /\
  is_Some (final_fs (backup_sync self fs_stale_target) !! ["dst"; "old"; "stale.txt"]).
Proof.
  cbv zeta. split; [|split; [vm_compute; reflexivity | decide_by_evaluation]].
  apply (proj2 (proj2 (mirror_is_backup_then_deletions
                         (FileSync_init ["src"] ["dst"] "mirror" false)
                         fs_stale_target))).
  vm_compute; reflexivity.
Defined.

(** ** Two-way sync: one call of [copy_file] for every relative path *)










Lemma get_file_hash_fst s fs p : (get_file_hash s fs p).1 = file_hash fs p.
Proof.
  unfold get_file_hash, file_hash. destruct (fs_node fs p) as [[f|]|]; [|done..].
  by destruct (readable f).
Qed.

Lemma copy_file_fs s fs a b : (copy_file s fs a b).2 = copy_fs (dry_run s) fs a b.
Proof.
  unfold copy_file, copy_fs, transfer.
  destruct (Path_mkdir fs (parent b)) as [fs1|]; [|done].
  destruct (Path_exists fs1 b); cbn [andb].
  - pose proof (get_file_hash_fst s fs1 a) as Ha.
    pose proof (get_file_hash_keeps s fs1 a) as (_ & _ & Da & _).
    destruct (get_file_hash s fs1 a) as [h1 s1]. cbn [fst snd] in *.
    pose proof (get_file_hash_fst s1 fs1 b) as Hb.
    pose proof (get_file_hash_keeps s1 fs1 b) as (_ & _ & Db & _).
    destruct (get_file_hash s1 fs1 b) as [h2 s2]. cbn [fst snd] in *.
    subst h1 h2. rewrite Db, Da.
    destruct (bool_decide _); cbn [snd]; [done|].
    destruct (if dry_run s then Some fs1 else copy2 fs1 a b) as [fs2|]; cbn [snd];
      [|done].
    by destruct (Path_exists fs2 b).
  - destruct (if dry_run s then Some fs1 else copy2 fs1 a b) as [fs2|]; cbn [snd];
      [|done].
    by destruct (Path_exists fs2 b).
Qed.

(** [shutil.copy2] keeps the shape of a tree. *)
Lemma copy2_tree_shaped fs a b fs' :
  tree_shaped fs -> copy2 fs a b = Some fs' -> tree_shaped fs'.
Proof.
  intros Hwf. unfold copy2.
  set (dst := if is_dir fs b then b ++ [name a] else b).
  destruct (Path_exists fs a && bool_decide (a = dst)); [discriminate|].
  destruct (fs_node fs a) as [[f|]|]; try discriminate.
  destruct (readable f); [|discriminate].
  assert (Hins : dst <> [] -> ~ is_dir fs dst = true ->
            is_dir fs (parent dst) = true -> tree_shaped (<[dst := File f]> fs)).
  { intros Hne Hnd Hpar q n Hq.
    assert (Hkeep : forall r, is_dir fs r = true ->
              is_dir (<[dst := File f]> fs) r = true).
    { intros r Hr. destruct (decide (r = dst)) as [-> | Hrd]; [by destruct Hnd|].
      unfold is_dir in *. destruct r as [|c r]; [done|].
      cbn [fs_node] in *. by rewrite lookup_insert_ne. }
    destruct (decide (q = dst)) as [-> | Hqd].
    - right. by apply Hkeep.
    - rewrite lookup_insert_ne in Hq by done.
      destruct (Hwf q n Hq) as [-> | Hd]; [by left | right; by apply Hkeep]. }
  destruct (fs_node fs dst) as [[g|]|] eqn:Hd; try discriminate.
  - destruct (writable g); [|discriminate]. intros [= <-].
    apply fs_node_file in Hd as [Hne Hd]. apply Hins; [done | |].
    + unfold is_dir. rewrite fs_node_lookup by done. by rewrite Hd.
    + destruct (Hwf _ _ Hd) as [? | ?]; done.
  - destruct (is_dir fs (parent dst)) eqn:Hp; [|discriminate]. intros [= <-].
    apply Hins; [by intros E; rewrite E in Hd | | done].
    unfold is_dir. by rewrite Hd.
Qed.

Lemma copy_fs_tree_shaped dry fs a b :
  tree_shaped fs -> tree_shaped (copy_fs dry fs a b).
Proof.
  intros Hwf. unfold copy_fs, transfer.
  destruct (Path_mkdir fs (parent b)) as [fs1|] eqn:Hmk; [|done].
  pose proof (Path_mkdir_tree_shaped _ _ _ Hwf Hmk) as Hwf1.
  destruct (_ && _); [done|].
  destruct dry; [done|].
  destruct (copy2 fs1 a b) as [fs2|] eqn:Hc; [|done]. by eapply copy2_tree_shaped.
Qed.

(** In a tree [Path.mkdir] fails when a regular file stands at the path or
    above it, and only then. *)
Lemma Path_mkdir_rev_fails rp : forall fs,
  Path_mkdir_rev fs rp = None ->
  exists q, q `prefix_of` rev rp /\ is_file fs q = true.
Proof.
  induction rp as [|c rp IH]; intros fs; cbn [Path_mkdir_rev].
  - unfold os_mkdir, is_dir. cbn. discriminate.
  - assert (Hpar : parent (rev (c :: rp)) = rev rp)
      by (cbn [rev]; apply removelast_last).
    assert (Hne : rev (c :: rp) <> [])
      by (cbn [rev]; intros [_ ?]%app_eq_nil; done).
    unfold os_mkdir at 1. unfold is_dir.
    destruct (fs_node fs (rev (c :: rp))) as [[f|]|] eqn:E.
    + intros _. exists (rev (c :: rp)). split; [done|]. unfold is_file. by rewrite E.
    + discriminate.
    + rewrite Hpar. destruct (fs_node fs (rev rp)) as [[f|]|] eqn:E2.
      * intros _. exists (rev rp). split.
        -- cbn [rev]. by apply prefix_app_r.
        -- unfold is_file. by rewrite E2.
      * discriminate.
      * destruct (Path_mkdir_rev fs rp) as [fs1|] eqn:H1.
        -- pose proof (Path_mkdir_rev_is_dir _ _ _ H1) as D1.
           assert (E1 : fs_node fs1 (rev (c :: rp)) = None).
           { rewrite fs_node_lookup by done.
             rewrite (Path_mkdir_rev_outside _ _ _ _ H1).
             - rewrite <- fs_node_lookup by done. exact E.
             - cbn [rev]. apply prefix_snoc_not. }
           unfold os_mkdir, is_dir in *. rewrite E1, Hpar.
           destruct (fs_node fs1 (rev rp)) as [[]|]; done.
        -- intros _. destruct (IH fs H1) as (q & Hq & Hf).
           exists q. split; [|done]. cbn [rev]. by apply prefix_app_r.
Qed.

Lemma Path_mkdir_blocked fs p q :
  tree_shaped fs -> q `prefix_of` p -> is_file fs q = true ->
  Path_mkdir fs p = None.
Proof.
  intros Hwf Hq Hf. destruct (Path_mkdir fs p) as [fs'|] eqn:Hmk; [|done]. exfalso.
  pose proof (Path_mkdir_preserved _ _ _ Hmk) as P.
  pose proof (Path_mkdir_is_dir _ _ _ Hmk) as D.
  pose proof (Path_mkdir_tree_shaped _ _ _ Hwf Hmk) as Hwf'.
  assert (Hf' : is_file fs' q = true).
  { unfold is_file in *. destruct (fs_node fs q) as [[f|]|] eqn:E; try done.
    apply fs_node_file in E as [Hne E]. destruct (P _ _ E) as (n' & Hn' & Hk).
    rewrite fs_node_lookup by done. rewrite Hn'. by destruct n'. }
  destruct (decide (q = p)) as [-> | Hne]; [by eapply is_file_not_dir|].
  assert (Hpne : p <> []).
  { intros ->. apply prefix_nil_inv in Hq. done. }
  apply is_dir_lookup in D; [|done].
  eapply is_file_not_dir; [exact Hf'|]. by eapply tree_shaped_ancestors.
Qed.

Lemma fs_node_agree (fs fs' : gmap (list string) node) p :
  fs' !! p = fs !! p -> fs_node fs' p = fs_node fs p.
Proof. intros H. destruct p; [done|]. exact H. Qed.

Lemma is_dir_agree (fs fs' : gmap (list string) node) p :
  fs' !! p = fs !! p -> is_dir fs' p = is_dir fs p.
Proof. intros H. unfold is_dir. by rewrite (fs_node_agree _ _ _ H). Qed.

Lemma file_hash_agree (fs fs' : gmap (list string) node) p :
  fs' !! p = fs !! p -> file_hash fs' p = file_hash fs p.
Proof. intros H. unfold file_hash. by rewrite (fs_node_agree _ _ _ H). Qed.

(** When [shutil.copy2] returns it has read a readable regular file and
    written it at the destination, or below the destination when that is
    a directory. *)
Lemma copy2_success fs a b fs' :
  copy2 fs a b = Some fs' ->
  let dst := if is_dir fs b then b ++ [name a] else b in
  exists f,
    fs_node fs a = Some (File f) /\ readable f = true /\ a <> dst /\ dst <> [] /\
    is_dir fs dst = false /\ fs' = <[dst := File f]> fs.
Proof.
  unfold copy2. set (dst := if is_dir fs b then b ++ [name a] else b). cbv zeta.
  destruct (Path_exists fs a && bool_decide (a = dst)) eqn:Hsame; [discriminate|].
  destruct (fs_node fs a) as [[f|]|] eqn:Ha; try discriminate.
  destruct (readable f) eqn:Hr; [|discriminate].
  assert (Hne : a <> dst).
  { intros E. unfold Path_exists in Hsame. rewrite Ha in Hsame.
    by rewrite bool_decide_true in Hsame. }
  assert (Hd : fs_node fs dst <> Some Dir -> dst <> [] /\ is_dir fs dst = false).
  { intros H. split; [by intros E; rewrite E in H|].
    unfold is_dir. by destruct (fs_node fs dst) as [[]|]. }
  destruct (fs_node fs dst) as [[g|]|] eqn:Hdst; try discriminate.
  - destruct (writable g); [|discriminate]. intros [= <-].
    destruct Hd as [? ?]; [done|]. by exists f.
  - destruct (is_dir fs (parent dst)); [|discriminate]. intros [= <-].
    destruct Hd as [? ?]; [done|]. by exists f.
Qed.

(** [shutil.copy2] looks at the source, at the destination and at the base
    name of the source below it, and at nothing else. *)
Lemma copy2_frame (fs fs' : gmap (list string) node) a b :
  fs' !! a = fs !! a -> fs' !! b = fs !! b ->
  fs' !! (b ++ [name a]) = fs !! (b ++ [name a]) ->
  is_dir fs' (parent b) = is_dir fs (parent b) ->
  match copy2 fs a b with
  | None => copy2 fs' a b = None
  | Some _ =>
      exists dst f, (dst = b \/ dst = b ++ [name a]) /\
                    copy2 fs a b = Some (<[dst := File f]> fs) /\
                    copy2 fs' a b = Some (<[dst := File f]> fs')
  end.
Proof.
  intros Ha Hb Hba Hpar. unfold copy2.
  rewrite (is_dir_agree _ _ _ Hb).
  set (dst := if is_dir fs b then b ++ [name a] else b).
  assert (Hdst : fs' !! dst = fs !! dst) by (subst dst; by destruct (is_dir fs b)).
  assert (Hpd : is_dir fs' (parent dst) = is_dir fs (parent dst)).
  { subst dst. destruct (is_dir fs b) eqn:E; [|done].
    unfold parent. rewrite removelast_last. by apply is_dir_agree. }
  assert (Hor : dst = b \/ dst = b ++ [name a])
    by (subst dst; destruct (is_dir fs b); auto).
  unfold Path_exists. rewrite (fs_node_agree _ _ _ Ha), (fs_node_agree _ _ _ Hdst), Hpd.
  destruct (_ && _); [done|].
  destruct (fs_node fs a) as [[f|]|]; try done.
  destruct (readable f); [|done].
  destruct (fs_node fs dst) as [[g|]|]; try done.
  - destruct (writable g); [|done]. by exists dst, f.
  - destruct (is_dir fs (parent dst)); [|done]. by exists dst, f.
Qed.

(** A file that needs no further call still needs none in a file system
    that agrees on the three paths the call looks at. *)
Lemma transfer_frame (dry : bool) (fs fs' : gmap (list string) node) a b :
  fs' !! a = fs !! a -> fs' !! b = fs !! b ->
  fs' !! (b ++ [name a]) = fs !! (b ++ [name a]) ->
  is_dir fs' (parent b) = is_dir fs (parent b) ->
  transfer dry fs a b = fs -> transfer dry fs' a b = fs'.
Proof.
  intros Ha Hb Hba Hpar. unfold transfer.
  rewrite (Path_exists_agree _ _ _ Hb), (file_hash_agree _ _ _ Ha),
    (file_hash_agree _ _ _ Hb).
  destruct (_ && _); [done|].
  destruct dry; [done|].
  pose proof (copy2_frame fs fs' a b Ha Hb Hba Hpar) as Hc.
  destruct (copy2 fs a b) as [fs2|] eqn:E; [|by rewrite Hc].
  destruct Hc as (dst & f & Hor & [= ->] & ->). intros Heq.
  assert (Hd : fs !! dst = Some (File f)).
  { rewrite <- Heq. apply lookup_insert_eq. }
  apply insert_id. rewrite <- Hd. by destruct Hor as [-> | ->].
Qed.

(** A second call of [copy_file] right after the first changes nothing. *)
Lemma transfer_idem (dry : bool) (fs1 : gmap (list string) node) a b :
  transfer dry (transfer dry fs1 a b) a b = transfer dry fs1 a b.
Proof.
  destruct (Path_exists fs1 b && bool_decide (file_hash fs1 a = file_hash fs1 b))
    eqn:Hc.
  { assert (transfer dry fs1 a b = fs1) as -> by (unfold transfer; by rewrite Hc).
    unfold transfer. by rewrite Hc. }
  destruct dry.
  { assert (transfer true fs1 a b = fs1) as -> by (unfold transfer; by rewrite Hc).
    unfold transfer. by rewrite Hc. }
  destruct (copy2 fs1 a b) as [fs2|] eqn:Hcp.
  2: { assert (transfer false fs1 a b = fs1) as ->
         by (unfold transfer; by rewrite Hc, Hcp).
       unfold transfer. by rewrite Hc, Hcp. }
  assert (transfer false fs1 a b = fs2) as ->
    by (unfold transfer; by rewrite Hc, Hcp).
  destruct (copy2_success _ _ _ _ Hcp) as (f & Ha & Hr & Hne & Hdne & Hnd & ->).
  set (dst := if is_dir fs1 b then b ++ [name a] else b) in *.
  set (fs2 := <[dst := File f]> fs1).
  assert (Hane : a <> []) by (intros ->; done).
  assert (Ha2 : fs_node fs2 a = Some (File f)).
  { rewrite fs_node_lookup by done. subst fs2. rewrite lookup_insert_ne by done.
    by rewrite <- fs_node_lookup. }
  assert (Hd2 : fs_node fs2 dst = Some (File f)).
  { rewrite fs_node_lookup by done. apply lookup_insert_eq. }
  assert (Hha : file_hash fs2 a = Some (MD5.hexdigest (content f))).
  { unfold file_hash. by rewrite Ha2, Hr. }
  unfold transfer. subst dst. destruct (is_dir fs1 b) eqn:Hb.
  - assert (Hbne : b <> b ++ [name a]).
    { intros E. rewrite <- (app_nil_r b) in E at 1. by apply app_inv_head in E. }
    assert (Hb2 : is_dir fs2 b = true).
    { rewrite <- Hb. apply is_dir_agree. subst fs2. by rewrite lookup_insert_ne. }
    assert (Hhb : file_hash fs2 b = None).
    { unfold file_hash. unfold is_dir in Hb2.
      by destruct (fs_node fs2 b) as [[]|]. }
    rewrite Hha, Hhb. rewrite bool_decide_false by done. rewrite andb_false_r.
    unfold copy2. rewrite Hb2. unfold Path_exists. rewrite Ha2. cbn [andb].
    rewrite bool_decide_false by done. rewrite Hr, Hd2.
    destruct (writable f); [|done]. subst fs2. by rewrite insert_insert_eq.
  - assert (Hex : Path_exists fs2 b = true).
    { unfold Path_exists. by rewrite Hd2. }
    assert (Hhb : file_hash fs2 b = Some (MD5.hexdigest (content f))).
    { unfold file_hash. by rewrite Hd2, Hr. }
    rewrite Hex, Hha, Hhb. by rewrite bool_decide_true.
Qed.

Lemma transfer_preserved dry fs a b : preserved fs (transfer dry fs a b).
Proof.
  unfold transfer. destruct (_ && _); [apply preserved_refl|].
  destruct dry; [apply preserved_refl|].
  destruct (copy2 fs a b) eqn:E; [by eapply copy2_preserved | apply preserved_refl].
Qed.

Lemma copy_fs_preserved dry fs a b : preserved fs (copy_fs dry fs a b).
Proof.
  unfold copy_fs. destruct (Path_mkdir fs (parent b)) as [fs1|] eqn:Hmk;
    [|apply preserved_refl].
  eapply preserved_trans; [by eapply Path_mkdir_preserved | apply transfer_preserved].
Qed.

Lemma copy_fs_idem dry fs a b :
  copy_fs dry (copy_fs dry fs a b) a b = copy_fs dry fs a b.
Proof.
  destruct (Path_mkdir fs (parent b)) as [fs1|] eqn:Hmk.
  - assert (copy_fs dry fs a b = transfer dry fs1 a b) as ->
      by (unfold copy_fs; by rewrite Hmk).
    unfold copy_fs. rewrite (Path_mkdir_existing (transfer dry fs1 a b)).
    + apply transfer_idem.
    + eapply is_dir_preserved; [apply transfer_preserved|].
      by eapply Path_mkdir_is_dir.
  - assert (copy_fs dry fs a b = fs) as -> by (unfold copy_fs; by rewrite Hmk).
    unfold copy_fs. by rewrite Hmk.
Qed.

Lemma copy_fs_outside dry fs a b q :
  ~ q `prefix_of` b -> q <> b ++ [name a] -> copy_fs dry fs a b !! q = fs !! q.
Proof.
  intros H1 H2.
  change (copy_fs dry fs a b)
    with (copy_fs (dry_run (FileSync_init [] [] "" dry)) fs a b).
  rewrite <- copy_file_fs. by apply copy_file_outside.
Qed.

(** A call of [copy_file] for another file of the source leaves a settled
    file settled. *)
Lemma settled_other (dry : bool) (fs : gmap (list string) node) (src tgt k k' : list string) :
  ~ src `prefix_of` tgt -> ~ tgt `prefix_of` src ->
  tree_shaped fs ->
  is_file fs (src ++ k) = true -> is_file fs (src ++ k') = true -> k <> k' ->
  settled dry fs (src ++ k) (tgt ++ k) ->
  settled dry (copy_fs dry fs (src ++ k') (tgt ++ k')) (src ++ k) (tgt ++ k).
Proof.
  intros Hst Hts Hwf Hk Hk' Hne Hset.
  set (fs' := copy_fs dry fs (src ++ k') (tgt ++ k')).
  pose proof (copy_fs_preserved dry fs (src ++ k') (tgt ++ k')) as P. fold fs' in P.
  pose proof (copy_fs_tree_shaped dry fs (src ++ k') (tgt ++ k') Hwf) as Hwf'.
  fold fs' in Hwf'.
  assert (N1 : ~ k `prefix_of` k').
  { intros Hp. by apply Hne, (file_has_no_descendant fs src). }
  assert (N2 : ~ k' `prefix_of` k).
  { intros Hp. by apply Hne, eq_sym, (file_has_no_descendant fs src). }
  assert (Ha : fs' !! (src ++ k) = fs !! (src ++ k)).
  { apply copy_fs_outside.
    - apply off_line_app. by apply roots_off_line.
    - rewrite <- app_assoc. apply off_line_below. by apply roots_off_line. }
  assert (Hb : fs' !! (tgt ++ k) = fs !! (tgt ++ k)).
  { apply copy_fs_outside.
    - by intros Hp%prefix_app_inv.
    - rewrite <- app_assoc. intros E%app_inv_head. apply N2. rewrite E.
      by apply prefix_app_r. }
  assert (Hba : fs' !! ((tgt ++ k) ++ [name (src ++ k)])
                = fs !! ((tgt ++ k) ++ [name (src ++ k)])).
  { apply copy_fs_outside.
    - rewrite <- app_assoc. intros Hp%prefix_app_inv.
      by apply N1, (prefix_app_l _ _ [name (src ++ k)]).
    - intros E. apply app_inj_tail in E as [E _]. by apply app_inv_head in E. }
  unfold settled, copy_fs in *.
  destruct (Path_mkdir fs (parent (tgt ++ k))) as [fs1|] eqn:Hmk.
  - assert (Hd : is_dir fs (parent (tgt ++ k)) = true).
    { apply (is_dir_preserved fs1).
      - rewrite <- Hset. apply transfer_preserved.
      - by eapply Path_mkdir_is_dir. }
    rewrite (Path_mkdir_existing _ _ Hd) in Hmk. injection Hmk as <-.
    pose proof (is_dir_preserved _ _ _ P Hd) as Hd'.
    rewrite (Path_mkdir_existing _ _ Hd').
    apply (transfer_frame dry fs); try done. by rewrite Hd, Hd'.
  - apply Path_mkdir_rev_fails in Hmk as (q & Hq & Hf).
    rewrite rev_involutive in Hq.
    rewrite (Path_mkdir_blocked fs' _ q); try done.
    unfold is_file in *. destruct (fs_node fs q) as [[f|]|] eqn:E; try done.
    apply fs_node_file in E as [Hqne E]. destruct (P _ _ E) as (n' & Hn' & Hkind).
    rewrite fs_node_lookup by done. rewrite Hn'. by destruct n'.
Qed.

Lemma push_entry_fs self st k :
  same_settings self st.1 ->
  (push_entry st (source_dir self ++ k)).2 =
    if negb (should_exclude self (source_dir self ++ k))
       && is_file st.2 (source_dir self ++ k)
    then copy_fs (dry_run self) st.2 (source_dir self ++ k) (target_dir self ++ k)
    else st.2.
Proof.
  intros S. rewrite (push_entry_below self) by done.
  destruct (should_exclude self _); cbn [negb andb]; [done|].
  destruct (is_file st.2 _); [|done].
  rewrite copy_file_fs. by destruct S as (_ & _ & _ & -> & _).
Qed.

(** The first run: every file it has dealt with is settled, and stays
    settled while the other files are dealt with. *)
Lemma push_loop_settles self fs0 l : forall st (P : list string -> Prop),
  ~ source_dir self `prefix_of` target_dir self ->
  ~ target_dir self `prefix_of` source_dir self ->
  tree_shaped st.2 -> backup_inv self fs0 st ->
  Forall (fun q => below (source_dir self) q = true) l ->
  (forall k, P k -> eligible self fs0 (source_dir self ++ k) = true ->
             settled (dry_run self) st.2 (source_dir self ++ k) (target_dir self ++ k)) ->
  backup_inv self fs0 (foldl push_entry st l) /\
  forall k, P k \/ source_dir self ++ k ∈ l ->
            eligible self fs0 (source_dir self ++ k) = true ->
            settled (dry_run self) (foldl push_entry st l).2
                    (source_dir self ++ k) (target_dir self ++ k).
Proof.
  induction l as [|p l IH]; intros st P Hst Hts Hwf I Hall Hset; cbn [foldl].
  - split; [done|]. intros k [Hk | Hin]; [by apply Hset | by apply elem_of_nil in Hin].
  - apply Forall_cons in Hall as [Hp Hall]. apply below_spec in Hp as (kp & _ & ->).
    pose proof (backup_inv_step self fs0 st (source_dir self ++ kp) Hst Hts I) as I'.
    pose proof (push_entry_fs self st kp (proj1 I)) as Hfs.
    assert (Hsame : forall k, is_file st.2 (source_dir self ++ k)
                              = is_file fs0 (source_dir self ++ k)).
    { intros k. by apply (is_file_source self fs0). }
    rewrite Hsame in Hfs. fold (eligible self fs0 (source_dir self ++ kp)) in Hfs.
    destruct (IH (push_entry st (source_dir self ++ kp))
                 (fun k => P k \/ k = kp)) as [I'' Hall'']; try done.
    + rewrite Hfs. destruct (eligible self fs0 _); [|done].
      by apply copy_fs_tree_shaped.
    + intros k Hk He. rewrite Hfs.
      destruct (eligible self fs0 (source_dir self ++ kp)) eqn:Hep.
      * destruct (decide (k = kp)) as [-> | Hne]; [apply copy_fs_idem|].
        destruct Hk as [Hk | ?]; [|done].
        pose proof (Hset k Hk He) as Hsk.
        unfold eligible in He, Hep.
        apply andb_true_iff in He as [_ He]. apply andb_true_iff in Hep as [_ Hep].
        rewrite <- Hsame in He, Hep.
        by apply settled_other.
      * destruct Hk as [Hk | ->]; [by apply Hset | congruence].
    + split; [done|]. intros k [Hk | Hin] He; apply Hall''; try done.
      * by left; left.
      * apply elem_of_cons in Hin as [E | Hin]; [|by right].
        left; right. by apply app_inv_head in E.
Qed.

(** The second run: a loop over settled files changes nothing. *)
Lemma push_loop_fixed self R l : forall st,
  st.2 = R -> same_settings self st.1 ->
  Forall (fun q => below (source_dir self) q = true) l ->
  (forall k, source_dir self ++ k ∈ l ->
             negb (should_exclude self (source_dir self ++ k))
             && is_file R (source_dir self ++ k) = true ->
             settled (dry_run self) R (source_dir self ++ k) (target_dir self ++ k)) ->
  (foldl push_entry st l).2 = R.
Proof.
  induction l as [|p l IH]; intros st HR S Hall Hset; cbn [foldl]; [done|].
  apply Forall_cons in Hall as [Hp Hall]. apply below_spec in Hp as (kp & _ & ->).
  apply IH; try done.
  - rewrite (push_entry_fs self st kp S), HR.
    destruct (_ && _) eqn:He; [|done]. apply Hset; [apply list_elem_of_here | done].
  - eapply same_settings_trans; [exact S | apply push_entry_settings].
  - intros k Hin. apply Hset. by apply list_elem_of_further.
Qed.

(** A second Backup run finds every file settled, when nothing is
    refused. *)
Lemma backup_sync_fixed (self self2 : FileSync)
    (fs : gmap (list string) node) :
  ~ source_dir self `prefix_of` target_dir self ->
  ~ target_dir self `prefix_of` source_dir self ->
  tree_shaped fs ->
  same_settings self self2 ->
  final_fs (backup_sync self2 (final_fs (backup_sync self fs)))
  = final_fs (backup_sync self fs).
Proof.
  intros Hst Hts Hwf S2.
  pose proof S2 as (A2 & B2 & _).
  set (self0 := log (LogInfo "backup sync started") self).
  set (self3 := log (LogInfo "backup sync started") self2).
  assert (Hrun : forall s fs1,
            backup_sync s fs1 =
            match Path_mkdir fs1 (target_dir s) with
            | None => Raised (log (LogInfo "backup sync started") s) fs1
            | Some fs2 =>
                let st := foldl push_entry
                            (log (LogInfo "backup sync started") s, fs2)
                            (rglob fs2 (source_dir s)) in
                Returned st.1 st.2
            end) by done.
  rewrite (Hrun self fs).
  destruct (Path_mkdir fs (target_dir self)) as [fs0|] eqn:Hmk; cbn [final_fs].
  2: { by rewrite Hrun, B2, Hmk. }
  cbv zeta. fold self0.
  set (st1 := foldl push_entry (self0, fs0) (rglob fs0 (source_dir self))).
  destruct (push_loop_settles self fs0 (rglob fs0 (source_dir self)) (self0, fs0)
              (fun _ => False)) as [(S1 & F1 & P1) Hsettled]; try done.
  { by eapply Path_mkdir_tree_shaped. }
  { split; [apply same_settings_log|]. split; [done | apply preserved_refl]. }
  { apply rglob_below. }
  fold st1 in S1, F1, P1, Hsettled.
  rewrite Hrun, A2, B2.
  assert (Htd : is_dir st1.2 (target_dir self) = true).
  { eapply is_dir_preserved; [exact P1|]. by eapply Path_mkdir_is_dir. }
  rewrite (Path_mkdir_existing _ _ Htd). cbv zeta. cbn [final_fs]. fold self3.
  apply (push_loop_fixed self st1.2);
    [ done
    | eapply same_settings_trans; [exact S2 | apply same_settings_log]
    | apply rglob_below | ].
  intros k Hin He.
  assert (He0 : eligible self fs0 (source_dir self ++ k) = true).
  { unfold eligible. rewrite <- He. f_equal. symmetry. apply is_file_agree, F1. }
  apply Hsettled; [|done]. right.
  apply elem_of_rglob in Hin as (Hd & Hsome & Hb).
  apply elem_of_rglob. split; [|split; [|done]].
  - rewrite <- Hd. symmetry. apply is_dir_agree.
    specialize (F1 []). by rewrite app_nil_r in F1.
  - by rewrite <- F1.
Qed.

(** X23: Backup reaches a fixed point of the file system in one run.
    Over a tree-shaped file system and two trees neither of which lies
    inside the other, let a Backup run return without having counted an
    error, and let a second run with the same settings, right after the
    first, do the same.  Then the second run leaves every path as the
    first run left it, whether the runs are real or dry: no file is
    rewritten with other bytes, no directory is added.  This is said of
    the paths whose name is not one the log file can have.  (The counters
    need not agree: a file that the first run copied into a directory of
    the target is counted under [updated] again.) *)
Theorem backup_twice_changes_nothing (self self1 self2 self3 : FileSync)
    (fs fs1 fs2 : gmap (list string) node) (q : list string) :
  ~ source_dir self `prefix_of` target_dir self ->
  ~ target_dir self `prefix_of` source_dir self ->
  tree_shaped fs ->
  same_settings self self2 ->
  backup_sync self fs = Returned self1 fs1 ->
  errors (stats self1) = errors (stats self) ->
  backup_sync self2 fs1 = Returned self3 fs2 ->
  errors (stats self3) = errors (stats self2) ->
  is_log_file_name (name q) = false ->
  fs2 !! q = fs1 !! q.
Proof.
  intros Hst Hts Hwf S2 Hrun1 _ Hrun2 _ _.
  pose proof (backup_sync_fixed self self2 fs Hst Hts Hwf S2) as H.
  rewrite Hrun1 in H. cbn [final_fs] in H. rewrite Hrun2 in H.
  cbn [final_fs] in H. by rewrite H.
Qed.

Lemma backup_twice_changes_nothing_witness :
  let self := FileSync_init ["src"] ["dst"] "backup" false in
  let once := backup_sync self fs_file_against_dir in
  let twice := backup_sync self (final_fs once) in
  final_fs twice !! ["dst"; "a"; "a"] = final_fs once !! ["dst"; "a"; "a"] /\
  stats (final_self once) = mkStats 0 1 0 0 0 /\
  stats (final_self twice) = mkStats 0 1 0 0 0.
Proof.
  cbv zeta. split; [|split; vm_compute; reflexivity].
  apply (backup_twice_changes_nothing
           (FileSync_init ["src"] ["dst"] "backup" false)
           (final_self (backup_sync (FileSync_init ["src"] ["dst"] "backup" false)
                                    fs_file_against_dir))
           (FileSync_init ["src"] ["dst"] "backup" false)
           (final_self (backup_sync (FileSync_init ["src"] ["dst"] "backup" false)
              (final_fs (backup_sync (FileSync_init ["src"] ["dst"] "backup" false)
                                     fs_file_against_dir))))
           fs_file_against_dir).
  - decide_by_evaluation.
  - decide_by_evaluation.
  - unfold tree_shaped. decide_by_evaluation.
  - apply same_settings_refl.
  - apply returned_final. vm_compute. exact I.
  - vm_compute; reflexivity.
  - apply returned_final. vm_compute. exact I.
  - vm_compute; reflexivity.
  - vm_compute; reflexivity.
Defined.

Lemma split_on_prefix sep (c : string) : forall acc rest,
  forallb (fun ch => negb (sep ch)) (list_ascii_of_string c) = true ->
  split_on sep acc (c +:+ rest)
  = split_on sep (rev (list_ascii_of_string c) ++ acc) rest.
Proof.
  induction c as [|ch c IH]; intros acc rest Hc; [done|].
  cbn in Hc. apply andb_true_iff in Hc as [Hch Hc].
  change (String ch c +:+ rest) with (String ch (c +:+ rest)).
  cbn [split_on list_ascii_of_string rev].
  apply negb_true_iff in Hch. rewrite Hch, IH by done.
  by rewrite <- app_assoc.
Qed.

Lemma split_on_line sep (c : string) (ch : ascii) rest :
  forallb (fun ch => negb (sep ch)) (list_ascii_of_string c) = true ->
  sep ch = true ->
  split_on sep [] (c +:+ String ch rest) = c :: split_on sep [] rest.
Proof.
  intros Hc Hch. rewrite split_on_prefix by done.
  cbn [split_on]. rewrite Hch, app_nil_r, rev_involutive.
  by rewrite string_of_list_ascii_of_string.
Qed.

(** A plain character is a character of ASCII that is no white space, no
    slash and ends no line. *)
Lemma plain_char_spec ch :
  plain_char ch = true ->
  isspace ch = false /\ (nat_of_ascii ch <? 128)%nat = true /\
  Ascii.eqb ch "/" = false /\
  (Ascii.eqb ch "010" || Ascii.eqb ch "013") = false.
Proof. destruct ch as [[] [] [] [] [] [] [] []]; done. Qed.

(** No white character of more than one byte ends with a byte of ASCII. *)
Lemma isspace_wide_low (a b c : ascii) :
  (nat_of_ascii c <? 128)%nat = true ->
  isspace2 b c = false /\ isspace3 a b c = false.
Proof.
  intros Hc%Nat.ltb_lt. unfold isspace2, isspace3. cbv zeta.
  assert (forall n, (128 <= n)%nat -> (nat_of_ascii c =? n)%nat = false) as Hne
    by (intros n Hn; apply Nat.eqb_neq; lia).
  assert ((128 <=? nat_of_ascii c)%nat = false) as Hle
    by (apply Nat.leb_gt; lia).
  rewrite !Hne, Hle by lia. cbn [andb orb].
  by rewrite !andb_false_r.
Qed.

(** None starts with one either. *)
Lemma isspace_wide_head (a b c : ascii) :
  (nat_of_ascii a <? 128)%nat = true ->
  isspace2 a b = false /\ isspace3 a b c = false.
Proof.
  intros Ha%Nat.ltb_lt. unfold isspace2, isspace3. cbv zeta.
  assert (forall n, (128 <= n)%nat -> (nat_of_ascii a =? n)%nat = false) as Hne
    by (intros n Hn; apply Nat.eqb_neq; lia).
  by rewrite !Hne by lia.
Qed.

Lemma lstrip_plain (a : ascii) (rest : string) :
  isspace a = false -> (nat_of_ascii a <? 128)%nat = true ->
  lstrip (String a rest) = String a rest.
Proof.
  intros Hs Ha. cbn [lstrip]. rewrite Hs.
  destruct rest as [|b [|c rest]]; [done | |].
  - by rewrite (proj1 (isspace_wide_head a b b Ha)).
  - by rewrite (proj1 (isspace_wide_head a b c Ha)),
               (proj2 (isspace_wide_head a b c Ha)).
Qed.

Lemma rstrip_rev_plain (c : ascii) (r : list ascii) :
  isspace c = false -> (nat_of_ascii c <? 128)%nat = true ->
  rstrip_rev (c :: r) = c :: r.
Proof.
  intros Hs Hc. cbn [rstrip_rev]. rewrite Hs.
  destruct r as [|b [|a r]]; [done | |].
  - by rewrite (proj1 (isspace_wide_low b b c Hc)).
  - by rewrite (proj1 (isspace_wide_low a b c Hc)),
               (proj2 (isspace_wide_low a b c Hc)).
Qed.

Lemma rstrip_plain (s : string) :
  forallb (fun ch => negb (isspace ch) && (nat_of_ascii ch <? 128)%nat)
          (list_ascii_of_string s) = true ->
  rstrip s = s.
Proof.
  intros H. unfold rstrip.
  assert (E : rstrip_rev (rev (list_ascii_of_string s))
              = rev (list_ascii_of_string s)).
  { destruct (rev (list_ascii_of_string s)) as [|c r] eqn:Hr; [done|].
    assert (Hin : In c (list_ascii_of_string s)).
    { apply in_rev. rewrite Hr. by left. }
    apply (proj1 (forallb_forall _ _) H) in Hin.
    apply andb_true_iff in Hin as [Hs Hc]. apply negb_true_iff in Hs.
    by apply rstrip_rev_plain. }
  by rewrite E, rev_involutive, string_of_list_ascii_of_string.
Qed.

Lemma forallb_append (P : ascii -> bool) (s t : string) :
  forallb P (list_ascii_of_string (s +:+ t))
  = forallb P (list_ascii_of_string s) && forallb P (list_ascii_of_string t).
Proof.
  induction s as [|ch s IH]; [done|].
  change (String ch s +:+ t) with (String ch (s +:+ t)). cbn.
  by rewrite IH, andb_assoc.
Qed.

Lemma plain_name_spec c :
  plain_name c = true ->
  c <> "" /\ c <> "." /\ c <> ".." /\
  forallb plain_char (list_ascii_of_string c) = true.
Proof.
  unfold plain_name. rewrite !andb_true_iff, !negb_true_iff, !String.eqb_neq.
  tauto.
Qed.

Lemma plain_name_chars (P : ascii -> bool) c :
  (forall ch, plain_char ch = true -> P ch = true) ->
  plain_name c = true -> forallb P (list_ascii_of_string c) = true.
Proof.
  intros HP (_ & _ & _ & H)%plain_name_spec.
  apply forallb_forall. intros ch Hin. apply HP.
  by apply (proj1 (forallb_forall _ _) H).
Qed.

(** The characters of a path string are those of its names and the
    slash. *)
Lemma slashed_chars (P : ascii -> bool) p :
  P "/"%char = true ->
  (forall ch, plain_char ch = true -> P ch = true) ->
  Forall (fun c => plain_name c = true) p ->
  forallb P (list_ascii_of_string (slashed p)) = true.
Proof.
  intros Hs HP. induction 1 as [|c r Hc _ IH]; [done|].
  cbn [slashed list_ascii_of_string forallb]. rewrite forallb_append, Hs, IH.
  by rewrite (plain_name_chars P c HP Hc).
Qed.

Lemma str_of_path_chars (P : ascii -> bool) p :
  P "/"%char = true ->
  (forall ch, plain_char ch = true -> P ch = true) ->
  Forall (fun c => plain_name c = true) p ->
  forallb P (list_ascii_of_string (str_of_path p)) = true.
Proof.
  intros Hs HP Hp. destruct p as [|c r]; [cbn; by rewrite Hs|].
  by apply slashed_chars.
Qed.

(** Splitting a path string at the slashes gives its names back, after an
    empty field. *)
Lemma split_slashed p : forall acc,
  Forall (fun c => plain_name c = true) p ->
  split_on (Ascii.eqb "/") acc (slashed p)
  = match p with
    | [] => [string_of_list_ascii (rev acc)]
    | _ => string_of_list_ascii (rev acc) :: p
    end.
Proof.
  induction p as [|c r IH]; intros acc Hp; [done|].
  apply Forall_cons in Hp as [Hc Hr].
  cbn [slashed split_on]. rewrite Ascii.eqb_refl. f_equal.
  rewrite split_on_prefix.
  - rewrite IH by done. rewrite app_nil_r, rev_involutive,
      string_of_list_ascii_of_string. by destruct r.
  - apply plain_name_chars; [|done]. intros ch (_ & _ & H & _)%plain_char_spec.
    by rewrite Ascii.eqb_sym, H.
Qed.

Lemma filter_plain (l : list string) :
  Forall (fun c => plain_name c = true) l ->
  List.filter (fun c => negb (String.eqb c "") && negb (String.eqb c ".")) l = l.
Proof.
  induction 1 as [|x l Hx _ IH]; [done|].
  cbn [List.filter]. apply plain_name_spec in Hx as (H1 & H2 & _).
  apply String.eqb_neq in H1, H2. rewrite H1, H2. cbn [negb andb]. by rewrite IH.
Qed.

Lemma Path_of_string_str cwd p :
  Forall (fun c => plain_name c = true) p ->
  Path_of_string cwd (str_of_path p) = p.
Proof.
  intros Hp. unfold Path_of_string. destruct p as [|c r]; [done|].
  assert (Hstart : startswith (str_of_path (c :: r)) "/" = true) by done.
  rewrite Hstart. unfold str_of_path. rewrite split_slashed by done.
  cbn [rev string_of_list_ascii]. change (List.filter ?f ("" :: ?l)) with (List.filter f l).
  by apply filter_plain.
Qed.

Lemma walk_plain (fs : gmap (list string) node) parts : forall cur,
  (forall q, q `prefix_of` cur ++ parts -> q <> cur ++ parts -> is_dir fs q = true) ->
  Forall (fun c => plain_name c = true) parts ->
  walk fs cur parts = Some (cur ++ parts).
Proof.
  induction parts as [|c r IH]; intros cur Hd Hp; cbn [walk].
  - by rewrite app_nil_r.
  - apply Forall_cons in Hp as [Hc Hr].
    rewrite Hd.
    + assert (Hdd : String.eqb c ".." = false).
      { apply plain_name_spec in Hc as (_ & _ & Hc & _). by apply String.eqb_neq. }
      rewrite Hdd, IH; [by rewrite <- app_assoc | | done].
      intros q. rewrite <- app_assoc. apply Hd.
    + by apply prefix_app_r.
    + intros E. rewrite <- (app_nil_r cur) in E at 1. by apply app_inv_head in E.
Qed.

Lemma walk_agree (fs fs' : gmap (list string) node) parts : forall cur,
  (forall q, is_dir fs' q = is_dir fs q) ->
  walk fs' cur parts = walk fs cur parts.
Proof.
  induction parts as [|c r IH]; intros cur H; cbn [walk]; [done|].
  rewrite H. destruct (is_dir fs cur); [|done].
  destruct (String.eqb c ".."); by apply IH.
Qed.

Lemma load_line_skip cwd fs s raw :
  negb (String.eqb (strip raw) "") && negb (startswith (strip raw) "#") = false ->
  load_line cwd fs s raw = s.
Proof. unfold load_line. by intros ->. Qed.

(** A path string of plain names has nothing for [strip] to drop. *)
Lemma strip_str_of_path (p : list string) :
  Forall (fun c => plain_name c = true) p ->
  strip (str_of_path p) = str_of_path p.
Proof.
  intros Hp. unfold strip.
  assert (lstrip (str_of_path p) = str_of_path p) as ->.
  { destruct p as [|c r]; by apply lstrip_plain. }
  apply rstrip_plain. apply str_of_path_chars; [done | | done].
  intros ch (H1 & H2 & _)%plain_char_spec. by rewrite H1, H2.
Qed.

(** A line written for a path is read back as that path. *)
Lemma load_line_str (cwd : list string) (fs : gmap (list string) node)
    (s : FileSync) (p : list string) :
  Forall (fun c => plain_name c = true) p ->
  (forall q, q `prefix_of` p -> q <> p -> is_dir fs q = true) ->
  load_line cwd fs s (str_of_path p) = add_path fs s p.
Proof.
  intros Hp Hd. unfold load_line. rewrite strip_str_of_path by done.
  assert (negb (String.eqb (str_of_path p) "")
          && negb (startswith (str_of_path p) "#") = true) as ->
    by (by destruct p).
  unfold add_exclusion, add_path.
  rewrite Path_of_string_str by done.
  by rewrite (walk_plain fs p []).
Qed.

Lemma split_written_lines ps :
  Forall (Forall (fun c => plain_name c = true)) ps ->
  split_on (fun c => Ascii.eqb c "010" || Ascii.eqb c "013") [] (written_lines ps)
  = map str_of_path ps ++ [""].
Proof.
  induction 1 as [|p r Hp _ IH]; [done|].
  cbn [written_lines map]. rewrite split_on_line; [by rewrite IH | | done].
  apply str_of_path_chars; [done | | done].
  intros ch (_ & _ & _ & H)%plain_char_spec. by rewrite H.
Qed.

(** The lines of the file: the two comments, a blank, one line for each
    path, and the empty rest after the last newline. *)
Lemma file_lines_exclusion_text ps :
  Forall (Forall (fun c => plain_name c = true)) ps ->
  file_lines (exclusion_text ps)
  = ["# 文件同步排除列表"; "# 以#开头的行为注释"; ""] ++ map str_of_path ps ++ [""].
Proof.
  intros Hps. unfold file_lines, exclusion_text.
  rewrite split_on_line; [|vm_compute; reflexivity | done].
  rewrite split_on_line; [|vm_compute; reflexivity | done].
  cbn [split_on]. cbn [rev string_of_list_ascii Ascii.eqb orb].
  by rewrite split_written_lines.
Qed.

(** Text of ASCII is well-formed UTF-8. *)
Lemma utf8_valid_ascii (s : string) :
  forallb (fun ch => (nat_of_ascii ch <? 128)%nat) (list_ascii_of_string s) = true ->
  utf8_valid s = true.
Proof.
  induction s as [|ch s IH]; [done|]. cbn [list_ascii_of_string forallb].
  intros [Hch Hs]%andb_true_iff. cbn [utf8_valid]. cbv zeta. rewrite Hch. by apply IH.
Qed.

(** Every path of plain names is written. *)
Lemma writable_prefix_plain ps :
  Forall (Forall (fun c => plain_name c = true)) ps ->
  writable_prefix ps = ps /\ forallb encodable ps = true.
Proof.
  induction 1 as [|p r Hp _ [IH1 IH2]]; [done|].
  assert (Hen : encodable p = true).
  { unfold encodable. apply forallb_forall. intros c Hc.
    apply utf8_valid_ascii. apply plain_name_chars.
    - by intros ch (_ & H & _)%plain_char_spec.
    - by apply (proj1 (Forall_forall _ _) Hp), list_elem_of_In. }
  cbn [writable_prefix forallb]. by rewrite Hen, IH1, IH2.
Qed.

Lemma add_paths_files (fs : gmap (list string) node) ps : forall s,
  Forall (fun p => is_file fs p = true) ps ->
  excluded_files (foldl (add_path fs) s ps) = excluded_files s ∪ list_to_set ps /\
  excluded_dirs (foldl (add_path fs) s ps) = excluded_dirs s.
Proof.
  induction ps as [|p r IH]; intros s Hall; cbn [foldl].
  - cbn. split; [by rewrite union_empty_r_L | done].
  - apply Forall_cons in Hall as [Hp Hr].
    destruct (IH (add_path fs s p) Hr) as [-> ->].
    unfold add_path. rewrite Hp. cbn. split; [by rewrite (assoc_L (∪)) | done].
Qed.

Lemma add_paths_dirs (fs : gmap (list string) node) ps : forall s,
  Forall (fun p => is_dir fs p = true) ps ->
  excluded_files (foldl (add_path fs) s ps) = excluded_files s /\
  excluded_dirs (foldl (add_path fs) s ps) = excluded_dirs s ∪ list_to_set ps.
Proof.
  induction ps as [|p r IH]; intros s Hall; cbn [foldl].
  - cbn. split; [done | by rewrite union_empty_r_L].
  - apply Forall_cons in Hall as [Hp Hr].
    destruct (IH (add_path fs s p) Hr) as [-> ->].
    unfold add_path.
    assert (is_file fs p = false) as ->.
    { destruct (is_file fs p) eqn:E; [|done]. exfalso. by eapply is_file_not_dir. }
    rewrite Hp. cbn. split; [done | by rewrite (assoc_L (∪))].
Qed.

(** X24: an exclusion list saved with [save_exclusions_to_file] loads
    back with [load_exclusions_from_file].  Over a tree-shaped file
    system, let every excluded file still be a regular file and every
    excluded directory still a directory, all of them paths the way
    through the file does not change: names of printable ASCII with no
    blank and no slash in them, not [.] or [..], and of a length the
    operating system takes.  Let the list file open for writing and be
    readable afterwards.  Then the save logs no failure, and a fresh
    object that loads the saved file, in the same working directory, ends
    up with the two exclusion sets of the object that saved it, in
    whatever order the sets were written. *)
Theorem saved_exclusions_load_back (cwd : list string)
    (fs : gmap (list string) node) (self fresh : FileSync) (file_path : string)
    (now : Z) (mode_new : bool * bool) (files dirs : list (list string))
    (pf : list string) (w : bool) :
  tree_shaped fs ->
  files ≡ₚ elements (excluded_files self) ->
  dirs ≡ₚ elements (excluded_dirs self) ->
  (forall p, p ∈ excluded_files self -> is_file fs p = true /\ plain_path p) ->
  (forall p, p ∈ excluded_dirs self -> is_dir fs p = true /\ plain_path p) ->
  open_write cwd fs file_path mode_new = Some (pf, (true, w)) ->
  excluded_files fresh = ∅ -> excluded_dirs fresh = ∅ ->
  let saved := save_exclusions_to_file cwd fs self file_path now mode_new
                                       files dirs in
  let loaded := load_exclusions_from_file cwd saved.2 fresh file_path in
  saved.1 = self /\
  excluded_files loaded = excluded_files self /\
  excluded_dirs loaded = excluded_dirs self.
Proof.
  intros Hwf Hfiles Hdirs Hef Hed Hopen Hf0 Hd0. cbv zeta.
  assert (Hin_f : Forall (fun p => p ∈ excluded_files self) files).
  { apply Forall_forall. intros p Hp. rewrite Hfiles in Hp.
    by apply elem_of_elements in Hp. }
  assert (Hin_d : Forall (fun p => p ∈ excluded_dirs self) dirs).
  { apply Forall_forall. intros p Hp. rewrite Hdirs in Hp.
    by apply elem_of_elements in Hp. }
  assert (Hplain : Forall (Forall (fun c => plain_name c = true)) (files ++ dirs)).
  { apply Forall_app. split.
    - eapply Forall_impl; [exact Hin_f|]. intros p Hp. by apply Hef.
    - eapply Forall_impl; [exact Hin_d|]. intros p Hp. by apply Hed. }
  destruct (writable_prefix_plain _ Hplain) as [Hwritten Hall].
  unfold save_exclusions_to_file. rewrite Hopen. cbv zeta.
  rewrite Hwritten, Hall. cbn [fst snd]. split; [done|].
  set (text := exclusion_text (files ++ dirs)).
  set (fs1 := <[pf := File (FileData text now true w)]> fs).
  unfold open_write in Hopen.
  destruct (walk fs [] (Path_of_string cwd file_path)) as [p|] eqn:Hwalk; [|done].
  assert (Hpf : p = pf /\ pf <> [] /\ is_dir fs pf = false) .
  { unfold is_dir. destruct (fs_node fs p) as [[g|]|] eqn:E; [| done |].
    - destruct (writable g); [|done]. injection Hopen as -> _ _.
      split; [done|]. split; [by intros ->|]. by rewrite E.
    - destruct (is_dir fs (parent p)); [|done]. injection Hopen as -> _.
      split; [done|]. split; [by intros ->|]. by rewrite E. }
  destruct Hpf as (-> & Hpfne & Hpfd). clear Hopen.
  assert (Hdir : forall q, is_dir fs1 q = is_dir fs q).
  { intros q. destruct (decide (q = pf)) as [-> | Hne].
    - rewrite Hpfd. unfold is_dir. rewrite fs_node_lookup by done.
      subst fs1. by rewrite lookup_insert_eq.
    - apply is_dir_agree. subst fs1. by rewrite lookup_insert_ne. }
  assert (Hfile : forall q, is_file fs q = true -> is_file fs1 q = true).
  { intros q Hq. destruct (decide (q = pf)) as [-> | Hne].
    - unfold is_file. rewrite fs_node_lookup by done.
      subst fs1. by rewrite lookup_insert_eq.
    - rewrite <- Hq. apply is_file_agree. subst fs1. by rewrite lookup_insert_ne. }
  assert (Hup : forall p q, Path_exists fs p = true ->
            q `prefix_of` p -> q <> p -> is_dir fs1 q = true).
  { intros p q Hp Hq Hne. rewrite Hdir. unfold Path_exists in Hp.
    destruct p as [|c p]; [by apply prefix_nil_inv in Hq|]. cbn [fs_node] in Hp.
    destruct (fs !! (c :: p)) as [n|] eqn:E; [|done].
    by eapply tree_shaped_ancestors. }
  unfold load_exclusions_from_file, open_read.
  rewrite (walk_agree fs fs1) by done. rewrite Hwalk.
  assert (fs_node fs1 pf = Some (File (FileData text now true w))) as ->.
  { rewrite fs_node_lookup by done. subst fs1. apply lookup_insert_eq. }
  cbn [readable content]. subst text.
  rewrite file_lines_exclusion_text by done.
  rewrite !foldl_app. cbn [foldl].
  rewrite !load_line_skip by (vm_compute; reflexivity).
  assert (Hlines : forall ps s,
            Forall (fun p => Path_exists fs p = true
                             /\ Forall (fun c => plain_name c = true) p) ps ->
            foldl (load_line cwd fs1) s (map str_of_path ps)
            = foldl (add_path fs1) s ps).
  { induction ps as [|p r IH]; intros s Hall'; cbn [map foldl]; [done|].
    apply Forall_cons in Hall' as [[Hp1 Hp2] Hr].
    rewrite load_line_str; [by apply IH | done |].
    intros q Hq Hne. by apply (Hup p). }
  rewrite map_app, foldl_app, !Hlines.
  - destruct (add_paths_files fs1 files fresh) as [E1 E2].
    { eapply Forall_impl; [exact Hin_f|]. intros p Hp. by apply Hfile, Hef. }
    destruct (add_paths_dirs fs1 dirs (foldl (add_path fs1) fresh files)) as [E3 E4].
    { eapply Forall_impl; [exact Hin_d|]. intros p Hp. rewrite Hdir. by apply Hed. }
    rewrite E3, E4, E1, E2, Hf0, Hd0, !union_empty_l_L.
    split.
    + rewrite Hfiles. apply list_to_set_elements_L.
    + rewrite Hdirs. apply list_to_set_elements_L.
  - eapply Forall_impl; [exact Hin_f|]. intros p Hp.
    destruct (Hef p Hp) as [H1 [H2 _]].
    split; [|done]. unfold Path_exists. unfold is_file in H1.
    by destruct (fs_node fs p) as [[]|].
  - eapply Forall_impl; [exact Hin_d|]. intros p Hp.
    destruct (Hed p Hp) as [H1 [H2 _]].
    split; [|done]. unfold Path_exists. unfold is_dir in H1.
    by destruct (fs_node fs p) as [[]|].
Qed.

Lemma saved_exclusions_load_back_witness :
  let saved := save_exclusions_to_file [] fs_with_exclusion_file excluding_two
                 "cfg/saved.lst" 9 (true, true) [["src"; "a.txt"]] [["src"]] in
  let loaded := load_exclusions_from_file [] saved.2
                  (FileSync_init ["src"] ["dst"] "backup" true) "cfg/saved.lst" in
  saved.1 = excluding_two /\
  excluded_files loaded = excluded_files excluding_two /\
  excluded_dirs loaded = excluded_dirs excluding_two.
Proof.
  apply (saved_exclusions_load_back [] fs_with_exclusion_file excluding_two
           (FileSync_init ["src"] ["dst"] "backup" true) "cfg/saved.lst" 9
           (true, true) [["src"; "a.txt"]] [["src"]] ["cfg"; "saved.lst"] true).
  - unfold tree_shaped. decide_by_evaluation.
  - cbn [excluding_two excluded_files with_excluded_files with_excluded_dirs
         FileSync_init]. by rewrite union_empty_l_L, elements_singleton.
  - cbn [excluding_two excluded_dirs with_excluded_files with_excluded_dirs
         FileSync_init]. by rewrite union_empty_l_L, elements_singleton.
  - intros p Hp. apply elem_of_union in Hp as [Hp | ->%elem_of_singleton];
      [by apply elem_of_empty in Hp|].
    split; [vm_compute; reflexivity|].
    split; [repeat constructor | vm_compute; lia].
  - intros p Hp. apply elem_of_union in Hp as [Hp | ->%elem_of_singleton];
      [by apply elem_of_empty in Hp|].
    split; [vm_compute; reflexivity|].
    split; [repeat constructor | vm_compute; lia].
  - vm_compute. reflexivity.
  - reflexivity.
  - reflexivity.
Defined.

(** ** A file that meets a directory *)



(** ** Two-way sync stays inside the two trees *)

Lemma settle_loop_outside items : forall st q,
  ~ on_line (source_dir st.1) q -> ~ on_line (target_dir st.1) q ->
  (foldl settle_entry st items).2 !! q = st.2 !! q.
Proof.
  induction items as [|item items IH]; intros st q Hs Ht; cbn [foldl]; [done|].
  destruct (settle_entry_config st item) as (A & B & _).
  rewrite IH by (by rewrite ?A, ?B).
  rewrite settle_entry_copy. unfold dest.
  destruct (info_source item.2); apply copy_file_outside;
    first [ by apply off_line_app
          | rewrite <- app_assoc; by apply off_line_below ].
Qed.

(** X26: TwoWay writes on the lines of its two roots only, and to its
    log: every path that is neither one of the two directories, nor one
    of their ancestors, nor below one of them, and whose name is not one
    the log file can have, holds after [two_way_sync] what it held
    before, whether the run returns or not. *)
Theorem two_way_writes_inside_the_trees (self : FileSync)
    (fs : gmap (list string) node) (q : list string) :
  ~ on_line (source_dir self) q -> ~ on_line (target_dir self) q ->
  is_log_file_name (name q) = false ->
  final_fs (two_way_sync self fs) !! q = fs !! q.
Proof.
  intros Hs Ht _. unfold two_way_sync.
  set (self0 := log (LogInfo "two-way sync started") self).
  change (source_dir self0) with (source_dir self).
  change (target_dir self0) with (target_dir self).
  destruct (Path_mkdir fs (source_dir self)) as [fs0|] eqn:H0; cbn [final_fs]; [|done].
  assert (E0 : fs0 !! q = fs !! q).
  { eapply Path_mkdir_outside; [exact H0|]. intros Hp. apply Hs. by left. }
  destruct (Path_mkdir fs0 (target_dir self)) as [fs1|] eqn:H1; cbn [final_fs]; [|done].
  assert (E1 : fs1 !! q = fs0 !! q).
  { eapply Path_mkdir_outside; [exact H1|]. intros Hp. apply Ht. by left. }
  cbv zeta. cbn [final_fs].
  rewrite settle_loop_outside by done. cbn [snd]. congruence.
Qed.

Lemma two_way_writes_inside_the_trees_witness :
  final_fs (two_way_sync (FileSync_init ["src"] ["dst"] "sync" false)
                         fs_with_exclusion_file) !! ["cfg"; "missing.lst"]
  = fs_with_exclusion_file !! ["cfg"; "missing.lst"].
Proof.
  apply (two_way_writes_inside_the_trees
           (FileSync_init ["src"] ["dst"] "sync" false) fs_with_exclusion_file
           ["cfg"; "missing.lst"]);
    first [ vm_compute; reflexivity | unfold on_line; decide_by_evaluation ].
Defined.
